(** * go-google-mcp: credential store, login flow and account registry

    A shallow embedding of

    - [pkg/auth]: the credential store ([GetConfigDir], [SaveToken],
      [LoadToken], [SaveSecrets], [LoadSecrets], [validateAccountName],
      [IsMultiAccount], [ListAccounts], [GetAccountDir],
      [SaveTokenForAccount], [LoadTokenForAccount],
      [LoadSecretsForAccount], [SaveSecretsForAccount]) and the OAuth
      login flow ([Login]);
    - [pkg/registry]: [NewServiceSet], [NewLegacyRegistry],
      [NewMultiAccountRegistry] and [Registry.Resolve];
    - [main]: [handleAuthCommand], and the query of the [drive_search]
      tool;
    - [pkg/auth], auth.go: [GetClientOptions];
    - the service wrappers, as far as they decide anything themselves:
      [keep] ([ListNotes], [CreateNote], [GetNote], [DeleteNote],
      [UpdateNote]), [tasks] ([ListTaskLists], [ListTasks], [InsertTask],
      [UpdateTask], [DeleteTask]), [drive] ([findFilesQuery],
      [SearchFiles], [FindFiles]) and [gmail] ([SendEmail],
      [CreateDraft]).

    The Go code is imperative: it reads and writes a directory tree, talks
    to the network and keeps a map of cached service sets.  Here every
    function is a state-passing function over an explicit state, returning
    a [result] (a value or an [error]) together with the new state. *)

From Stdlib Require Import String Ascii List ZArith Lia.
From stdpp Require Import base option list gmap strings sorting pretty.

Local Open Scope string_scope.
Local Open Scope list_scope.

(** ** Strings *)

(** [strings.Contains s substr]: [substr] occurs somewhere in [s]. *)
Fixpoint Contains (s substr : string) : bool :=
  String.prefix substr s ||
  match s with
  | EmptyString => false
  | String _ s' => Contains s' substr
  end.

(** [strings.Join elems sep]. *)
Fixpoint Join (elems : list string) (sep : string) : string :=
  match elems with
  | [] => ""
  | [x] => x
  | x :: rest => x +:+ sep +:+ Join rest sep
  end.

(** How [fmt] renders a [[]string] under the verb [%v]: the elements
    separated by one space, between square brackets. *)
Definition fmt_v (l : list string) : string := "[" +:+ Join l " " +:+ "]".

(** ** Paths and the directory tree *)

(** A cleaned absolute path, as the list of its components from the
    root.  [[]] is the root directory. *)
Abbreviation path := (list string).

(** [filepath.Join dir elem...] for single-component elements: empty
    elements are ignored and the result is cleaned, which removes a
    component that is exactly ["."].  (Components with a separator or
    equal to [".."] never reach [Join] in the code modelled here: the
    constants are plain names, directory entries are plain names, and
    account names are validated first.) *)
Definition filepath_Join (dir : path) (elems : list string) : path :=
  dir ++ filter (fun c => c <> "" /\ c <> ".") elems.

Inductive node :=
| File (data : string)
| Dir.

Global Instance node_eq_dec : EqDecision node.
Proof. solve_decision. Defined.

(** The file system: the nodes present, by path. *)
Abbreviation FS := (gmap path node).

(** The root always exists and is a directory. *)
Definition fs_lookup (t : FS) (p : path) : option node :=
  match p with
  | [] => Some Dir
  | _ => t !! p
  end.

Definition parent (p : path) : path := removelast p.

(** A file name: not empty and not ["."]. *)
Definition valid_name (c : string) : Prop := c <> "" /\ c <> ".".

Global Instance valid_name_dec (c : string) : Decision (valid_name c).
Proof. unfold valid_name. apply _. Defined.

(** A directory tree: whatever exists has file names for components and
    lies in an existing directory. *)
Definition fs_wf (t : FS) : Prop :=
  forall p n, t !! p = Some n ->
    Forall valid_name p /\ fs_lookup t (parent p) = Some Dir.

(** The tree part of [fs_wf]: whatever exists lies in an existing
    directory. *)
Definition fs_tree (t : FS) : Prop :=
  forall p n, t !! p = Some n -> fs_lookup t (parent p) = Some Dir.

(** No regular file stands where [p] needs a directory: [p] exists as a
    directory or can be made one. *)
Definition dir_makeable (t : FS) (p : path) : Prop :=
  forall q data, q `prefix_of` p -> t !! q <> Some (File data).

(** [t] and [t'] hold the same at [p] and below. *)
Definition agree_below (p : path) (t t' : FS) : Prop :=
  forall q, p `prefix_of` q -> t !! q = t' !! q.

(** The name of [p] when [p] is an entry of directory [d]. *)
Definition entry_name (d p : path) : option string :=
  match last p with
  | Some c => if decide (p = d ++ [c]) then Some c else None
  | None => None
  end.

Definition entry_names (t : FS) (d : path) : gset string :=
  list_to_set (omap (fun '(p, _) => entry_name d p) (map_to_list t)).

(** ** Errors *)

Inductive errno := ENOENT | ENOTDIR | EISDIR | EEXIST.

(** Go error values.  [Errorf] keeps the format and its arguments apart
    (the [%q] rendering is the library's), and so does [Wrapf], an
    [Errorf] whose format ends in [%w] on [wrapped]; [ErrorString] is a
    message with nothing to substitute, or one rendered here in full;
    [ExtError] is an error of a library outside this repository. *)
Inductive error :=
| PathError (op : string) (p : path) (e : errno)
| ErrorString (msg : string)
| Errorf (format : string) (args : list string)
| Wrapf (format : string) (args : list string) (wrapped : error)
| ExtError (code : nat).

(** [os.IsNotExist]. *)
Definition IsNotExist (e : error) : bool :=
  match e with
  | PathError _ _ ENOENT => true
  | _ => false
  end.

Inductive result (A : Type) :=
| Ok (a : A)
| Err (e : error).
Arguments Ok {A} a.
Arguments Err {A} e.

Definition is_ok {A} (r : result A) : bool :=
  match r with Ok _ => true | Err _ => false end.

(** ** The state of the credential store *)

(** File-system calls, as a trace. *)
Inductive fs_op :=
| OpMkdirAll (p : path)
| OpCreate (p : path)
| OpWrite (p : path)
| OpOpen (p : path)
| OpRead (p : path)
| OpReadFile (p : path)
| OpWriteFile (p : path)
| OpReadDir (p : path)
| OpStat (p : path).

(** [env_config_dir] is the value of [GO_GOOGLE_MCP_CONFIG_DIR] and
    [BaseDir] the package variable of that name, [None] standing for the
    empty string; [home] is what [os.UserHomeDir] returns, [None] when it
    fails.  [trace] lists the file-system calls made so far, latest
    first. *)
Record Store := mkStore {
  fs : FS;
  env_config_dir : option path;
  BaseDir : option path;
  home : option path;
  trace : list fs_op
}.

Definition set_fs (t : FS) (s : Store) : Store :=
  mkStore t (env_config_dir s) (BaseDir s) (home s) (trace s).

Definition log (o : fs_op) (s : Store) : Store :=
  mkStore (fs s) (env_config_dir s) (BaseDir s) (home s) (o :: trace s).

(** [s'] has the environment of [s]: the stores differ at most in
    their files and traces. *)
Definition same_env (s s' : Store) : Prop :=
  env_config_dir s' = env_config_dir s
  /\ BaseDir s' = BaseDir s
  /\ home s' = home s.

(** State and error monad over a state [S]. *)
Definition M (S A : Type) : Type := S -> result A * S.

Definition ret {S A} (a : A) : M S A := fun s => (Ok a, s).
Definition fail {S A} (e : error) : M S A := fun s => (Err e, s).
Definition bind {S A B} (m : M S A) (k : A -> M S B) : M S B :=
  fun s => match m s with
           | (Ok a, s') => k a s'
           | (Err e, s') => (Err e, s')
           end.
(** Run [m] and hand its outcome, error or not, to the caller. *)
Definition try {S A} (m : M S A) : M S (result A) :=
  fun s => let '(r, s') := m s in (Ok r, s').

Notation "'let*' x ':=' m 'in' k" := (bind m (fun x => k))
  (at level 10, x pattern, m at level 100, k at level 200).

Definition gets {S A} (f : S -> A) : M S A := fun s => (Ok (f s), s).
Definition modify {S} (f : S -> S) : M S unit := fun s => (Ok tt, f s).

(** Run a computation on a part [T] of the state [S]. *)
Definition zoom {S T A} (get : S -> T) (set : T -> S -> S) (m : M T A)
  : M S A :=
  fun s => let '(r, t) := m (get s) in (r, set t s).

(** ** Package os *)

Module os.

(** [fs.DirEntry]: what [ReadDir] tells about an entry. *)
Record DirEntry := { Name : string; IsDir : bool }.

Definition Stat (p : path) : M Store node := fun s =>
  let s := log (OpStat p) s in
  match fs_lookup (fs s) p with
  | Some n => (Ok n, s)
  | None => (Err (PathError "stat" p ENOENT), s)
  end.

(** [os.Mkdir]: the parent must be a directory and [p] must be new. *)
Definition mkdir (p : path) (t : FS) : result FS :=
  match fs_lookup t (parent p) with
  | None => Err (PathError "mkdir" p ENOENT)
  | Some (File _) => Err (PathError "mkdir" p ENOTDIR)
  | Some Dir =>
      match fs_lookup t p with
      | Some _ => Err (PathError "mkdir" p EEXIST)
      | None => Ok (<[p := Dir]> t)
      end
  end.

(** [os.MkdirAll], on the reversed path [rp]: stop with success or
    error if the path exists; else make the parent, then the path. *)
Fixpoint mkdir_all (rp : list string) (t : FS) : result FS :=
  match fs_lookup t (rev rp) with
  | Some Dir => Ok t
  | Some (File _) => Err (PathError "mkdir" (rev rp) ENOTDIR)
  | None =>
      match rp with
      | [] => Ok t
      | _ :: rp' =>
          match mkdir_all rp' t with
          | Err e => Err e
          | Ok t' => mkdir (rev rp) t'
          end
      end
  end.

Definition MkdirAll (p : path) : M Store unit := fun s =>
  let s := log (OpMkdirAll p) s in
  match mkdir_all (rev p) (fs s) with
  | Ok t => (Ok tt, set_fs t s)
  | Err e => (Err e, s)
  end.

(** Opening [p] for writing, creating or replacing a regular file. *)
Definition open_write (op : string) (p : path) (data : string) (t : FS)
  : result FS :=
  match fs_lookup t (parent p) with
  | None => Err (PathError op p ENOENT)
  | Some (File _) => Err (PathError op p ENOTDIR)
  | Some Dir =>
      match p, fs_lookup t p with
      | [], _ | _, Some Dir => Err (PathError op p EISDIR)
      | _, _ => Ok (<[p := File data]> t)
      end
  end.

(** [os.Create]: the file is created, or truncated; the handle is the
    path. *)
Definition Create (p : path) : M Store path := fun s =>
  let s := log (OpCreate p) s in
  match open_write "open" p "" (fs s) with
  | Ok t => (Ok p, set_fs t s)
  | Err e => (Err e, s)
  end.

(** Writing to the handle that [Create] returned: the bytes are
    appended. *)
Definition Write (f : path) (data : string) : M Store unit := fun s =>
  let s := log (OpWrite f) s in
  match fs s !! f with
  | Some (File old) => (Ok tt, set_fs (<[f := File (old +:+ data)]> (fs s)) s)
  | Some Dir => (Err (PathError "write" f EISDIR), s)
  | None => (Err (PathError "write" f ENOENT), s)
  end.

(** [os.Open]: anything that exists can be opened for reading. *)
Definition Open (p : path) : M Store path := fun s =>
  let s := log (OpOpen p) s in
  match fs_lookup (fs s) p with
  | Some _ => (Ok p, s)
  | None => (Err (PathError "open" p ENOENT), s)
  end.

(** Reading an open file to its end. *)
Definition Read (f : path) : M Store string := fun s =>
  let s := log (OpRead f) s in
  match fs_lookup (fs s) f with
  | Some (File d) => (Ok d, s)
  | Some Dir => (Err (PathError "read" f EISDIR), s)
  | None => (Err (PathError "read" f ENOENT), s)
  end.

Definition ReadFile (p : path) : M Store string := fun s =>
  let s := log (OpReadFile p) s in
  match fs_lookup (fs s) p with
  | Some (File d) => (Ok d, s)
  | Some Dir => (Err (PathError "read" p EISDIR), s)
  | None => (Err (PathError "open" p ENOENT), s)
  end.

Definition WriteFile (p : path) (data : string) : M Store unit := fun s =>
  let s := log (OpWriteFile p) s in
  match open_write "open" p data (fs s) with
  | Ok t => (Ok tt, set_fs t s)
  | Err e => (Err e, s)
  end.

(** [os.ReadDir]: the entries of a directory, sorted by file name. *)
Definition dir_entry (t : FS) (d : path) (c : string) : DirEntry :=
  {| Name := c; IsDir := bool_decide (t !! (d ++ [c]) = Some Dir) |}.

Definition read_dir (t : FS) (d : path) : list DirEntry :=
  dir_entry t d <$> merge_sort String.le (elements (entry_names t d)).

Definition ReadDir (p : path) : M Store (list DirEntry) := fun s =>
  let s := log (OpReadDir p) s in
  match fs_lookup (fs s) p with
  | Some Dir => (Ok (read_dir (fs s) p), s)
  | Some (File _) => (Err (PathError "readdirent" p ENOTDIR), s)
  | None => (Err (PathError "open" p ENOENT), s)
  end.

End os.

(** ** Package auth: the credential store *)

Module auth.

Definition ConfigDirName : string := ".go-google-mcp".
Definition TokenFileName : string := "token.json".
Definition SecretsFileName : string := "client_secrets.json".
Definition AccountsDirName : string := "accounts".

(** [oauth2.Token], in the fields that are serialized.  [Expiry] is an
    instant, in nanoseconds since the epoch. *)
Record Token := {
  AccessToken : string;
  TokenType : string;
  RefreshToken : string;
  Expiry : Z
}.

(** Package [encoding/json], on tokens: what [Encode] writes for a
    token, and what [Decode] makes of the bytes of a file. *)
Class JSON := {
  json_Marshal : Token -> result string;
  json_Unmarshal : string -> result Token
}.

Section store.
Context `{JSON}.

(** [json.NewEncoder(f).Encode(token)]. *)
Definition json_Encode (f : path) (token : Token) : M Store unit :=
  match json_Marshal token with
  | Err e => fail e
  | Ok b => os.Write f b
  end.

(** [json.NewDecoder(f).Decode(&token)]. *)
Definition json_Decode (f : path) : M Store Token :=
  let* b := os.Read f in
  match json_Unmarshal b with
  | Err e => fail e
  | Ok token => ret token
  end.

Definition UserHomeDir : M Store path := fun s =>
  match home s with
  | Some h => (Ok h, s)
  | None => (Err (ErrorString "$HOME is not defined"), s)
  end.

Definition GetConfigDir : M Store path :=
  let* envDir := gets env_config_dir in
  match envDir with
  | Some envDir =>
      let* _ := os.MkdirAll envDir in
      ret envDir
  | None =>
      let* base := gets BaseDir in
      let* home := match base with
                   | Some b => ret b
                   | None => UserHomeDir
                   end in
      let dir := filepath_Join home [ConfigDirName] in
      let* _ := os.MkdirAll dir in
      ret dir
  end.

Definition SaveToken (token : Token) : M Store unit :=
  let* dir := GetConfigDir in
  let path := filepath_Join dir [TokenFileName] in
  let* f := os.Create path in
  json_Encode f token.

Definition LoadToken : M Store Token :=
  let* dir := GetConfigDir in
  let path := filepath_Join dir [TokenFileName] in
  let* f := os.Open path in
  json_Decode f.

Definition SaveSecrets (srcPath : path) : M Store unit :=
  let* content := os.ReadFile srcPath in
  let* dir := GetConfigDir in
  let dstPath := filepath_Join dir [SecretsFileName] in
  os.WriteFile dstPath content.

Definition LoadSecrets : M Store string :=
  let* dir := GetConfigDir in
  let path := filepath_Join dir [SecretsFileName] in
  os.ReadFile path.

(** [validateAccountName]; [None] is Go's [nil]. *)
Definition validateAccountName (account : string) : option error :=
  if decide (account = "") then
    Some (ErrorString "account name cannot be empty")
  else if Contains account ".." || Contains account "/"
          || Contains account "\" || Contains account (String "000" "")
  then
    Some (Errorf
      "invalid account name %q: must not contain path separators or '..'"
      [account])
  else None.

(** What an account name must not contain: [".."], a slash, a
    backslash, a NUL byte. *)
Definition forbidden : list string := [".."; "/"; "\"; String "000" ""].

Definition invalid_account_name (account : string) : error :=
  Errorf "invalid account name %q: must not contain path separators or '..'"
         [account].

(** The loop of [IsMultiAccount] over the entries of [accounts/]. *)
Fixpoint IsMultiAccount_loop (accountsDir : path) (entries : list os.DirEntry)
  : M Store bool :=
  match entries with
  | [] => ret false
  | e :: entries =>
      if os.IsDir e then
        let tokenPath := filepath_Join accountsDir [os.Name e; TokenFileName] in
        let* r := try (os.Stat tokenPath) in
        match r with
        | Ok _ => ret true
        | Err _ => IsMultiAccount_loop accountsDir entries
        end
      else IsMultiAccount_loop accountsDir entries
  end.

Definition IsMultiAccount : M Store bool :=
  let* dir := GetConfigDir in
  let accountsDir := filepath_Join dir [AccountsDirName] in
  let* r := try (os.ReadDir accountsDir) in
  match r with
  | Err err => if IsNotExist err then ret false else fail err
  | Ok entries => IsMultiAccount_loop accountsDir entries
  end.

(** The loop of [ListAccounts]; [accounts] is the slice appended to. *)
Fixpoint ListAccounts_loop (accountsDir : path) (entries : list os.DirEntry)
  (accounts : list string) : M Store (list string) :=
  match entries with
  | [] => ret accounts
  | e :: entries =>
      if os.IsDir e then
        let tokenPath := filepath_Join accountsDir [os.Name e; TokenFileName] in
        let* r := try (os.Stat tokenPath) in
        match r with
        | Ok _ => ListAccounts_loop accountsDir entries (accounts ++ [os.Name e])
        | Err _ => ListAccounts_loop accountsDir entries accounts
        end
      else ListAccounts_loop accountsDir entries accounts
  end.

Definition ListAccounts : M Store (list string) :=
  let* dir := GetConfigDir in
  let accountsDir := filepath_Join dir [AccountsDirName] in
  let* r := try (os.ReadDir accountsDir) in
  match r with
  | Err err => if IsNotExist err then ret [] else fail err
  | Ok entries => ListAccounts_loop accountsDir entries []
  end.

Definition GetAccountDir (account : string) : M Store path :=
  match validateAccountName account with
  | Some err => fail err
  | None =>
      let* dir := GetConfigDir in
      let accountDir := filepath_Join dir [AccountsDirName; account] in
      let* _ := os.MkdirAll accountDir in
      ret accountDir
  end.

Definition SaveTokenForAccount (account : string) (token : Token)
  : M Store unit :=
  let* dir := GetAccountDir account in
  let path := filepath_Join dir [TokenFileName] in
  let* f := os.Create path in
  json_Encode f token.

Definition LoadTokenForAccount (account : string) : M Store Token :=
  let* dir := GetAccountDir account in
  let path := filepath_Join dir [TokenFileName] in
  let* f := os.Open path in
  json_Decode f.

Definition LoadSecretsForAccount (account : string) : M Store string :=
  let* dir := GetAccountDir account in
  let perAccount := filepath_Join dir [SecretsFileName] in
  let* r := try (os.ReadFile perAccount) in
  match r with
  | Ok data => ret data
  | Err _ => LoadSecrets
  end.

Definition SaveSecretsForAccount (account : string) (srcPath : path)
  : M Store unit :=
  let* content := os.ReadFile srcPath in
  let* dir := GetAccountDir account in
  os.WriteFile (filepath_Join dir [SecretsFileName]) content.

End store.

(** Where the configuration directory is, from the environment alone:
    the value [GetConfigDir] returns when the directory can be made. *)
Definition config_root (s : Store) : option path :=
  match env_config_dir s with
  | Some envDir => Some envDir
  | None =>
      match BaseDir s with
      | Some b => Some (filepath_Join b [ConfigDirName])
      | None =>
          match home s with
          | Some h => Some (filepath_Join h [ConfigDirName])
          | None => None
          end
      end
  end.

(** The paths of the layout, under the configuration directory [d]. *)
Definition accounts_dir (d : path) : path := d ++ [AccountsDirName].
Definition account_dir (d : path) (account : string) : path :=
  filepath_Join d [AccountsDirName; account].

(** A valid token file, as [LoadToken] and [LoadTokenForAccount] take
    it: a regular file that the JSON decoder reads as a token. *)
Definition valid_token_file `{JSON} (t : FS) (p : path) : Prop :=
  exists b token, t !! p = Some (File b) /\ json_Unmarshal b = Ok token.

(** The test of both loops on an entry [e] of [accountsDir]: a
    directory in which [os.Stat] finds [token.json]. *)
Definition has_token (t : FS) (accountsDir : path) (e : os.DirEntry) : bool :=
  os.IsDir e
  && bool_decide (is_Some (fs_lookup t
       (filepath_Join accountsDir [os.Name e; TokenFileName]))).

(** What [IsMultiAccount] and [ListAccounts] return, as functions of the
    files, once [GetConfigDir] has returned [d]. *)
Definition is_multi_account (t : FS) (d : path) : result bool :=
  match fs_lookup t (accounts_dir d) with
  | Some Dir =>
      Ok (existsb (has_token t (accounts_dir d)) (os.read_dir t (accounts_dir d)))
  | Some (File _) => Err (PathError "readdirent" (accounts_dir d) ENOTDIR)
  | None => Ok false
  end.

Definition list_accounts (t : FS) (d : path) : result (list string) :=
  match fs_lookup t (accounts_dir d) with
  | Some Dir =>
      Ok (os.Name <$> List.filter (has_token t (accounts_dir d))
                                  (os.read_dir t (accounts_dir d)))
  | Some (File _) => Err (PathError "readdirent" (accounts_dir d) ENOTDIR)
  | None => Ok []
  end.

(** *** The login flow (login.go) *)

(** The OAuth libraries ([golang.org/x/oauth2] and its [google]
    package) and the encoder of the state token. *)
Class OAuth := {
  Config : Type;
  ConfigFromJSON : string -> list string -> result Config;
  withRedirectURL : string -> Config -> Config;
  AuthCodeURL : Config -> string -> string;
  Exchange : Config -> string -> result Token;
  base64_URLEncoding : string -> string
}.

(** What reaches the [select] of [Login] first: a request on the
    callback route, with its [state] and [code] query parameters; an
    error with which [ListenAndServe] returned; or the end of the
    caller's context, with [ctx.Err()]. *)
Inductive login_event :=
| Callback (state code : string)
| ServeError (err : error)
| ContextDone (err : error).

(** The local HTTP server of the callback route. *)
Inductive listener_state := NotStarted | Listening | Closed.

(** The state [Login] runs in: the credential store, the listener and
    the lines printed (without the rendering of error values). *)
Record LoginState := mkLoginState {
  store : Store;
  listener : listener_state;
  stdout : list string
}.

Definition set_store (t : Store) (s : LoginState) : LoginState :=
  mkLoginState t (listener s) (stdout s).
Definition set_listener (l : listener_state) (s : LoginState) : LoginState :=
  mkLoginState (store s) l (stdout s).
Definition Println (line : string) : M LoginState unit :=
  modify (fun s => mkLoginState (store s) (listener s) (stdout s ++ [line])).

Definition on_store {A} (m : M Store A) : M LoginState A :=
  zoom store set_store m.

Section login.
Context `{JSON} `{OAuth}.

Definition generateStateToken (rand32 : result string) : result string :=
  match rand32 with
  | Err err => Err err
  | Ok b => Ok (base64_URLEncoding b)
  end.

(** The handler of ["/callback"]: what it sends, and on which channel
    ([Ok] for [codeChan], [Err] for [errChan]). *)
Definition callback_handler (stateToken state code : string) : result string :=
  if decide (state <> stateToken) then Err (ErrorString "state token mismatch")
  else if decide (code = "") then Err (ErrorString "code not found in URL")
  else Ok code.

(** [go server.ListenAndServe()]: the server listens, unless the event
    says that it returned with an error. *)
Definition ListenAndServe (event : login_event) : M LoginState unit :=
  modify (set_listener match event with
                       | ServeError _ => Closed
                       | _ => Listening
                       end).

Definition Shutdown : M LoginState unit := modify (set_listener Closed).

(** The [select] statement. *)
Definition select (stateToken : string) (event : login_event)
  : M LoginState string :=
  match event with
  | Callback state code =>
      match callback_handler stateToken state code with
      | Ok authCode => ret authCode
      | Err err => fail (Wrapf "server error: %w" [] err)
      end
  | ServeError err => fail (Wrapf "server error: %w" [] err)
  | ContextDone err => fail err
  end.

Definition Login (rand32 : result string) (event : login_event)
  (clientSecrets : string) (scopes : list string) : M LoginState unit :=
  match ConfigFromJSON clientSecrets scopes with
  | Err err =>
      fail (Wrapf "unable to parse client secret file to config: %w" [] err)
  | Ok config =>
      let config := withRedirectURL "http://localhost:8085/callback" config in
      match generateStateToken rand32 with
      | Err err => fail (Wrapf "failed to generate state token: %w" [] err)
      | Ok stateToken =>
          let* _ := ListenAndServe event in
          let authURL := AuthCodeURL config stateToken in
          let* _ := Println
            ("Go to the following link in your browser then type the authorization code: "
             +:+ String "010" authURL) in
          let* _ := Println "Waiting for authentication..." in
          let* authCode := select stateToken event in
          match Exchange config authCode with
          | Err err =>
              fail (Wrapf "unable to retrieve token from web: %w" [] err)
          | Ok token =>
              let* r := try (on_store (SaveToken token)) in
              match r with
              | Err err => fail (Wrapf "failed to save token: %w" [] err)
              | Ok _ =>
                  let* _ := Println "Authentication successful! Token saved." in
                  let* _ := Shutdown in
                  ret tt
              end
          end
      end
  end.

End login.

End auth.

(** ** Package registry *)

Module registry.

(** The nine Google services of a [ServiceSet], in the order in which
    [NewServiceSet] creates them. *)
Inductive service :=
| Drive | Gmail | Calendar | Sheets | People | Docs | Tasks | Activity | Keep.

Definition service_name (k : service) : string :=
  match k with
  | Drive => "drive" | Gmail => "gmail" | Calendar => "calendar"
  | Sheets => "sheets" | People => "people" | Docs => "docs"
  | Tasks => "tasks" | Activity => "activity" | Keep => "keep"
  end.

(** A Go pointer to a [ServiceSet]: [nil] or the address of one. *)
Definition loc := positive.
Inductive ptr := nil | Ref (l : loc).

Global Instance ptr_eq_dec : EqDecision ptr.
Proof. solve_decision. Defined.

Section registry.

(** What lies outside this package: the state of the outside world
    besides the credential store (network, Google's servers), client
    options, the service wrappers, [auth.GetClientOptionsForAccount] and
    the constructor [New] of each service package.  Both may read and
    write the credential store and the outside world. *)
Context {Ext ClientOption Svc : Type}.
Variable GetClientOptionsForAccount :
  string -> list string -> M (Store * Ext) (list ClientOption).
Variable New : service -> list ClientOption -> M (Store * Ext) Svc.

Record ServiceSet := mkServiceSet {
  ss_Drive : Svc; ss_Gmail : Svc; ss_Calendar : Svc; ss_Sheets : Svc;
  ss_People : Svc; ss_Docs : Svc; ss_Tasks : Svc; ss_Activity : Svc;
  ss_Keep : Svc
}.

(** The process and its surroundings: the credential store and the
    outside world, the [ServiceSet] values allocated so far, and a
    counter of the calls of [NewServiceSet]. *)
Record World := mkWorld {
  outside : Store * Ext;
  heap : gmap loc ServiceSet;
  constructions : nat
}.

Definition set_outside (o : Store * Ext) (w : World) : World :=
  mkWorld o (heap w) (constructions w).

Definition on_outside {A} (m : M (Store * Ext) A) : M World A :=
  zoom outside set_outside m.

Definition on_store {A} (m : M Store A) : M World A :=
  on_outside (zoom fst (fun t o => (t, snd o)) m).

(** [&ServiceSet{...}]: a new address holding the value. *)
Definition alloc (v : ServiceSet) : M World ptr := fun w =>
  let l := fresh (dom (heap w)) in
  (Ok (Ref l), mkWorld (outside w) (<[l := v]> (heap w)) (constructions w)).

Definition count_construction : M World unit :=
  modify (fun w => mkWorld (outside w) (heap w) (S (constructions w))).

(** One constructor call of [NewServiceSet], its error wrapped under
    the name of the service. *)
Definition new_service (k : service) (opts : list ClientOption) : M World Svc :=
  let* r := try (on_outside (New k opts)) in
  match r with
  | Ok svc => ret svc
  | Err err => fail (Wrapf (service_name k +:+ ": %w") [] err)
  end.

Definition NewServiceSet (opts : list ClientOption) : M World ptr :=
  let* _ := count_construction in
  let* driveSvc := new_service Drive opts in
  let* gmailSvc := new_service Gmail opts in
  let* calendarSvc := new_service Calendar opts in
  let* sheetsSvc := new_service Sheets opts in
  let* peopleSvc := new_service People opts in
  let* docsSvc := new_service Docs opts in
  let* tasksSvc := new_service Tasks opts in
  let* activitySvc := new_service Activity opts in
  let* keepSvc := new_service Keep opts in
  alloc (mkServiceSet driveSvc gmailSvc calendarSvc sheetsSvc peopleSvc
                      docsSvc tasksSvc activitySvc keepSvc).

(** [Registry].  The mutex is not modelled: calls are sequential here,
    [Resolve] takes it after the account is chosen and releases it on
    every return.  The nil map of a legacy registry is the empty map; it
    is never written. *)
Record Registry := mkRegistry {
  accounts : gmap string ptr;
  scopes : list string;
  legacy : ptr;
  multiAccount : bool
}.

Definition NewLegacyRegistry (ss : ptr) : Registry :=
  {| accounts := ∅; scopes := []; legacy := ss; multiAccount := false |}.

Definition NewMultiAccountRegistry (scopes : list string) : Registry :=
  {| accounts := ∅; scopes := scopes; legacy := nil; multiAccount := true |}.

Definition IsMultiAccount (r : Registry) : bool := multiAccount r.

Definition set_account (account : string) (ss : ptr) (r : Registry) : Registry :=
  mkRegistry (<[account := ss]> (accounts r)) (scopes r) (legacy r)
             (multiAccount r).

Definition no_accounts_message : string :=
  "no accounts configured; run: go-google-mcp auth login --account <email> --secrets <path>".

Definition multiple_accounts_message (accounts : list string) : string :=
  "multiple accounts available, please specify 'account' parameter; available: "
  +:+ fmt_v accounts.

(** The state of a call: the registry and the world. *)
Definition RW : Type := Registry * World.

Definition on_world {A} (m : M World A) : M RW A :=
  zoom snd (fun w rw => (fst rw, w)) m.

(** The world once [auth.ListAccounts] has run in it. *)
Definition after_listing (w : World) : World :=
  set_outside (snd (auth.ListAccounts (fst (outside w))), snd (outside w)) w.

(** The first part of [Resolve] in multi-account mode: the account the
    call is about. *)
Definition select_account (account : string) : M RW string :=
  if decide (account = "") then
    let* r := try (on_world (on_store auth.ListAccounts)) in
    match r with
    | Err err => fail (Wrapf "failed to list accounts: %w" [] err)
    | Ok [] => fail (ErrorString no_accounts_message)
    | Ok [a] => ret a
    | Ok accounts => fail (ErrorString (multiple_accounts_message accounts))
    end
  else ret account.

Definition Resolve (account : string) : M RW ptr :=
  let* r := gets fst in
  if negb (multiAccount r) then ret (legacy r)
  else
    let* account := select_account account in
    match accounts r !! account with
    | Some ss => ret ss
    | None =>
        let* o := try (on_world (on_outside
                    (GetClientOptionsForAccount account (scopes r)))) in
        match o with
        | Err err => fail (Wrapf "auth for account %q: %w" [account] err)
        | Ok opts =>
            let* n := try (on_world (NewServiceSet opts)) in
            match n with
            | Err err =>
                fail (Wrapf "services for account %q: %w" [account] err)
            | Ok ss =>
                let* _ := modify (fun rw : RW =>
                            (set_account account ss (fst rw), snd rw)) in
                ret ss
            end
        end
    end.

(** A sequence of [Resolve] calls, one after the other; the outcomes are
    dropped. *)
Fixpoint resolve_all (calls : list string) (rw : RW) : RW :=
  match calls with
  | [] => rw
  | account :: calls => resolve_all calls (snd (Resolve account rw))
  end.

End registry.

End registry.

(** ** Package main: the [auth] command *)

Module main.

(** *** Package flag, for a flag set of string flags *)

Inductive arg_kind :=
| NonFlag                                  (* parsing stops before it *)
| Terminator                               (* "--": parsing stops after it *)
| BadSyntax
| IsFlag (name : string) (value : option string).

(** [name] cut at its first ['=']. *)
Fixpoint cut_value (name : string) : string * option string :=
  match name with
  | EmptyString => ("", None)
  | String c t =>
      if Ascii.eqb c "=" then ("", Some t)
      else let '(n, v) := cut_value t in (String c n, v)
  end.

(** The first steps of [FlagSet.parseOne] on the argument [s]. *)
Definition classify (s : string) : arg_kind :=
  match s with
  | String "-" (String c t as s1) =>
      if Ascii.eqb c "-" && String.eqb t "" then Terminator
      else
        match (if Ascii.eqb c "-" then t else s1) with
        | EmptyString => BadSyntax
        | String c0 _ as name =>
            if Ascii.eqb c0 "-" || Ascii.eqb c0 "=" then BadSyntax
            else let '(n, v) := cut_value name in IsFlag n v
        end
  | _ => NonFlag
  end.

Inductive parse_error :=
| ErrHelp
| FlagError (msg : string).

(** [FlagSet.Parse] over the defined flags [formal], all of them string
    flags: the values set, or the error. *)
Fixpoint Parse (formal : list string) (args : list string)
  (values : gmap string string) : parse_error + gmap string string :=
  match args with
  | [] => inr values
  | s :: rest =>
      match classify s with
      | NonFlag | Terminator => inr values
      | BadSyntax => inl (FlagError ("bad flag syntax: " +:+ s))
      | IsFlag name value =>
          if bool_decide (name ∈ formal) then
            match value, rest with
            | Some v, _ => Parse formal rest (<[name := v]> values)
            | None, v :: rest' => Parse formal rest' (<[name := v]> values)
            | None, [] => inl (FlagError ("flag needs an argument: -" +:+ name))
            end
          else if String.eqb name "help" || String.eqb name "h" then inl ErrHelp
          else inl (FlagError ("flag provided but not defined: -" +:+ name))
      end
  end.

(** *** handleAuthCommand *)

(** How the command ends: [os.Exit] with a code, or a plain return. *)
Inductive outcome :=
| Exit (code : nat)
| Return.

(** The flags that [loginCmd] defines. *)
Definition login_flags : list string := ["secrets"].

Definition login_scopes : list string :=
  [ "https://www.googleapis.com/auth/drive";
    "https://www.googleapis.com/auth/gmail.readonly";
    "https://www.googleapis.com/auth/gmail.send";
    "https://www.googleapis.com/auth/gmail.modify";
    "https://www.googleapis.com/auth/calendar";
    "https://www.googleapis.com/auth/spreadsheets";
    "https://www.googleapis.com/auth/contacts";
    "https://www.googleapis.com/auth/documents";
    "https://www.googleapis.com/auth/tasks" ].

Section command.
Context `{auth.JSON} `{auth.OAuth}.

(** [abs] is how the system resolves a path given on the command line;
    [rand32] and [event] are as for [auth.Login]. *)
Variable abs : string -> path.
Variable rand32 : result string.
Variable event : auth.login_event.

Definition exit (code : nat) (line : string) (s : auth.LoginState)
  : outcome * auth.LoginState :=
  (Exit code, snd (auth.Println line s)).

Definition handleAuthCommand (Args : list string) (s : auth.LoginState)
  : outcome * auth.LoginState :=
  match Args with
  | _ :: _ :: sub :: rest =>
      if String.eqb sub "login" then
        match Parse login_flags rest ∅ with
        | inl ErrHelp => exit 0 "Usage of login:" s
        | inl (FlagError msg) => exit 2 msg s
        | inr values =>
            let secretsPath := default "" (values !! "secrets") in
            if String.eqb secretsPath "" then
              exit 1 "Error: --secrets flag is required" s
            else
              match auth.on_store (os.ReadFile (abs secretsPath)) s with
              | (Err _, s) => exit 1 "Error reading secrets file" s
              | (Ok secrets, s) =>
                  let s := snd (auth.Println "Starting OAuth 2.0 flow..." s) in
                  match auth.Login rand32 event secrets login_scopes s with
                  | (Err _, s) => exit 1 "Login failed" s
                  | (Ok _, s) =>
                      let s :=
                        match auth.on_store (auth.SaveSecrets (abs secretsPath)) s with
                        | (Err _, s) =>
                            snd (auth.Println
                              "Warning: Failed to save secrets file for future use" s)
                        | (Ok _, s) => s
                        end in
                      (Return,
                       snd (auth.Println
                         "Setup complete! You can now run 'gogo-mcp' without arguments." s))
                  end
              end
        end
      else exit 1 ("Unknown auth command: " +:+ sub) s
  | _ => exit 1 "Usage: gogo-mcp auth login --secrets <path>" s
  end.

End command.

End main.

(** ** A small world to run the code in *)

(** ** What the registry's map holds *)

(** The cache of a registry is sound: every entry is the address of an
    allocated [ServiceSet], no two accounts share one, and there are no
    more entries than [NewServiceSet] has run since the counter stood at
    [c0]. *)
Definition cache_sound {Ext Svc : Type} (c0 : nat)
    (rw : @registry.RW Ext Svc) : Prop :=
  (forall a p, registry.accounts (fst rw) !! a = Some p ->
     exists l, p = registry.Ref l /\ is_Some (registry.heap (snd rw) !! l))
  /\ (forall a b p, registry.accounts (fst rw) !! a = Some p ->
        registry.accounts (fst rw) !! b = Some p -> a = b)
  /\ size (registry.accounts (fst rw)) + c0 <= registry.constructions (snd rw).

(** ** [path/filepath] in full *)

(** [filepath.Join] on arbitrary elements, to check that the elements the
    credential store passes to it are within the reach of
    [filepath_Join]. *)
Module filepath.

(** [os.IsPathSeparator]: the slash, and on Windows the backslash too. *)
Definition IsPathSeparator (windows : bool) (c : ascii) : bool :=
  Ascii.eqb c "/" || (Ascii.eqb c "\" && windows).

(** The components of an element, empty ones included. *)
Fixpoint split (windows : bool) (s : string) : list string :=
  match s with
  | EmptyString => [""]
  | String c rest =>
      if IsPathSeparator windows c then "" :: split windows rest
      else match split windows rest with
           | x :: xs => String c x :: xs
           | [] => [String c ""]
           end
  end.

(** One step of [filepath.Clean] on a rooted path: an empty component
    and ["."] are dropped, [".."] removes the component before it (and
    is dropped at the root), anything else is appended. *)
Definition clean_step (p : path) (c : string) : path :=
  if decide (c = "" \/ c = ".") then p
  else if decide (c = "..") then removelast p
  else p ++ [c].

(** [filepath.Join dir elem...] with [dir] rooted and clean: the
    elements are joined with separators and the result is cleaned. *)
Definition Join (windows : bool) (dir : path) (elems : list string) : path :=
  fold_left clean_step (flat_map (split windows) elems) dir.

End filepath.

(** The store as a process sees it that runs with
    [GO_GOOGLE_MCP_CONFIG_DIR] set to [d]. *)
Definition with_config_dir (d : path) (s : Store) : Store :=
  mkStore (fs s) (Some d) (BaseDir s) (home s) (trace s).

(** ** Client options ([pkg/auth], auth.go) *)

(** From [s] to [s'] no file was written, changed or removed: the
    environment is the same, and the nodes are the same but for
    directories made on the way to the configuration directory. *)
Definition made_config_dir_at_most (s s' : Store) : Prop :=
  same_env s s'
  /\ forall q, fs s' !! q = fs s !! q
       \/ (fs s !! q = None /\ fs s' !! q = Some Dir
           /\ exists d, auth.config_root s = Some d /\ q `prefix_of` d).

Module client.
Import auth.

(** Some proper ancestor of [p] is a regular file. *)
Definition below_file (t : FS) (p : path) : bool :=
  existsb (fun n => match fs_lookup t (take n p) with
                    | Some (File _) => true
                    | _ => false
                    end)
          (seq 0 (length p)).

(** [os.Stat] with the error of a missing path told apart: below a
    regular file it is [ENOTDIR], which [os.IsNotExist] does not
    accept. *)
Definition Stat (p : path) : M Store node := fun s =>
  let s := log (OpStat p) s in
  match fs_lookup (fs s) p with
  | Some n => (Ok n, s)
  | None =>
      (Err (PathError "stat" p
              (if below_file (fs s) p then ENOTDIR else ENOENT)), s)
  end.

Section options.
Context `{JSON} `{OAuth} {Credentials : Type}.

(** [abs] is how the system resolves the path given with [-creds];
    [FindDefaultCredentials] is [google.FindDefaultCredentials], which
    looks at the environment and at files. *)
Variable abs : string -> path.
Variable FindDefaultCredentials : list string -> Store -> result Credentials.

(** [option.ClientOption], as far as this code builds them. *)
Inductive ClientOption :=
| WithCredentialsFile (filename : string)
| WithTokenSource (config : Config) (token : Token)
| WithCredentials (creds : Credentials)
| WithScopes (scopes : list string).

Definition no_default_credentials : string :=
  "unable to find default credentials: %w. "
  +:+ String "010"
        "Run 'go-google-mcp auth login' or 'gcloud auth application-default login'".

(** Step 3 of [GetClientOptions]: Application Default Credentials. *)
Definition default_credentials (scopes : list string)
  : M Store (list ClientOption) := fun s =>
  match FindDefaultCredentials scopes s with
  | Err err => (Err (Wrapf no_default_credentials [] err), s)
  | Ok creds => (Ok [WithCredentials creds; WithScopes scopes], s)
  end.

Definition GetClientOptions (credentialsFile : string) (scopes : list string)
  : M Store (list ClientOption) :=
  if decide (credentialsFile <> "") then
    let* r := try (Stat (abs credentialsFile)) in
    match r with
    | Err err =>
        if IsNotExist err then
          fail (Errorf "credentials file not found: %s" [credentialsFile])
        else ret [WithCredentialsFile credentialsFile]
    | Ok _ => ret [WithCredentialsFile credentialsFile]
    end
  else
    let* t := try LoadToken in
    match t with
    | Ok token =>
        let* sec := try LoadSecrets in
        match sec with
        | Ok secrets =>
            match ConfigFromJSON secrets scopes with
            | Ok config => ret [WithTokenSource config token]
            | Err _ => default_credentials scopes
            end
        | Err _ => default_credentials scopes
        end
    | Err _ => default_credentials scopes
    end.

End options.

End client.

(** ** The service wrappers *)

(** A service wrapper talks to Google's servers through the generated
    API client.  Here the server is a state [Srv] and each API call an
    oracle on it; the wrapper runs in the server's state together with
    the list of the requests sent so far, oldest first. *)
Record Api (Srv Request : Type) := mkApi {
  server : Srv;
  sent : list Request
}.
Arguments mkApi {Srv Request}.
Arguments server {Srv Request}.
Arguments sent {Srv Request}.

(** [call.Do()]: the request goes out, the server answers. *)
Definition send {Srv Request A} (r : Request) (answer : M Srv A)
  : M (Api Srv Request) A := fun st =>
  let '(a, srv) := answer (server st) in
  (a, mkApi srv (sent st ++ [r])).

(** *** Keep (package keep) *)

Module keep.

Section keep.
(** [keep.ListItem], [keep.Attachment], [keep.Permission] and
    [keep.ListNotesResponse] are passed on as they are. *)
Context {Srv ListItem Attachment Permission ListNotesResponse : Type}.

(** [keep.Section]: the text of [Text], or the items of [List]. *)
Record SectionT := mkSection {
  List : option (list ListItem);
  Text : option string
}.

(** [keep.Note]. *)
Record Note := mkNote {
  Name : string;
  Title : string;
  Body : option SectionT;
  CreateTime : string;
  UpdateTime : string;
  TrashTime : string;
  Trashed : bool;
  Attachments : list Attachment;
  Permissions : list Permission
}.

(** [&keep.Note{Title: title, Body: body}]. *)
Definition new_note (title : string) (body : option SectionT) : Note :=
  mkNote "" title body "" "" "" false [] [].

Inductive request :=
| NotesList (pageSize : option Z) (pageToken filter : option string)
| NotesCreate (note : Note)
| NotesGet (name : string)
| NotesDelete (name : string).

Variable Notes_List :
  option Z -> option string -> option string -> M Srv ListNotesResponse.
Variable Notes_Create : Note -> M Srv Note.
Variable Notes_Get : string -> M Srv Note.
Variable Notes_Delete : string -> M Srv unit.

Local Abbreviation State := (Api Srv request).

Record ListNotesOptions := {
  PageSize : Z;
  PageToken : string;
  Filter : string
}.

Definition ListNotes (opts : ListNotesOptions) : M State ListNotesResponse :=
  let pageSize := if (0 <? PageSize opts)%Z then Some (PageSize opts) else None in
  let pageToken :=
    if decide (PageToken opts <> "") then Some (PageToken opts) else None in
  let filter := if decide (Filter opts <> "") then Some (Filter opts) else None in
  send (NotesList pageSize pageToken filter)
       (Notes_List pageSize pageToken filter).

Definition CreateNote (title bodyText : string) (listItems : list ListItem)
  : M State Note :=
  let body :=
    if decide (bodyText <> "") then Some (mkSection None (Some bodyText))
    else if (0 <? length listItems)%nat then Some (mkSection (Some listItems) None)
    else None in
  send (NotesCreate (new_note title body)) (Notes_Create (new_note title body)).

(** The resource name of a note given by name or by id. *)
Definition resource_name (name : string) : string :=
  if (String.length name <? 6)%nat || negb (String.eqb (substring 0 6 name) "notes/")
  then "notes/" +:+ name
  else name.

Definition GetNote (name : string) : M State Note :=
  if decide (name = "") then fail (ErrorString "note name is required")
  else
    let name := resource_name name in
    send (NotesGet name) (Notes_Get name).

Definition DeleteNote (name : string) : M State unit :=
  if decide (name = "") then fail (ErrorString "note name is required")
  else
    let name := resource_name name in
    send (NotesDelete name) (Notes_Delete name).

Record UpdateNoteInput := {
  in_Title : string;
  in_BodyText : string;
  in_ListItems : list ListItem
}.

(** The title and the body of the note that replaces [existing]. *)
Definition merged (existing : Note) (input : UpdateNoteInput) : Note :=
  let title := if decide (in_Title input <> "") then in_Title input
               else Title existing in
  let body :=
    if decide (in_BodyText input <> "") then
      Some (mkSection None (Some (in_BodyText input)))
    else if (0 <? length (in_ListItems input))%nat then
      Some (mkSection (Some (in_ListItems input)) None)
    else Body existing in
  new_note title body.

Definition UpdateNote (name : string) (input : UpdateNoteInput) : M State Note :=
  let* r := try (GetNote name) in
  match r with
  | Err err => fail (Wrapf "get note: %w" [] err)
  | Ok existing =>
      let newNote := merged existing input in
      let* c := try (send (NotesCreate newNote) (Notes_Create newNote)) in
      match c with
      | Err err => fail (Wrapf "create updated note: %w" [] err)
      | Ok created =>
          let* d := try (DeleteNote name) in
          match d with
          | Err err =>
              fail (Wrapf "delete old note (new note %s was created): %w"
                          [Name created] err)
          | Ok _ => ret created
          end
      end
  end.

End keep.

End keep.

(** *** Tasks (package tasks) *)

Module tasks.

Section tasks.
(** [tasksapi.TaskList] is passed on as it is; [TaskRest] stands for
    the fields of [tasksapi.Task] that this package never names, and
    [no_rest] for their zero values. *)
Context {Srv TaskList TaskRest : Type}.
Variable no_rest : TaskRest.

Record Task := mkTask {
  Id : string;
  Title : string;
  Notes : string;
  Due : string;
  Status : string;
  Rest : TaskRest
}.

Inductive request :=
| TasklistsList (maxResults : Z)
| TasksList (tasklist : string) (showCompleted : bool) (maxResults : Z)
| TasksInsert (tasklist : string) (task : Task)
| TasksGet (tasklist task : string)
| TasksUpdate (tasklist task : string) (body : Task)
| TasksDelete (tasklist task : string).

Variable Tasklists_List : Z -> M Srv (list TaskList).
Variable Tasks_List : string -> bool -> Z -> M Srv (list Task).
Variable Tasks_Insert : string -> Task -> M Srv Task.
Variable Tasks_Get : string -> string -> M Srv Task.
Variable Tasks_Update : string -> string -> Task -> M Srv Task.
Variable Tasks_Delete : string -> string -> M Srv unit.

Local Abbreviation State := (Api Srv request).

(** [if err != nil { return nil, fmt.Errorf(format, err) }]. *)
Definition wrap {A} (format : string) (m : M State A) : M State A :=
  let* r := try m in
  match r with
  | Err err => fail (Wrapf format [] err)
  | Ok a => ret a
  end.

Definition ListTaskLists (maxResults : Z) : M State (list TaskList) :=
  let maxResults := if (maxResults <=? 0)%Z then 100%Z else maxResults in
  wrap "unable to list task lists: %w"
       (send (TasklistsList maxResults) (Tasklists_List maxResults)).

Record ListTasksOptions := {
  ShowCompleted : bool;
  MaxResults : Z
}.

Definition ListTasks (taskListID : string) (opts : ListTasksOptions)
  : M State (list Task) :=
  if decide (taskListID = "") then fail (ErrorString "task_list_id is required")
  else
    let maxResults := if (MaxResults opts <=? 0)%Z then 20%Z else MaxResults opts in
    let maxResults := if (100 <? maxResults)%Z then 100%Z else maxResults in
    wrap "unable to list tasks: %w"
         (send (TasksList taskListID (ShowCompleted opts) maxResults)
               (Tasks_List taskListID (ShowCompleted opts) maxResults)).

Definition InsertTask (taskListID title notes due : string) : M State Task :=
  if decide (taskListID = "") then fail (ErrorString "task_list_id is required")
  else if decide (title = "") then fail (ErrorString "title is required")
  else
    let task := mkTask "" title "" "" "" no_rest in
    let task := if decide (notes <> "") then
                  mkTask (Id task) (Title task) notes (Due task) (Status task)
                         (Rest task)
                else task in
    let task := if decide (due <> "") then
                  mkTask (Id task) (Title task) (Notes task) due (Status task)
                         (Rest task)
                else task in
    wrap "unable to insert task: %w"
         (send (TasksInsert taskListID task) (Tasks_Insert taskListID task)).

(** [UpdateTaskInput]: [None] is the nil pointer. *)
Record UpdateTaskInput := {
  in_Title : option string;
  in_Notes : option string;
  in_Due : option string;
  in_Status : option string
}.

Definition UpdateTask (taskListID taskID : string) (input : UpdateTaskInput)
  : M State Task :=
  if decide (taskListID = "" \/ taskID = "") then
    fail (ErrorString "task_list_id and task_id are required")
  else
    let* existing :=
      wrap "unable to get task: %w"
           (send (TasksGet taskListID taskID) (Tasks_Get taskListID taskID)) in
    let existing := match in_Title input with
                    | Some v => mkTask (Id existing) v (Notes existing)
                                       (Due existing) (Status existing)
                                       (Rest existing)
                    | None => existing
                    end in
    let existing := match in_Notes input with
                    | Some v => mkTask (Id existing) (Title existing) v
                                       (Due existing) (Status existing)
                                       (Rest existing)
                    | None => existing
                    end in
    let existing := match in_Due input with
                    | Some v => mkTask (Id existing) (Title existing)
                                       (Notes existing) v (Status existing)
                                       (Rest existing)
                    | None => existing
                    end in
    let existing := match in_Status input with
                    | Some v => mkTask (Id existing) (Title existing)
                                       (Notes existing) (Due existing) v
                                       (Rest existing)
                    | None => existing
                    end in
    wrap "unable to update task: %w"
         (send (TasksUpdate taskListID taskID existing)
               (Tasks_Update taskListID taskID existing)).

Definition DeleteTask (taskListID taskID : string) : M State unit :=
  if decide (taskListID = "" \/ taskID = "") then
    fail (ErrorString "task_list_id and task_id are required")
  else send (TasksDelete taskListID taskID) (Tasks_Delete taskListID taskID).

End tasks.

End tasks.

(** *** Drive (package drive), the search functions *)

Module drive.

(** [strings.ReplaceAll s old new] for an [old] of one byte. *)
Fixpoint ReplaceAll (s : string) (old : ascii) (new : string) : string :=
  match s with
  | EmptyString => ""
  | String c rest =>
      (if Ascii.eqb c old then new else String c "") +:+ ReplaceAll rest old new
  end.

(** The single quote and the backslash. *)
Definition quote : ascii := "'"%char.
Definition backslash : ascii := "\"%char.

Definition findFilesQuery (searchTerm : string) : string :=
  let escaped := ReplaceAll searchTerm backslash (String backslash (String backslash "")) in
  let escaped := ReplaceAll escaped quote (String backslash (String quote "")) in
  "fullText contains '" +:+ escaped +:+ "' and trashed = false".

(** How the Drive query language reads a string literal, from after
    its opening quote: a backslash makes the next byte part of the
    text, a quote ends the literal.  The text and what follows the
    closing quote, or [None] when the literal does not end. *)
Fixpoint read_literal (s : string) : option (string * string) :=
  match s with
  | EmptyString => None
  | String c rest =>
      if Ascii.eqb c quote then Some ("", rest)
      else if Ascii.eqb c backslash then
        match rest with
        | EmptyString => None
        | String c' rest' =>
            match read_literal rest' with
            | Some (text, after) => Some (String c' text, after)
            | None => None
            end
        end
      else
        match read_literal rest with
        | Some (text, after) => Some (String c text, after)
        | None => None
        end
  end.

Section drive.
Context {Srv File : Type}.

Inductive request :=
| FilesList (q : string) (pageSize : Z).

Variable Files_List : string -> Z -> M Srv (list File).

Local Abbreviation State := (Api Srv request).

Definition SearchFiles (query : string) (limit : Z) : M State (list File) :=
  let limit := if (limit <=? 0)%Z then 10%Z else limit in
  let query :=
    if decide (query = "") then "trashed = false"
    else if negb (Contains query "trashed") then
      "(" +:+ query +:+ ") and trashed = false"
    else query in
  let* r := try (send (FilesList query limit) (Files_List query limit)) in
  match r with
  | Err err => fail (Wrapf "unable to search files: %w" [] err)
  | Ok files => ret files
  end.

Definition FindFiles (searchTerm : string) (limit : Z) : M State (list File) :=
  if decide (searchTerm = "") then SearchFiles "" limit
  else SearchFiles (findFilesQuery searchTerm) limit.

End drive.

(** The query that the [drive_search] tool of [main] builds from its
    arguments. *)
Definition drive_search_query
    (rawQuery nameContains contentContains mimeType : string) : string :=
  let queryParts := [] in
  let queryParts :=
    if decide (rawQuery <> "") then queryParts ++ ["(" +:+ rawQuery +:+ ")"]
    else queryParts in
  let queryParts :=
    if decide (nameContains <> "") then
      queryParts ++ ["name contains '" +:+ nameContains +:+ "'"]
    else queryParts in
  let queryParts :=
    if decide (contentContains <> "") then
      queryParts ++ ["fullText contains '" +:+ contentContains +:+ "'"]
    else queryParts in
  let queryParts :=
    if decide (mimeType <> "") then
      queryParts ++ ["mimeType = '" +:+ mimeType +:+ "'"]
    else queryParts in
  Join queryParts " and ".

End drive.

(** *** Gmail (package gmail), the outgoing messages *)

Module gmail.

(** Carriage return and line feed. *)
Definition CR : ascii := "013"%char.
Definition LF : ascii := "010"%char.
Definition CRLF : string := String CR (String LF "").

(** [fmt.Sprintf("To: %s\r\nSubject: %s\r\n\r\n%s", to, subject, body)]. *)
Definition message (to subject body : string) : string :=
  "To: " +:+ to +:+ CRLF +:+ "Subject: " +:+ subject +:+ CRLF +:+ CRLF +:+ body.

(** How a mail message is read: header lines, each ended by CR LF, up
    to the first empty line; the body is what follows it.  [cur] is the
    line read so far.  [None] when no empty line comes. *)
Fixpoint read_headers (cur : string) (s : string)
  : option (list string * string) :=
  match s with
  | EmptyString => None
  | String c rest =>
      if Ascii.eqb c CR then
        match rest with
        | EmptyString => None
        | String c' rest' =>
            if Ascii.eqb c' LF then
              if String.eqb cur "" then Some ([], rest')
              else match read_headers "" rest' with
                   | Some (headers, body) => Some (cur :: headers, body)
                   | None => None
                   end
            else read_headers (cur +:+ String c "") rest
        end
      else read_headers (cur +:+ String c "") rest
  end.

Section gmail.
(** [EncodeToString] is [base64.URLEncoding.EncodeToString]. *)
Context {Srv Message Draft : Type}.
Variable EncodeToString : string -> string.

Inductive request :=
| MessagesSend (raw : string)
| DraftsCreate (raw : string).

Variable Messages_Send : string -> M Srv Message.
Variable Drafts_Create : string -> M Srv Draft.

Local Abbreviation State := (Api Srv request).

Definition SendEmail (to subject body : string) : M State Message :=
  let msgStr := message to subject body in
  let raw := EncodeToString msgStr in
  let* r := try (send (MessagesSend raw) (Messages_Send raw)) in
  match r with
  | Err err => fail (Wrapf "unable to send message: %w" [] err)
  | Ok m => ret m
  end.

Definition CreateDraft (to subject body : string) : M State Draft :=
  let msgStr := message to subject body in
  let raw := EncodeToString msgStr in
  let* r := try (send (DraftsCreate raw) (Drafts_Create raw)) in
  match r with
  | Err err => fail (Wrapf "unable to create draft: %w" [] err)
  | Ok d => ret d
  end.

End gmail.

End gmail.

Module example.

Definition token : auth.Token :=
  {| auth.AccessToken := "ya29.access";
     auth.TokenType := "Bearer";
     auth.RefreshToken := "1//refresh";
     auth.Expiry := 1767225600000000000 |}.

(** The double quote. *)
Definition dq : string := String "034" "".

Definition field (name value : string) : string :=
  dq +:+ name +:+ dq +:+ ":" +:+ dq +:+ value +:+ dq.

(** A token as a JSON object, for field values that need no escape. *)
Definition render (t : auth.Token) : string :=
  "{" +:+ field "access_token" (auth.AccessToken t)
  +:+ "," +:+ field "token_type" (auth.TokenType t)
  +:+ "," +:+ field "refresh_token" (auth.RefreshToken t)
  +:+ "," +:+ field "expiry" (pretty (auth.Expiry t)) +:+ "}".

(** An encoder and a decoder that knows the document of [token]. *)
Definition json : auth.JSON :=
  {| auth.json_Marshal t := Ok (render t);
     auth.json_Unmarshal b :=
       if String.eqb b (render token) then Ok token else Err (ExtError 1) |}.

(** An OAuth provider that accepts every configuration and exchanges
    every code for [token]. *)
Definition oauth : auth.OAuth :=
  {| auth.Config := string;
     auth.ConfigFromJSON clientSecrets _ := Ok clientSecrets;
     auth.withRedirectURL _ config := config;
     auth.AuthCodeURL config state := config +:+ "?state=" +:+ state;
     auth.Exchange _ _ := Ok token;
     auth.base64_URLEncoding b := b |}.

Definition cfg : path := ["home"; "user"; ".go-google-mcp"].

(** Nothing on disk yet; the home directory is [/home/user]. *)
Definition fresh_store : Store :=
  mkStore ∅ None None (Some ["home"; "user"]) [].

(** One account, [a@example.com], and the shared secrets. *)
Definition one_account_fs : FS :=
  <[cfg ++ ["accounts"; "a@example.com"; "token.json"] := File (render token)]>
  (<[cfg ++ ["accounts"; "a@example.com"] := Dir]>
  (<[cfg ++ ["accounts"] := Dir]>
  (<[cfg ++ ["client_secrets.json"] := File "{}"]>
  (<[cfg := Dir]>
  (<[["home"; "user"] := Dir]>
  (<[["home"] := Dir]> ∅)))))).

Definition one_account_store : Store :=
  mkStore one_account_fs None None (Some ["home"; "user"]) [].

(** The secrets file given on the command line. *)
Definition login_store : Store :=
  mkStore (<[["tmp"; "secrets.json"] := File "{}"]> (<[["tmp"] := Dir]> ∅))
          None None (Some ["home"; "user"]) [].

Definition login_state : auth.LoginState :=
  auth.mkLoginState login_store auth.NotStarted [].

(** The path of a command-line argument: ["/tmp/secrets.json"]. *)
Definition abs (p : string) : path :=
  if String.eqb p "/tmp/secrets.json" then ["tmp"; "secrets.json"] else [p].

(** The outside of the registry: options are found for every account
    and every service is created; or no credentials can be loaded. *)
Definition GetClientOptionsForAccount
  : string -> list string -> M (Store * unit) (list string) :=
  fun account _ => ret [account].

Definition no_credentials
  : string -> list string -> M (Store * unit) (list string) :=
  fun _ _ => fail (ExtError 2).

Definition New : registry.service -> list string -> M (Store * unit) string :=
  fun k opts => ret (registry.service_name k).

Definition world (s : Store) : @registry.World unit string :=
  registry.mkWorld (s, tt) ∅ 0.

Definition multi : registry.Registry :=
  registry.NewMultiAccountRegistry ["https://www.googleapis.com/auth/drive"].

End example.

(** A Keep server that knows one shopping note under every name and
    files every new note as [notes/new], and a Tasks server that knows
    one task under every id and stores what it is sent. *)
Module example_api.

Definition KeepNote : Type := @keep.Note string unit unit.

Definition Notes_Get (name : string) : M nat KeepNote :=
  ret (keep.mkNote name "Shopping" (Some (keep.mkSection None (Some "milk")))
                   "2026-01-01T00:00:00Z" "2026-01-02T00:00:00Z" "" false [] []).

Definition Notes_Create (note : KeepNote) : M nat KeepNote := fun n =>
  (Ok (keep.mkNote "notes/new" (keep.Title note) (keep.Body note)
                   "2026-02-01T00:00:00Z" "2026-02-01T00:00:00Z" "" false [] []),
   S n).

Definition Notes_Delete (name : string) : M nat unit := ret tt.

Definition keep_state : Api nat (@keep.request string unit unit) := mkApi 0 [].

Definition retitle : @keep.UpdateNoteInput string :=
  {| keep.in_Title := "Groceries"; keep.in_BodyText := ""; keep.in_ListItems := [] |}.

Definition Task : Type := @tasks.Task unit.

Definition Tasks_Get (tasklist task : string) : M nat Task :=
  ret (tasks.mkTask task "Buy milk" "" "2026-02-01T00:00:00Z" "needsAction" tt).

Definition Tasks_Update (tasklist task : string) (body : Task) : M nat Task :=
  fun n => (Ok body, S n).

Definition tasks_state : Api nat (@tasks.request unit) := mkApi 0 [].

Definition complete : tasks.UpdateTaskInput :=
  {| tasks.in_Title := None; tasks.in_Notes := None; tasks.in_Due := None;
     tasks.in_Status := Some "completed" |}.

End example_api.

(** Two instances, with the configuration directories [/srv/a] and
    [/srv/b]; the second has a token. *)
Module example_instances.

Definition dir_a : path := ["srv"; "a"].
Definition dir_b : path := ["srv"; "b"].

Definition store : Store :=
  mkStore (<[dir_b ++ ["token.json"] := File (example.render example.token)]>
           (<[dir_b := Dir]> (<[["srv"] := Dir]> ∅)))
          None None (Some ["home"; "user"]) [].

End example_instances.

(** Configuration directories that are not in order: a regular file
    named [accounts] beside the shared secrets; and an account whose
    [token.json] was created but never written, as [os.Create] leaves it
    when the encoder fails. *)
Module example_faults.



Definition account_fs (tokenFile : node) : FS :=
  <[example.cfg ++ ["accounts"; "a@example.com"; "token.json"] := tokenFile]>
  (<[example.cfg ++ ["accounts"; "a@example.com"] := Dir]>
  (<[example.cfg ++ ["accounts"] := Dir]>
  (<[example.cfg := Dir]>
  (<[["home"; "user"] := Dir]>
  (<[["home"] := Dir]> ∅))))).

Definition empty_token_store : Store :=
  mkStore (account_fs (File "")) None None (Some ["home"; "user"]) [].

End example_faults.

(** * Properties *)

(** ** Strings *)

Lemma prefix_app (p post : string) : String.prefix p (p +:+ post) = true.
Proof.
  induction p as [|c p IH]; simpl.
  - by destruct post.
  - destruct (ascii_dec c c); [exact IH|done].
Qed.

Lemma prefix_inv (p s : string) :
  String.prefix p s = true -> exists post, s = p +:+ post.
Proof.
  revert s. induction p as [|c p IH]; intros s Hp.
  - by exists s.
  - destruct s as [|c' s]; simpl in Hp; [done|].
    destruct (ascii_dec c c') as [->|]; [|done].
    destruct (IH _ Hp) as [post ->]. by exists post.
Qed.

(** [Contains] is the substring relation. *)
Lemma Contains_iff (s substr : string) :
  Contains s substr = true <-> exists pre post, s = pre +:+ substr +:+ post.
Proof.
  split.
  - induction s as [|c s IH]; cbn [Contains]; intros Hc.
    + rewrite orb_false_r in Hc. apply prefix_inv in Hc as [post ->].
      by exists "", post.
    + apply orb_true_iff in Hc as [Hp|Hc].
      * apply prefix_inv in Hp as [post ->]. by exists "", post.
      * destruct (IH Hc) as (pre & post & ->). by exists (String c pre), post.
  - intros (pre & post & ->).
    induction pre as [|c pre IH].
    + change ("" +:+ substr +:+ post) with (substr +:+ post).
      destruct (substr +:+ post) eqn:E; cbn [Contains];
        by rewrite <- E, prefix_app.
    + change (String c pre +:+ substr +:+ post)
        with (String c (pre +:+ substr +:+ post)).
      cbn [Contains]. rewrite IH. apply orb_true_r.
Qed.

Lemma append_assoc (a b c : string) : (a +:+ b) +:+ c = a +:+ b +:+ c.
Proof.
  induction a as [|x a IH]; [done|].
  change (String x ((a +:+ b) +:+ c) = String x (a +:+ b +:+ c)).
  by rewrite IH.
Qed.

Lemma Contains_app_l (a b sub : string) :
  Contains a sub = true -> Contains (a +:+ b) sub = true.
Proof.
  rewrite !Contains_iff. intros (pre & post & ->).
  exists pre, (post +:+ b).
  by rewrite !append_assoc.
Qed.

Lemma Contains_app_r (a b sub : string) :
  Contains b sub = true -> Contains (a +:+ b) sub = true.
Proof.
  rewrite !Contains_iff. intros (pre & post & ->).
  exists (a +:+ pre), post. by rewrite !append_assoc.
Qed.

Lemma Contains_refl (s : string) : Contains s s = true.
Proof.
  apply Contains_iff. exists "", "".
  change ("" +:+ s +:+ "") with (s +:+ "").
  induction s as [|c s IH]; [done|].
  change (String c s = String c (s +:+ "")). by rewrite <- IH.
Qed.

(** Every element is a substring of the joined string. *)
Lemma Contains_Join (l : list string) (sep a : string) :
  a ∈ l -> Contains (Join l sep) a = true.
Proof.
  induction l as [|x l IH]; [by intros ?%elem_of_nil|].
  intros [->|Hin]%elem_of_cons.
  - destruct l; simpl; [apply Contains_refl|].
    apply Contains_app_l, Contains_refl.
  - destruct l as [|y l]; [by apply elem_of_nil in Hin|].
    change (Join (x :: y :: l) sep) with (x +:+ sep +:+ Join (y :: l) sep).
    by apply Contains_app_r, Contains_app_r, IH.
Qed.

Lemma Contains_fmt_v (l : list string) (a : string) :
  a ∈ l -> Contains (fmt_v l) a = true.
Proof.
  intros Hin. unfold fmt_v.
  by apply Contains_app_r, Contains_app_l, Contains_Join.
Qed.

(** ** The account registry *)

Section registry_facts.
Import registry.
Context {Ext ClientOption Svc : Type}.
Variable GetClientOptionsForAccount :
  string -> list string -> M (Store * Ext) (list ClientOption).
Variable New : service -> list ClientOption -> M (Store * Ext) Svc.

Local Abbreviation Resolve := (registry.Resolve GetClientOptionsForAccount New).
Local Abbreviation NewServiceSet := (registry.NewServiceSet New).
Local Abbreviation resolve_all :=
  (registry.resolve_all GetClientOptionsForAccount New).
Local Abbreviation World := (@registry.World Ext Svc).
Local Abbreviation RW := (@registry.RW Ext Svc).

(** Every call of [NewServiceSet] is counted, whether it succeeds or
    not, and nothing else moves the counter. *)
Lemma NewServiceSet_counts opts (w w' : World) r :
  NewServiceSet opts w = (r, w') ->
  constructions w' = S (constructions w).
Proof.
  unfold registry.NewServiceSet, new_service, on_outside, zoom, bind, try,
    count_construction, modify, alloc, ret, fail.
  cbn [outside set_outside constructions heap].
  repeat match goal with
  | |- context [New ?k opts ?o] => destruct (New k opts o) as [[?|?] ?]
  | |- _ => progress cbn [outside set_outside constructions heap]
  end; intros [= <- <-]; done.
Qed.

Lemma validateAccountName_nonempty account :
  auth.validateAccountName account = None -> account <> "".
Proof. unfold auth.validateAccountName. by case_decide. Qed.

(** A cache hit: the entry is returned and nothing changes. *)
Lemma Resolve_hit account (r : Registry) (w : World) ss :
  multiAccount r = true -> account <> "" ->
  accounts r !! account = Some ss ->
  Resolve account (r, w) = (Ok ss, (r, w)).
Proof.
  intros Hm Hne Hss.
  unfold registry.Resolve, bind, gets, select_account, ret.
  cbn [fst snd]. rewrite Hm. cbn [negb].
  destruct (decide (account = "")) as [|_]; [done|].
  by rewrite Hss.
Qed.

(** A cache miss, step by step. *)
Lemma Resolve_miss account (r : Registry) (w : World) :
  multiAccount r = true -> account <> "" ->
  accounts r !! account = None ->
  Resolve account (r, w) =
    match GetClientOptionsForAccount account (scopes r) (outside w) with
    | (Err err, o) =>
        (Err (Wrapf "auth for account %q: %w" [account] err),
         (r, set_outside o w))
    | (Ok opts, o) =>
        match NewServiceSet opts (set_outside o w) with
        | (Err err, w') =>
            (Err (Wrapf "services for account %q: %w" [account] err), (r, w'))
        | (Ok ss, w') => (Ok ss, (set_account account ss r, w'))
        end
    end.
Proof.
  intros Hm Hne Hss.
  unfold registry.Resolve, bind, gets, select_account, ret.
  cbn [fst snd]. rewrite Hm. cbn [negb].
  destruct (decide (account = "")) as [|_]; [done|].
  rewrite Hss. unfold try, on_world, on_outside, zoom, modify, fail.
  cbn [fst snd].
  destruct (GetClientOptionsForAccount _ _ _) as [[opts|err] o]; [|done].
  by destruct (registry.NewServiceSet _ _ _) as [[ss|err] w'].
Qed.

(** Choosing the account does not touch the registry. *)
Lemma select_account_registry account (r r1 : Registry) (w w1 : World) x :
  select_account account (r, w) = (x, (r1, w1)) -> r1 = r.
Proof.
  unfold select_account. case_decide; [|by intros [= _ <- _]].
  unfold bind, try, on_world, zoom, fail, ret.
  destruct (registry.on_store _ _) as [[l|e'] w2]; cbn [fst snd].
  - destruct l as [|? [|? ?]]; by intros [= _ <- _].
  - by intros [= _ <- _].
Qed.

(** [Resolve] never removes or replaces an entry of the map. *)
Lemma Resolve_keeps account (rw : RW) a ss :
  accounts (fst rw) !! a = Some ss ->
  accounts (fst (snd (Resolve account rw))) !! a = Some ss.
Proof.
  destruct rw as [r w]. cbn [fst]. intros Ha.
  unfold registry.Resolve, bind, gets, ret. cbn [fst snd].
  destruct (multiAccount r); cbn [negb]; [|done].
  destruct (select_account account (r, w)) as [x [r1 w1]] eqn:Hsel.
  apply select_account_registry in Hsel as ->.
  destruct x as [acc|e]; [|done].
  destruct (accounts r !! acc) as [p|] eqn:Hacc; [done|].
  unfold try, on_world, on_outside, zoom, modify, fail. cbn [fst snd].
  destruct (GetClientOptionsForAccount _ _ _) as [[opts|err] o]; [|done].
  destruct (registry.NewServiceSet _ _ _) as [[p|err] w']; [|done].
  cbn [fst snd set_account accounts].
  rewrite lookup_insert_ne; [done|]. intros ->. congruence.
Qed.

Lemma resolve_all_keeps calls (rw : RW) a ss :
  accounts (fst rw) !! a = Some ss ->
  accounts (fst (resolve_all calls rw)) !! a = Some ss.
Proof.
  revert rw. induction calls as [|c calls IH]; intros rw Ha; [done|].
  cbn [registry.resolve_all]. by apply IH, Resolve_keeps.
Qed.

(** [Resolve] leaves the mode, the scopes and the legacy set alone. *)
Lemma Resolve_mode account (rw : RW) :
  multiAccount (fst (snd (Resolve account rw))) = multiAccount (fst rw).
Proof.
  destruct rw as [r w].
  unfold registry.Resolve, bind, gets, ret. cbn [fst snd].
  destruct (multiAccount r) eqn:Hm; cbn [negb]; [|done].
  destruct (select_account account (r, w)) as [x [r1 w1]] eqn:Hsel.
  apply select_account_registry in Hsel as ->.
  destruct x as [acc|e]; [|done].
  destruct (accounts r !! acc) as [p|] eqn:Hacc; [done|].
  unfold try, on_world, on_outside, zoom, modify, fail. cbn [fst snd].
  destruct (GetClientOptionsForAccount _ _ _) as [[opts|err] o]; [|done].
  by destruct (registry.NewServiceSet _ _ _) as [[p|err] w'].
Qed.

Lemma resolve_all_mode calls (rw : RW) :
  multiAccount (fst (resolve_all calls rw)) = multiAccount (fst rw).
Proof.
  revert rw. induction calls as [|c calls IH]; intros rw; [done|].
  cbn [registry.resolve_all]. by rewrite IH, Resolve_mode.
Qed.

Lemma Resolve_legacy account (r : Registry) (w : World) :
  multiAccount r = false -> Resolve account (r, w) = (Ok (legacy r), (r, w)).
Proof.
  intros Hm. unfold registry.Resolve, bind, gets, ret. cbn [fst snd].
  by rewrite Hm.
Qed.

(** C4.  A legacy registry resolves every account string, the empty one
    included, to the service set it was built with: the argument is not
    looked at, no error is returned, nothing changes, and so it stays
    through any sequence of calls. *)
Theorem legacy_Resolve_ignores_account (ss : ptr) (account : string) (w : World) :
  Resolve account (NewLegacyRegistry ss, w) = (Ok ss, (NewLegacyRegistry ss, w))
  /\ forall calls,
       resolve_all calls (NewLegacyRegistry ss, w) = (NewLegacyRegistry ss, w).
Proof.
  split; [by apply Resolve_legacy|].
  induction calls as [|c calls IH]; [done|].
  cbn [registry.resolve_all]. by rewrite Resolve_legacy.
Qed.

(** A successful call leaves the account in the map, with the set that
    it returned. *)
Lemma Resolve_ok_cached account (r : Registry) (w : World) ss rw1 :
  multiAccount r = true -> account <> "" ->
  Resolve account (r, w) = (Ok ss, rw1) ->
  accounts (fst rw1) !! account = Some ss
  /\ multiAccount (fst rw1) = true
  /\ constructions (snd rw1) =
       match accounts r !! account with
       | Some _ => constructions w
       | None => S (constructions w)
       end.
Proof.
  intros Hm Hne. destruct (accounts r !! account) as [p|] eqn:Hacc.
  - rewrite (Resolve_hit _ _ _ p) by done. by intros [= <- <-].
  - rewrite Resolve_miss by done.
    destruct (GetClientOptionsForAccount _ _ _) as [[opts|err] o]; [|done].
    destruct (registry.NewServiceSet _ _ _) as [[p|err] w'] eqn:Hnew; [|done].
    intros [= <- <-]. cbn [fst snd set_account accounts multiAccount].
    rewrite lookup_insert_eq. split_and!; [done..|].
    by rewrite (NewServiceSet_counts _ _ _ _ Hnew).
Qed.

(** Choosing the account touches only the outside: the heap and the
    counter are as before. *)
Lemma select_account_world c (r r1 : Registry) (w w1 : World) x :
  select_account c (r, w) = (x, (r1, w1)) ->
  constructions w1 = constructions w /\ heap w1 = heap w.
Proof.
  unfold select_account. case_decide; [|by intros [= _ _ <-]].
  unfold bind, try, on_world, registry.on_store, on_outside, zoom, fail, ret.
  cbn [fst snd].
  destruct (auth.ListAccounts _) as [[l|e'] st]; cbn [fst snd].
  - destruct l as [|? [|? ?]]; by intros [= _ _ <-].
  - by intros [= _ _ <-].
Qed.

(** A call that comes to an account with an entry, whether the account
    was named or chosen from the listing, returns the entry and
    constructs nothing. *)
Lemma Resolve_selected_hit c account (r : Registry) (w : World) ss :
  multiAccount r = true ->
  fst (select_account c (r, w)) = Ok account ->
  accounts r !! account = Some ss ->
  fst (Resolve c (r, w)) = Ok ss
  /\ fst (snd (Resolve c (r, w))) = r
  /\ constructions (snd (snd (Resolve c (r, w)))) = constructions w
  /\ heap (snd (snd (Resolve c (r, w)))) = heap w.
Proof.
  intros Hm Hsel Hss.
  unfold registry.Resolve, bind, gets, ret. cbn [fst snd].
  rewrite Hm. cbn [negb].
  destruct (select_account c (r, w)) as [x [r1 w1]] eqn:Hs.
  cbn [fst] in Hsel. subst x.
  destruct (select_account_world _ _ _ _ _ _ Hs) as [Hc Hh].
  apply select_account_registry in Hs as ->.
  by rewrite Hss.
Qed.

(** C1.  In multi-account mode, two calls of [Resolve] in a row for a
    valid account that both succeed return the same pointer, and the
    second call changes nothing.  When the account had no entry before,
    [NewServiceSet] ran exactly once over the two calls; when it had one,
    not at all.  From then on, whatever calls are made, the entry stays
    and a call for the account returns it without any change of state;
    and every call that comes to the account, named or chosen from the
    listing for an empty argument, returns the entry and leaves the
    counter where it is. *)
Theorem Resolve_constructs_once account (r : Registry) (w : World)
    p1 rw1 p2 rw2 :
  multiAccount r = true ->
  auth.validateAccountName account = None ->
  Resolve account (r, w) = (Ok p1, rw1) ->
  Resolve account rw1 = (Ok p2, rw2) ->
  p2 = p1 /\ rw2 = rw1
  /\ (accounts r !! account = None ->
      constructions (snd rw2) = S (constructions w))
  /\ (is_Some (accounts r !! account) ->
      constructions (snd rw2) = constructions w)
  /\ forall calls,
       accounts (fst (resolve_all calls rw1)) !! account = Some p1
       /\ Resolve account (resolve_all calls rw1)
          = (Ok p1, resolve_all calls rw1)
       /\ forall c,
            fst (select_account c (resolve_all calls rw1)) = Ok account ->
            fst (Resolve c (resolve_all calls rw1)) = Ok p1
            /\ constructions (snd (snd (Resolve c (resolve_all calls rw1))))
               = constructions (snd (resolve_all calls rw1)).
Proof.
  intros Hm Hne%validateAccountName_nonempty H1 H2.
  destruct (Resolve_ok_cached _ _ _ _ _ Hm Hne H1) as (Hc & Hm1 & Hn).
  destruct rw1 as [r1 w1]. cbn [fst snd] in *.
  rewrite (Resolve_hit _ _ _ p1) in H2 by done.
  injection H2 as <- <-. cbn [snd].
  split_and!; [done..| | |].
  - intros Hnone. by rewrite Hnone in Hn.
  - intros [p Hp]. by rewrite Hp in Hn.
  - intros calls.
    pose proof (resolve_all_keeps calls (r1, w1) account p1 Hc) as Hk.
    pose proof (resolve_all_mode calls (r1, w1)) as Hmode.
    destruct (resolve_all calls (r1, w1)) as [r' w'].
    cbn [fst snd] in *. split_and!; [done| |].
    + apply Resolve_hit; [congruence|done..].
    + intros c Hsel.
      destruct (Resolve_selected_hit c account r' w' p1) as (? & _ & ? & _);
        [congruence|done..].
Qed.

(** C2.  In multi-account mode a call of [Resolve] that fails leaves
    the registry as it was.  For an account without entry: if loading
    the credentials fails, or if the construction of the service set
    fails, the call fails and the map is unchanged; and a later call, in
    whatever world, runs both steps again, caching their result when they
    succeed. *)
Theorem Resolve_failure_not_cached account (r : Registry) (w : World) :
  multiAccount r = true ->
  (forall e rw', Resolve account (r, w) = (Err e, rw') -> fst rw' = r)
  /\ (account <> "" -> accounts r !! account = None ->
      (forall err o,
          GetClientOptionsForAccount account (scopes r) (outside w) = (Err err, o) ->
          Resolve account (r, w)
          = (Err (Wrapf "auth for account %q: %w" [account] err),
             (r, set_outside o w)))
      /\ (forall opts o err w',
          GetClientOptionsForAccount account (scopes r) (outside w) = (Ok opts, o) ->
          NewServiceSet opts (set_outside o w) = (Err err, w') ->
          Resolve account (r, w)
          = (Err (Wrapf "services for account %q: %w" [account] err), (r, w')))
      /\ (forall w2 opts o2 ss w3,
          GetClientOptionsForAccount account (scopes r) (outside w2) = (Ok opts, o2) ->
          NewServiceSet opts (set_outside o2 w2) = (Ok ss, w3) ->
          Resolve account (r, w2) = (Ok ss, (set_account account ss r, w3))
          /\ constructions w3 = S (constructions w2))).
Proof.
  intros Hm. split.
  - intros e [r' w']. cbn [fst].
    unfold registry.Resolve, bind, gets, ret. cbn [fst snd].
    rewrite Hm. cbn [negb].
    destruct (select_account account (r, w)) as [x [r1 w1]] eqn:Hsel.
    apply select_account_registry in Hsel as ->.
    destruct x as [acc|e0]; [|by intros [= _ <- _]].
    destruct (accounts r !! acc) as [p|]; [done|].
    unfold try, on_world, on_outside, zoom, modify, fail. cbn [fst snd].
    destruct (GetClientOptionsForAccount _ _ _) as [[opts|err] o];
      [|by intros [= _ <- _]].
    destruct (registry.NewServiceSet _ _ _) as [[p|err] w2]; [done|].
    by intros [= _ <- _].
  - intros Hne Hnone. split_and!.
    + intros err o Hget. rewrite Resolve_miss by done. by rewrite Hget.
    + intros opts o err w' Hget Hnew. rewrite Resolve_miss by done.
      by rewrite Hget, Hnew.
    + intros w2 opts o2 ss w3 Hget Hnew. rewrite Resolve_miss by done.
      rewrite Hget, Hnew. split; [done|].
      apply (NewServiceSet_counts _ _ _ _ Hnew).
Qed.

End registry_facts.

(** ** The file system *)

Lemma fs_lookup_snoc (t : FS) (q : path) (c : string) :
  fs_lookup t (q ++ [c]) = t !! (q ++ [c]).
Proof. by destruct q. Qed.

Lemma fs_lookup_insert_ne (t : FS) (p q : path) (n : node) :
  p <> q -> fs_lookup (<[p := n]> t) q = fs_lookup t q.
Proof. intros Hne. destruct q; [done|]. by apply lookup_insert_ne. Qed.

Lemma parent_snoc (q : path) (c : string) : parent (q ++ [c]) = q.
Proof. apply removelast_last. Qed.

Lemma app_ne_self {A} (l k : list A) : k <> [] -> l ++ k <> l.
Proof.
  intros Hk Heq. apply Hk.
  apply (f_equal length) in Heq. rewrite length_app in Heq.
  destruct k; [done|]. simpl in Heq. lia.
Qed.

Lemma prefix_snoc_ne {A} (l : list A) (x : A) : ~ (l ++ [x]) `prefix_of` l.
Proof.
  intros Hp%prefix_length. rewrite length_app in Hp. simpl in Hp. lia.
Qed.

(** What a successful [MkdirAll] does: the path is a directory
    afterwards, and the only change is that missing directories on the
    way to it have been made. *)
Lemma mkdir_all_inv (rp : list string) (t t' : FS) :
  os.mkdir_all rp t = Ok t' ->
  fs_lookup t' (rev rp) = Some Dir
  /\ forall q, t' !! q = t !! q
            \/ (q `prefix_of` rev rp /\ t !! q = None /\ t' !! q = Some Dir).
Proof.
  revert t'. induction rp as [|c rp IH]; intros t'.
  - cbn. intros [= <-]. split; [done|]. by left.
  - cbn [os.mkdir_all]. change (rev (c :: rp)) with (rev rp ++ [c]).
    rewrite fs_lookup_snoc.
    destruct (t !! (rev rp ++ [c])) as [[data|]|] eqn:Hp.
    + done.
    + intros [= <-]. rewrite fs_lookup_snoc. split; [done|]. by left.
    + destruct (os.mkdir_all rp t) as [t1|e] eqn:H1; [|done].
      destruct (IH _ eq_refl) as [Hd Hq].
      unfold os.mkdir. rewrite parent_snoc, Hd, fs_lookup_snoc.
      destruct (t1 !! (rev rp ++ [c])) eqn:Hp1; [done|].
      intros [= <-]. rewrite fs_lookup_snoc, lookup_insert_eq.
      split; [done|]. intros q.
      destruct (decide (q = rev rp ++ [c])) as [->|Hne].
      * right. by rewrite lookup_insert_eq.
      * rewrite lookup_insert_ne by done.
        destruct (Hq q) as [->|(Hpre & Hn & Hd')]; [by left|].
        right. split_and!; [|done..]. by apply prefix_app_r.
Qed.

(** [MkdirAll] succeeds when no regular file is in the way. *)
Lemma mkdir_all_ok (rp : list string) (t : FS) :
  dir_makeable t (rev rp) -> is_ok (os.mkdir_all rp t) = true.
Proof.
  induction rp as [|c rp IH]; intros Hm.
  - done.
  - cbn [os.mkdir_all]. change (rev (c :: rp)) with (rev rp ++ [c]) in *.
    rewrite fs_lookup_snoc.
    destruct (t !! (rev rp ++ [c])) as [[data|]|] eqn:Hp.
    + by destruct (Hm (rev rp ++ [c]) data).
    + done.
    + destruct (os.mkdir_all rp t) as [t1|e] eqn:H1.
      * destruct (mkdir_all_inv _ _ _ H1) as [Hd Hq].
        unfold os.mkdir. rewrite parent_snoc, Hd, fs_lookup_snoc.
        destruct (Hq (rev rp ++ [c])) as [->|(Hpre & _)].
        -- by rewrite Hp.
        -- by apply prefix_snoc_ne in Hpre.
      * exfalso. enough (is_ok (@Err FS e) = true) by done.
        apply IH. intros q data Hq. apply Hm. by apply prefix_app_r.
Qed.

(** On an existing directory [MkdirAll] does nothing. *)
Lemma mkdir_all_exists (p : path) (t : FS) :
  fs_lookup t p = Some Dir -> os.mkdir_all (rev p) t = Ok t.
Proof.
  intros Hd. destruct (rev p) eqn:E; cbn [os.mkdir_all]; rewrite <- E;
    by rewrite rev_involutive, Hd.
Qed.

Lemma mkdir_all_keeps (rp : list string) (t t' : FS) (q : path) (n : node) :
  os.mkdir_all rp t = Ok t' -> fs_lookup t q = Some n -> fs_lookup t' q = Some n.
Proof.
  intros [_ H]%mkdir_all_inv. destruct q as [|c q]; [done|]. cbn.
  intros Hq. destruct (H (c :: q)) as [->|(_ & Hn & _)]; congruence.
Qed.

Lemma mkdir_all_frame (rp : list string) (t t' : FS) (q : path) :
  os.mkdir_all rp t = Ok t' -> ~ q `prefix_of` rev rp -> t' !! q = t !! q.
Proof. intros [_ H]%mkdir_all_inv Hq. by destruct (H q) as [->|[? _]]. Qed.

(** ** The credential store *)

Section store_facts.
Import auth.
Context `{JSON}.

Lemma Join_one (d : path) (c : string) :
  valid_name c -> filepath_Join d [c] = d ++ [c].
Proof.
  intros Hc. unfold filepath_Join. by rewrite filter_cons_True, filter_nil.
Qed.

Lemma valid_TokenFileName : valid_name TokenFileName.
Proof. by split. Qed.
Lemma valid_SecretsFileName : valid_name SecretsFileName.
Proof. by split. Qed.
Lemma valid_AccountsDirName : valid_name AccountsDirName.
Proof. by split. Qed.
Lemma valid_ConfigDirName : valid_name ConfigDirName.
Proof. by split. Qed.

Lemma account_dir_prefix (d : path) (account : string) :
  accounts_dir d `prefix_of` account_dir d account.
Proof.
  unfold account_dir, accounts_dir, filepath_Join.
  rewrite filter_cons_True by apply valid_AccountsDirName.
  exists (filter (fun c => c <> "" /\ c <> ".") [account]).
  by rewrite <- app_assoc.
Qed.

Lemma config_prefix_account_dir (d : path) (account : string) :
  d `prefix_of` account_dir d account.
Proof. unfold account_dir, filepath_Join. by apply prefix_app_r. Qed.

(** [GetConfigDir], in one step. *)
Lemma GetConfigDir_run (s : Store) :
  GetConfigDir s =
    match config_root s with
    | None => (Err (ErrorString "$HOME is not defined"), s)
    | Some d =>
        match os.mkdir_all (rev d) (fs s) with
        | Ok t => (Ok d, set_fs t (log (OpMkdirAll d) s))
        | Err e => (Err e, log (OpMkdirAll d) s)
        end
    end.
Proof.
  unfold GetConfigDir, config_root, bind, gets, ret, UserHomeDir, os.MkdirAll.
  destruct (env_config_dir s) as [envDir|].
  - cbn [fs log]. by destruct (os.mkdir_all _ _).
  - destruct (BaseDir s) as [b|].
    + cbn [fs log]. by destruct (os.mkdir_all _ _).
    + destruct (home s) as [h|]; [|done].
      cbn [fs log]. by destruct (os.mkdir_all _ _).
Qed.

Lemma GetConfigDir_inv (s s1 : Store) (d : path) :
  GetConfigDir s = (Ok d, s1) ->
  config_root s = Some d /\ config_root s1 = Some d
  /\ os.mkdir_all (rev d) (fs s) = Ok (fs s1)
  /\ fs_lookup (fs s1) d = Some Dir.
Proof.
  rewrite GetConfigDir_run. destruct (config_root s) as [d'|] eqn:Hr; [|done].
  destruct (os.mkdir_all _ _) as [t|e] eqn:Hm; [|done].
  intros [= -> <-]. cbn. split_and!; [done..|].
  apply mkdir_all_inv in Hm as [Hd _]. by rewrite rev_involutive in Hd.
Qed.

Lemma GetConfigDir_ok (s : Store) (d : path) :
  config_root s = Some d -> dir_makeable (fs s) d ->
  exists s1, GetConfigDir s = (Ok d, s1).
Proof.
  intros Hr Hm. rewrite GetConfigDir_run, Hr.
  pose proof (mkdir_all_ok (rev d) (fs s)) as Hok.
  rewrite rev_involutive in Hok. specialize (Hok Hm).
  destruct (os.mkdir_all _ _); [by eexists|done].
Qed.

(** Once the directory exists, [GetConfigDir] only reads. *)
Lemma GetConfigDir_exists (s : Store) (d : path) :
  config_root s = Some d -> fs_lookup (fs s) d = Some Dir ->
  exists s1, GetConfigDir s = (Ok d, s1)
             /\ fs s1 = fs s /\ config_root s1 = Some d.
Proof.
  intros Hr Hd. rewrite GetConfigDir_run, Hr, mkdir_all_exists by done.
  by eexists.
Qed.

(** [GetAccountDir] on a valid name. *)
Lemma GetAccountDir_run (account : string) (s : Store) :
  validateAccountName account = None ->
  GetAccountDir account s =
    match GetConfigDir s with
    | (Err e, s1) => (Err e, s1)
    | (Ok d, s1) =>
        match os.mkdir_all (rev (account_dir d account)) (fs s1) with
        | Ok t => (Ok (account_dir d account),
                   set_fs t (log (OpMkdirAll (account_dir d account)) s1))
        | Err e => (Err e, log (OpMkdirAll (account_dir d account)) s1)
        end
    end.
Proof.
  intros Hv. unfold GetAccountDir, bind, ret, os.MkdirAll. rewrite Hv.
  destruct (GetConfigDir s) as [[d|e] s1]; [|done].
  fold (account_dir d account). cbn [fs log].
  by destruct (os.mkdir_all _ _).
Qed.

Lemma GetAccountDir_inv (account : string) (s s2 : Store) (a : path) :
  validateAccountName account = None ->
  GetAccountDir account s = (Ok a, s2) ->
  exists d, config_root s = Some d /\ config_root s2 = Some d
    /\ a = account_dir d account
    /\ fs_lookup (fs s2) d = Some Dir
    /\ fs_lookup (fs s2) a = Some Dir
    /\ (forall q, ~ q `prefix_of` a -> fs s2 !! q = fs s !! q)
    /\ (forall q n, fs_lookup (fs s) q = Some n -> fs_lookup (fs s2) q = Some n).
Proof.
  intros Hv. rewrite GetAccountDir_run by done.
  destruct (GetConfigDir s) as [[d|e] s1] eqn:Hc; [|done].
  apply GetConfigDir_inv in Hc as (Hr & Hr1 & Hm1 & Hd1).
  destruct (os.mkdir_all _ (fs s1)) as [t|e] eqn:Hm; [|done].
  intros [= <- <-]. exists d. cbn [fs set_fs].
  pose proof (mkdir_all_inv _ _ _ Hm) as [Ha _].
  rewrite rev_involutive in Ha.
  split_and!; [done..| | | |].
  - by apply (mkdir_all_keeps _ _ _ _ _ Hm).
  - done.
  - intros q Hq. rewrite (mkdir_all_frame _ _ _ _ Hm)
      by by rewrite rev_involutive.
    apply (mkdir_all_frame _ _ _ _ Hm1). rewrite rev_involutive.
    intros Hq'. apply Hq. etrans; [done|]. apply config_prefix_account_dir.
  - intros q n Hq. apply (mkdir_all_keeps _ _ _ _ _ Hm).
    by apply (mkdir_all_keeps _ _ _ _ _ Hm1).
Qed.

Lemma GetAccountDir_ok (account : string) (s : Store) (d : path) :
  validateAccountName account = None ->
  config_root s = Some d ->
  dir_makeable (fs s) (account_dir d account) ->
  exists s2, GetAccountDir account s = (Ok (account_dir d account), s2).
Proof.
  intros Hv Hr Hm. rewrite GetAccountDir_run by done.
  destruct (GetConfigDir_ok s d Hr) as [s1 Hc].
  { intros q data Hq. apply Hm. etrans; [done|].
    apply config_prefix_account_dir. }
  rewrite Hc. apply GetConfigDir_inv in Hc as (_ & _ & Hm1 & _).
  pose proof (mkdir_all_ok (rev (account_dir d account)) (fs s1)) as Hok.
  rewrite rev_involutive in Hok.
  destruct (os.mkdir_all _ (fs s1)); [by eexists|].
  exfalso. enough (is_ok (@Err FS e) = true) by done.
  apply Hok. intros q data Hq Hf.
  destruct (mkdir_all_inv _ _ _ Hm1) as [_ Hx].
  destruct (Hx q) as [Heq|(_ & _ & Hd)]; [|congruence].
  rewrite Heq in Hf. by apply (Hm q data).
Qed.

(** Once the account directory exists, [GetAccountDir] only reads. *)
Lemma GetAccountDir_exists (account : string) (s : Store) (d : path) :
  validateAccountName account = None ->
  config_root s = Some d ->
  fs_lookup (fs s) d = Some Dir ->
  fs_lookup (fs s) (account_dir d account) = Some Dir ->
  exists s2, GetAccountDir account s = (Ok (account_dir d account), s2)
             /\ fs s2 = fs s /\ config_root s2 = Some d.
Proof.
  intros Hv Hr Hd Ha. rewrite GetAccountDir_run by done.
  destruct (GetConfigDir_exists s d Hr Hd) as (s1 & -> & Hfs & Hr1).
  rewrite Hfs, mkdir_all_exists by done. by eexists.
Qed.

(** Opening an entry of an existing directory for writing. *)
Lemma open_write_ok (op : string) (q : path) (c data : string) (t : FS) :
  fs_lookup t q = Some Dir -> t !! (q ++ [c]) <> Some Dir ->
  os.open_write op (q ++ [c]) data t = Ok (<[q ++ [c] := File data]> t).
Proof.
  intros Hq Hc. unfold os.open_write.
  rewrite parent_snoc, Hq.
  destruct (q ++ [c]) as [|x l] eqn:E; [by destruct q|].
  cbn [fs_lookup]. by destruct (t !! (x :: l)) as [[|]|].
Qed.

Lemma open_write_dir (op : string) (q : path) (c data : string) (t : FS) :
  fs_lookup t q = Some Dir -> t !! (q ++ [c]) = Some Dir ->
  os.open_write op (q ++ [c]) data t = Err (PathError op (q ++ [c]) EISDIR).
Proof.
  intros Hq Hc. unfold os.open_write. rewrite parent_snoc, Hq.
  destruct (q ++ [c]) as [|x l] eqn:E; [done|].
  cbn [fs_lookup]. by rewrite Hc.
Qed.

End store_facts.

Section store_claims.
Import auth.
Context `{JSON}.

Lemma validateAccountName_forbidden (account pre bad post : string) :
  bad ∈ forbidden -> account = pre +:+ bad +:+ post ->
  validateAccountName account = Some (invalid_account_name account).
Proof.
  intros Hbad Heq. unfold validateAccountName.
  assert (Contains account bad = true) as Hc.
  { apply Contains_iff. by exists pre, post. }
  case_decide as He.
  - rewrite He in Hc. unfold forbidden in Hbad.
    repeat (apply elem_of_cons in Hbad as [->|Hbad]); try done.
    by apply elem_of_nil in Hbad.
  - unfold forbidden in Hbad.
    repeat (apply elem_of_cons in Hbad as [->|Hbad]); rewrite ?Hc, ?orb_true_r;
      try done.
    by apply elem_of_nil in Hbad.
Qed.

(** C5, as the code has it.  An account name that contains [".."], a
    slash, a backslash or a NUL byte is rejected with the validation
    error by [GetAccountDir], [SaveTokenForAccount],
    [LoadTokenForAccount] and [LoadSecretsForAccount] before any call to
    the file system: the store, its trace included, is as before.
    [SaveSecretsForAccount] reads the source file first, a path that does
    not come from the account name: when that read fails its error is
    returned, otherwise the name is rejected with the validation error;
    the read is the only call to the file system and no file changes. *)
Theorem unsafe_account_name_rejected (account pre bad post : string)
    (s : Store) (token : Token) (srcPath : path) :
  bad ∈ forbidden -> account = pre +:+ bad +:+ post ->
  GetAccountDir account s = (Err (invalid_account_name account), s)
  /\ SaveTokenForAccount account token s = (Err (invalid_account_name account), s)
  /\ LoadTokenForAccount account s = (Err (invalid_account_name account), s)
  /\ LoadSecretsForAccount account s = (Err (invalid_account_name account), s)
  /\ SaveSecretsForAccount account srcPath s =
       (match fs_lookup (fs s) srcPath with
        | Some (File _) => Err (invalid_account_name account)
        | Some Dir => Err (PathError "read" srcPath EISDIR)
        | None => Err (PathError "open" srcPath ENOENT)
        end, log (OpReadFile srcPath) s).
Proof.
  intros Hbad Heq.
  pose proof (validateAccountName_forbidden _ _ _ _ Hbad Heq) as Hv.
  assert (GetAccountDir account s = (Err (invalid_account_name account), s))
    as Hg by (unfold GetAccountDir; by rewrite Hv).
  split_and!; [done|..].
  - unfold SaveTokenForAccount, bind. by rewrite Hg.
  - unfold LoadTokenForAccount, bind. by rewrite Hg.
  - unfold LoadSecretsForAccount, bind. by rewrite Hg.
  - unfold SaveSecretsForAccount, bind, os.ReadFile. cbn [fs log].
    destruct (fs_lookup (fs s) srcPath) as [[data|]|]; [|done..].
    unfold GetAccountDir, fail. by rewrite Hv.
Qed.

(** A successful save leaves the encoded token in the token file of
    the account directory. *)
Lemma SaveTokenForAccount_saves (account : string) (token : Token) (b : string)
    (s : Store) (d : path) :
  validateAccountName account = None ->
  json_Marshal token = Ok b ->
  config_root s = Some d ->
  dir_makeable (fs s) (account_dir d account) ->
  fs s !! (account_dir d account ++ [TokenFileName]) <> Some Dir ->
  exists s1,
    SaveTokenForAccount account token s = (Ok tt, s1)
    /\ config_root s1 = Some d
    /\ fs_lookup (fs s1) d = Some Dir
    /\ fs_lookup (fs s1) (account_dir d account) = Some Dir
    /\ fs s1 !! (account_dir d account ++ [TokenFileName]) = Some (File b).
Proof.
  intros Hv Henc Hr Hm Hnd.
  destruct (GetAccountDir_ok account s d Hv Hr Hm) as [s0 Hg].
  destruct (GetAccountDir_inv _ _ _ _ Hv Hg)
    as (d' & Hr' & Hr0 & _ & Hd0 & Ha0 & Hframe & _).
  assert (d' = d) as -> by congruence.
  pose proof (config_prefix_account_dir d account) as [k Hk].
  remember (account_dir d account) as a eqn:Ea.
  assert (fs s0 !! (a ++ [TokenFileName]) <> Some Dir) as Hnd0.
  { rewrite Hframe; [done|]. apply prefix_snoc_ne. }
  assert (a ++ [TokenFileName] <> d) as Hdp.
  { rewrite Hk, <- app_assoc. by apply app_ne_self; destruct k. }
  assert (a ++ [TokenFileName] <> a) as Hap by by apply app_ne_self.
  unfold SaveTokenForAccount, bind. rewrite Hg.
  rewrite Join_one by apply valid_TokenFileName.
  unfold os.Create. cbn [fs log].
  rewrite open_write_ok by done.
  unfold json_Encode. rewrite Henc. unfold os.Write. cbn [fs log set_fs].
  rewrite lookup_insert_eq.
  eexists. split; [reflexivity|]. cbn [fs set_fs].
  rewrite !fs_lookup_insert_ne by done. rewrite lookup_insert_eq.
  by destruct s0.
Qed.

(** Loading reads back what the token file holds. *)
Lemma LoadTokenForAccount_loads (account : string) (token : Token) (b : string)
    (s : Store) (d : path) :
  validateAccountName account = None ->
  json_Unmarshal b = Ok token ->
  config_root s = Some d ->
  fs_lookup (fs s) d = Some Dir ->
  fs_lookup (fs s) (account_dir d account) = Some Dir ->
  fs s !! (account_dir d account ++ [TokenFileName]) = Some (File b) ->
  exists s2, LoadTokenForAccount account s = (Ok token, s2).
Proof.
  intros Hv Hdec Hr Hd Ha Hb.
  destruct (GetAccountDir_exists account s d Hv Hr Hd Ha) as (s1 & Hg & Hfs & _).
  unfold LoadTokenForAccount, bind. rewrite Hg.
  rewrite Join_one by apply valid_TokenFileName.
  unfold os.Open. cbn [fs log]. rewrite Hfs, fs_lookup_snoc, Hb.
  unfold json_Decode, bind, os.Read. cbn [fs log].
  rewrite Hfs, fs_lookup_snoc, Hb, Hdec. by eexists.
Qed.

Lemma ReadFile_run (p : path) (s : Store) :
  os.ReadFile p s =
    (match fs_lookup (fs s) p with
     | Some (File data) => Ok data
     | Some Dir => Err (PathError "read" p EISDIR)
     | None => Err (PathError "open" p ENOENT)
     end, log (OpReadFile p) s).
Proof.
  unfold os.ReadFile. cbn [fs log].
  by destruct (fs_lookup (fs s) p) as [[?|]|].
Qed.


End store_claims.

(** ** Listing the accounts *)

Section listing_facts.
Import auth.

Lemma entry_name_Some (d p : path) (c : string) :
  entry_name d p = Some c <-> p = d ++ [c].
Proof.
  unfold entry_name. split.
  - destruct (last p) as [c'|]; [|done]. case_decide; [|done].
    by intros [= <-].
  - intros ->. rewrite last_snoc. by rewrite decide_True.
Qed.

Lemma elem_of_entry_names (t : FS) (d : path) (c : string) :
  c ∈ entry_names t d <-> is_Some (t !! (d ++ [c])).
Proof.
  unfold entry_names. rewrite elem_of_list_to_set, list_elem_of_omap. split.
  - intros ([p n] & Hin & He). apply elem_of_map_to_list in Hin.
    apply entry_name_Some in He as ->. by eexists.
  - intros [n Hn]. exists (d ++ [c], n). split.
    + by apply elem_of_map_to_list.
    + by apply entry_name_Some.
Qed.

Lemma elem_of_read_dir (t : FS) (d : path) (e : os.DirEntry) :
  e ∈ os.read_dir t d <->
  exists c, is_Some (t !! (d ++ [c])) /\ e = os.dir_entry t d c.
Proof.
  unfold os.read_dir. rewrite list_elem_of_fmap. split.
  - intros (c & -> & Hc). exists c. split; [|done].
    rewrite merge_sort_Permutation, elem_of_elements in Hc.
    by apply elem_of_entry_names.
  - intros (c & Hc & ->). exists c. split; [done|].
    rewrite merge_sort_Permutation, elem_of_elements.
    by apply elem_of_entry_names.
Qed.

Lemma agree_below_lookup (p q : path) (t t' : FS) :
  agree_below p t t' -> p `prefix_of` q -> q <> [] ->
  fs_lookup t q = fs_lookup t' q.
Proof. intros Ha Hp Hq. destruct q; [done|]. by apply Ha. Qed.

Lemma read_dir_ext (p : path) (t t' : FS) :
  agree_below p t t' -> os.read_dir t p = os.read_dir t' p.
Proof.
  intros Ha. unfold os.read_dir.
  assert (entry_names t p = entry_names t' p) as ->.
  { apply set_eq. intros c. rewrite !elem_of_entry_names.
    rewrite (Ha (p ++ [c])); [done|]. by apply prefix_app_r. }
  apply list_fmap_ext. intros _ c _. unfold os.dir_entry.
  rewrite (Ha (p ++ [c])); [done|]. by apply prefix_app_r.
Qed.

Lemma has_token_ext (p : path) (t t' : FS) (e : os.DirEntry) :
  agree_below p t t' -> has_token t p e = has_token t' p e.
Proof.
  intros Ha. unfold has_token. f_equal.
  rewrite (agree_below_lookup p _ t t'); [done..| |].
  - unfold filepath_Join. by apply prefix_app_r.
  - unfold filepath_Join. rewrite !filter_cons.
    rewrite (decide_True (P := TokenFileName <> "" /\ TokenFileName <> "."))
      by apply valid_TokenFileName.
    case_decide; by destruct p.
Qed.

Lemma is_multi_account_ext (d : path) (t t' : FS) :
  agree_below (accounts_dir d) t t' ->
  is_multi_account t d = is_multi_account t' d.
Proof.
  intros Ha. unfold is_multi_account.
  rewrite (agree_below_lookup _ _ t t' Ha); [|done|by destruct d].
  rewrite (read_dir_ext _ t t' Ha).
  destruct (fs_lookup t' _) as [[?|]|]; [done| |done].
  f_equal. induction (os.read_dir t' _) as [|e l IH]; [done|].
  cbn [existsb]. by rewrite IH, (has_token_ext _ t t').
Qed.

Lemma list_accounts_ext (d : path) (t t' : FS) :
  agree_below (accounts_dir d) t t' ->
  list_accounts t d = list_accounts t' d.
Proof.
  intros Ha. unfold list_accounts.
  rewrite (agree_below_lookup _ _ t t' Ha); [|done|by destruct d].
  rewrite (read_dir_ext _ t t' Ha).
  destruct (fs_lookup t' _) as [[?|]|]; [done| |done].
  do 2 f_equal. induction (os.read_dir t' _) as [|e l IH]; [done|].
  cbn [List.filter]. by rewrite IH, (has_token_ext _ t t').
Qed.

(** Making the configuration directory changes nothing below
    [accounts/]. *)
Lemma mkdir_all_agree_below (d : path) (t t' : FS) :
  os.mkdir_all (rev d) t = Ok t' -> agree_below (accounts_dir d) t' t.
Proof.
  intros Hm q Hq. apply (mkdir_all_frame _ _ _ _ Hm).
  rewrite rev_involutive. intros Hqd.
  assert (accounts_dir d `prefix_of` d) as Hp by by etrans.
  by apply prefix_snoc_ne in Hp.
Qed.

Lemma Stat_run (p : path) (s : Store) :
  os.Stat p s =
    (match fs_lookup (fs s) p with
     | Some n => Ok n
     | None => Err (PathError "stat" p ENOENT)
     end, log (OpStat p) s).
Proof. unfold os.Stat. cbn [fs log]. by destruct (fs_lookup _ _). Qed.

Lemma IsMultiAccount_loop_run (acc : path) (entries : list os.DirEntry)
    (s : Store) :
  exists s', IsMultiAccount_loop acc entries s
             = (Ok (existsb (has_token (fs s) acc) entries), s')
             /\ fs s' = fs s /\ config_root s' = config_root s.
Proof.
  revert s. induction entries as [|e entries IH]; intros s.
  - by eexists.
  - cbn [IsMultiAccount_loop existsb]. unfold has_token at 1.
    destruct (os.IsDir e); cbn [andb]; [|apply IH].
    unfold bind, try. rewrite Stat_run.
    destruct (fs_lookup (fs s) _) as [n|] eqn:Hn.
    + rewrite bool_decide_eq_true_2 by done. by eexists.
    + rewrite bool_decide_eq_false_2 by (by intros [? ?]).
      cbn [orb]. apply (IH (log _ s)).
Qed.

Lemma ListAccounts_loop_run (acc : path) (entries : list os.DirEntry)
    (accounts : list string) (s : Store) :
  exists s', ListAccounts_loop acc entries accounts s
             = (Ok (accounts ++
                    (os.Name <$> List.filter (has_token (fs s) acc) entries)), s')
             /\ fs s' = fs s /\ config_root s' = config_root s.
Proof.
  revert accounts s. induction entries as [|e entries IH]; intros accounts s.
  - cbn. rewrite app_nil_r. by eexists.
  - cbn [ListAccounts_loop List.filter]. unfold has_token at 1.
    destruct (os.IsDir e); cbn [andb]; [|apply IH].
    unfold bind, try. rewrite Stat_run.
    destruct (fs_lookup (fs s) _) as [n|] eqn:Hn.
    + rewrite bool_decide_eq_true_2 by done.
      destruct (IH (accounts ++ [os.Name e]) (log (OpStat
        (filepath_Join acc [os.Name e; TokenFileName])) s))
        as (s' & -> & Hfs & Hr).
      exists s'. rewrite <- app_assoc. done.
    + rewrite bool_decide_eq_false_2 by (by intros [? ?]).
      apply (IH accounts (log _ s)).
Qed.

Lemma ReadDir_run (p : path) (s : Store) :
  os.ReadDir p s =
    (match fs_lookup (fs s) p with
     | Some Dir => Ok (os.read_dir (fs s) p)
     | Some (File _) => Err (PathError "readdirent" p ENOTDIR)
     | None => Err (PathError "open" p ENOENT)
     end, log (OpReadDir p) s).
Proof.
  unfold os.ReadDir. cbn [fs log]. by destruct (fs_lookup _ _) as [[?|]|].
Qed.

Lemma Join_accounts (d : path) :
  filepath_Join d [AccountsDirName] = accounts_dir d.
Proof. apply Join_one, valid_AccountsDirName. Qed.

(** [IsMultiAccount] and [ListAccounts] after [GetConfigDir]: the result
    is the function of the files, and no file changes. *)
Lemma IsMultiAccount_run (s s1 : Store) (d : path) :
  GetConfigDir s = (Ok d, s1) ->
  exists s', IsMultiAccount s = (is_multi_account (fs s1) d, s')
             /\ fs s' = fs s1 /\ config_root s' = config_root s1.
Proof.
  intros Hg. unfold IsMultiAccount, bind, try. rewrite Hg, Join_accounts.
  rewrite ReadDir_run. unfold is_multi_account.
  destruct (fs_lookup (fs s1) (accounts_dir d)) as [[data|]|].
  - by eexists.
  - apply (IsMultiAccount_loop_run _ _ (log _ s1)).
  - by eexists.
Qed.

Lemma ListAccounts_run (s s1 : Store) (d : path) :
  GetConfigDir s = (Ok d, s1) ->
  exists s', ListAccounts s = (list_accounts (fs s1) d, s')
             /\ fs s' = fs s1 /\ config_root s' = config_root s1.
Proof.
  intros Hg. unfold ListAccounts, bind, try. rewrite Hg, Join_accounts.
  rewrite ReadDir_run. unfold list_accounts.
  destruct (fs_lookup (fs s1) (accounts_dir d)) as [[data|]|].
  - by eexists.
  - apply (ListAccounts_loop_run _ _ [] (log _ s1)).
  - by eexists.
Qed.

(** The listing leaves the environment alone. *)
Lemma ListAccounts_loop_env (acc : path) (entries : list os.DirEntry)
    (accounts : list string) (s : Store) :
  same_env s (snd (ListAccounts_loop acc entries accounts s)).
Proof.
  revert accounts s. induction entries as [|e entries IH]; intros accounts s.
  - done.
  - cbn [ListAccounts_loop]. destruct (os.IsDir e); [|apply IH].
    unfold bind, try. rewrite Stat_run.
    destruct (fs_lookup (fs s) _) as [n|];
      match goal with |- same_env _ (snd (ListAccounts_loop _ _ ?a ?s1)) =>
        apply (IH a s1)
      end.
Qed.

Lemma ListAccounts_env (s : Store) : same_env s (snd (ListAccounts s)).
Proof.
  unfold ListAccounts, bind, try. rewrite GetConfigDir_run.
  destruct (config_root s) as [d|]; [|done].
  destruct (os.mkdir_all _ _) as [t|e]; [|done].
  rewrite Join_accounts, ReadDir_run. cbn [fs set_fs log].
  destruct (fs_lookup t (accounts_dir d)) as [[data|]|]; [done| |done].
  match goal with |- same_env _ (snd (ListAccounts_loop _ _ ?a ?s1)) =>
    apply (ListAccounts_loop_env _ _ a s1)
  end.
Qed.

(** The results, from the files at the call. *)
Lemma IsMultiAccount_result (s : Store) :
  fst (IsMultiAccount s) =
    match fst (GetConfigDir s) with
    | Ok d => is_multi_account (fs s) d
    | Err e => Err e
    end.
Proof.
  destruct (GetConfigDir s) as [[d|e] s1] eqn:Hg.
  - destruct (IsMultiAccount_run _ _ _ Hg) as (s' & -> & _).
    apply GetConfigDir_inv in Hg as (_ & _ & Hm & _).
    apply is_multi_account_ext. by apply mkdir_all_agree_below.
  - unfold IsMultiAccount, bind. by rewrite Hg.
Qed.

Lemma ListAccounts_result (s : Store) :
  fst (ListAccounts s) =
    match fst (GetConfigDir s) with
    | Ok d => list_accounts (fs s) d
    | Err e => Err e
    end.
Proof.
  destruct (GetConfigDir s) as [[d|e] s1] eqn:Hg.
  - destruct (ListAccounts_run _ _ _ Hg) as (s' & -> & _).
    apply GetConfigDir_inv in Hg as (_ & _ & Hm & _).
    apply list_accounts_ext. by apply mkdir_all_agree_below.
  - unfold ListAccounts, bind. by rewrite Hg.
Qed.

Lemma wf_entry_valid (t : FS) (q : path) (c : string) (n : node) :
  fs_wf t -> t !! (q ++ [c]) = Some n -> valid_name c.
Proof.
  intros Hwf Hc. destruct (Hwf _ _ Hc) as [Hv _].
  rewrite Forall_forall in Hv. apply Hv.
  apply elem_of_app. right. by apply list_elem_of_singleton.
Qed.

(** An account, in a directory tree: a subdirectory of [accounts/]
    with an entry [token.json]. *)
Lemma existsb_has_token (t : FS) (d : path) :
  fs_wf t ->
  existsb (has_token t (accounts_dir d)) (os.read_dir t (accounts_dir d)) = true
  <-> exists c, t !! (accounts_dir d ++ [c]) = Some Dir
             /\ is_Some (t !! (accounts_dir d ++ [c; TokenFileName])).
Proof.
  intros Hwf. rewrite existsb_exists. split.
  - intros (e & He & Ht). apply list_elem_of_In, elem_of_read_dir in He
      as (c & [n Hc] & ->).
    pose proof (wf_entry_valid _ _ _ _ Hwf Hc) as Hv.
    unfold has_token, os.dir_entry in Ht. cbn in Ht.
    apply andb_true_iff in Ht as [Hd Hs].
    apply bool_decide_eq_true in Hd. apply bool_decide_eq_true in Hs.
    exists c. split; [done|].
    unfold filepath_Join in Hs.
    rewrite filter_cons_True, filter_cons_True, filter_nil in Hs
      by (done || apply valid_TokenFileName).
    by destruct (accounts_dir d).
  - intros (c & Hc & Ht).
    exists (os.dir_entry t (accounts_dir d) c). split.
    + apply list_elem_of_In, elem_of_read_dir. by exists c.
    + pose proof (wf_entry_valid _ _ _ _ Hwf Hc) as Hv.
      unfold has_token, os.dir_entry. cbn.
      rewrite bool_decide_eq_true_2 by done. cbn.
      apply bool_decide_eq_true. unfold filepath_Join.
      rewrite filter_cons_True, filter_cons_True, filter_nil
        by (done || apply valid_TokenFileName).
      by destruct (accounts_dir d).
Qed.

(** What [IsMultiAccount] tests.  In a directory tree where the
    configuration directory can be made, it returns [true] exactly when
    [accounts/] is a directory with a subdirectory that has an entry
    [token.json]: the entry is only looked for with [os.Stat], it is not
    read.  It returns [false], without error, when [accounts/] does not
    exist, when it has no entry, and when none of its subdirectories has
    a [token.json]. *)
Lemma IsMultiAccount_stat (s : Store) (d : path) :
  fs_wf (fs s) ->
  config_root s = Some d ->
  dir_makeable (fs s) d ->
  let accountsDir := accounts_dir d in
  let r := fst (IsMultiAccount s) in
  (r = Ok true <->
     fs s !! accountsDir = Some Dir
     /\ exists c, fs s !! (accountsDir ++ [c]) = Some Dir
               /\ is_Some (fs s !! (accountsDir ++ [c; TokenFileName])))
  /\ (fs s !! accountsDir = None -> r = Ok false)
  /\ (fs s !! accountsDir = Some Dir ->
      (forall c, fs s !! (accountsDir ++ [c]) = None) -> r = Ok false)
  /\ (fs s !! accountsDir = Some Dir ->
      (forall c, fs s !! (accountsDir ++ [c]) = Some Dir ->
                 fs s !! (accountsDir ++ [c; TokenFileName]) = None) ->
      r = Ok false).
Proof.
  intros Hwf Hr Hm accountsDir r.
  destruct (GetConfigDir_ok s d Hr Hm) as [s1 Hg].
  assert (r = is_multi_account (fs s) d) as ->.
  { unfold r. by rewrite IsMultiAccount_result, Hg. }
  unfold is_multi_account. fold accountsDir.
  assert (fs_lookup (fs s) accountsDir = fs s !! accountsDir) as Hl
    by apply fs_lookup_snoc.
  rewrite Hl.
  pose proof (existsb_has_token (fs s) d Hwf) as Hex. fold accountsDir in Hex.
  destruct (existsb _ _) eqn:Eb.
  - destruct Hex as [(c & Hc & Ht) _]; [done|].
    destruct (Hwf _ _ Hc) as [_ Hp]. rewrite parent_snoc, Hl in Hp.
    rewrite Hp. split_and!.
    + split; [|done]. intros _. split; [done|]. by exists c.
    + done.
    + intros _ Hn. by rewrite Hn in Hc.
    + intros _ Hn. apply Hn in Hc. rewrite Hc in Ht. by destruct Ht.
  - assert (~ exists c, fs s !! (accountsDir ++ [c]) = Some Dir
             /\ is_Some (fs s !! (accountsDir ++ [c; TokenFileName]))) as Hno.
    { intros Hc. by apply Hex in Hc. }
    destruct (fs s !! accountsDir) as [[data|]|]; split_and!; try done.
    + split; [done|]. by intros [? _].
    + split; [done|]. by intros [_ ?].
    + split; [done|]. by intros [? _].
Qed.

End listing_facts.

(** ** The empty account *)

Section empty_account.
Import registry.
Context {Ext ClientOption Svc : Type}.
Variable GetClientOptionsForAccount :
  string -> list string -> M (Store * Ext) (list ClientOption).
Variable New : service -> list ClientOption -> M (Store * Ext) Svc.

Local Abbreviation Resolve := (registry.Resolve GetClientOptionsForAccount New).
Local Abbreviation World := (@registry.World Ext Svc).

Lemma select_account_empty (r : Registry) (w : World) :
  select_account "" (r, w) =
    (match fst (auth.ListAccounts (fst (outside w))) with
     | Err err => Err (Wrapf "failed to list accounts: %w" [] err)
     | Ok [] => Err (ErrorString no_accounts_message)
     | Ok [a] => Ok a
     | Ok accounts => Err (ErrorString (multiple_accounts_message accounts))
     end, (r, after_listing w)).
Proof.
  unfold select_account, after_listing. rewrite decide_True by done.
  unfold bind, try, on_world, registry.on_store, on_outside, zoom, fail, ret.
  cbn [fst snd].
  destruct (auth.ListAccounts (fst (outside w))) as [[l|e] st]; cbn [fst snd];
    [|done].
  by destruct l as [|a [|b l]].
Qed.

(** With a single account listed, the call goes on as a call for that
    account. *)
Lemma Resolve_empty_one (r : Registry) (w : World) (X : string) :
  multiAccount r = true -> X <> "" ->
  fst (auth.ListAccounts (fst (outside w))) = Ok [X] ->
  Resolve "" (r, w) = Resolve X (r, after_listing w).
Proof.
  intros Hm HX Hl. unfold registry.Resolve, bind, gets. cbn [fst snd].
  rewrite Hm. cbn [negb]. rewrite select_account_empty, Hl.
  unfold select_account. by rewrite decide_False by done.
Qed.

(** A name that [ListAccounts] returns is the name of an entry of
    [accounts/]. *)
Lemma list_accounts_entry (t : FS) (d : path) (l : list string) (a : string) :
  auth.list_accounts t d = Ok l -> a ∈ l ->
  is_Some (t !! (auth.accounts_dir d ++ [a])).
Proof.
  unfold auth.list_accounts.
  destruct (fs_lookup t _) as [[?|]|]; [done| |by intros [= <-] ?%elem_of_nil].
  intros [= <-] (e & -> & He)%list_elem_of_fmap.
  apply list_elem_of_In, filter_In in He as [He _].
  apply list_elem_of_In, elem_of_read_dir in He as (c & Hc & ->). done.
Qed.

(** In a directory tree, a listing that finds an account changes no
    file. *)
Lemma ListAccounts_reads_only (s : Store) (l : list string) (a : string) :
  fs_wf (fs s) -> fst (auth.ListAccounts s) = Ok l -> a ∈ l ->
  a <> "" /\ fs (snd (auth.ListAccounts s)) = fs s.
Proof.
  intros Hwf Hl Ha.
  destruct (auth.GetConfigDir s) as [[d|e] s1] eqn:Hg.
  2: { unfold auth.ListAccounts, bind in Hl. by rewrite Hg in Hl. }
  pose proof (ListAccounts_result s) as Hres. rewrite Hg, Hl in Hres.
  cbn [fst] in Hres. symmetry in Hres.
  destruct (list_accounts_entry _ _ _ _ Hres Ha) as [n Hn].
  split; [by apply (wf_entry_valid _ _ _ _ Hwf Hn)|].
  destruct (Hwf _ _ Hn) as [_ Hacc]. rewrite parent_snoc in Hacc.
  unfold auth.accounts_dir in Hacc. rewrite fs_lookup_snoc in Hacc.
  destruct (Hwf _ _ Hacc) as [_ Hd]. rewrite parent_snoc in Hd.
  destruct (ListAccounts_run _ _ _ Hg) as (s' & -> & Hfs & _). cbn [snd].
  rewrite Hfs. apply GetConfigDir_inv in Hg as (_ & _ & Hm & _).
  rewrite mkdir_all_exists in Hm by done. by injection Hm.
Qed.

(** C3.  In multi-account mode, with the credential store a directory
    tree, [Resolve] with the empty account goes by what [ListAccounts]
    returns.  No account: it fails with the no-accounts error.  One
    account [X]: it is the call [Resolve X] made after the listing, which
    has changed neither a file nor the environment (the world differs in
    the trace of reads only); it returns the cached set of [X] when there
    is one, as [Resolve X] does, and what it returns is what a following
    [Resolve X] returns.  Two or more: it fails with the
    multiple-accounts error, whose message contains every listed name. *)
Theorem Resolve_empty_account (r : Registry) (w : World) :
  multiAccount r = true ->
  fs_wf (fs (fst (outside w))) ->
  let listed := fst (auth.ListAccounts (fst (outside w))) in
  (listed = Ok [] ->
     Resolve "" (r, w)
     = (Err (ErrorString no_accounts_message), (r, after_listing w)))
  /\ (forall X, listed = Ok [X] ->
        Resolve "" (r, w) = Resolve X (r, after_listing w)
        /\ fs (fst (outside (after_listing w))) = fs (fst (outside w))
        /\ same_env (fst (outside w)) (fst (outside (after_listing w)))
        /\ (forall ss, accounts r !! X = Some ss ->
              fst (Resolve "" (r, w)) = Ok ss
              /\ fst (Resolve X (r, w)) = Ok ss)
        /\ (forall ss rw1, Resolve "" (r, w) = (Ok ss, rw1) ->
              Resolve X rw1 = (Ok ss, rw1)))
  /\ (forall accounts, listed = Ok accounts -> 2 <= length accounts ->
        Resolve "" (r, w)
        = (Err (ErrorString (multiple_accounts_message accounts)),
           (r, after_listing w))
        /\ forall a, a ∈ accounts ->
             Contains (multiple_accounts_message accounts) a = true).
Proof.
  intros Hm Hwf listed. subst listed. split_and!.
  - intros Hl. unfold registry.Resolve, bind, gets. cbn [fst snd].
    rewrite Hm. cbn [negb]. by rewrite select_account_empty, Hl.
  - intros X Hl.
    destruct (ListAccounts_reads_only _ [X] X Hwf Hl) as [HX Hfs];
      [by apply list_elem_of_singleton|].
    pose proof (Resolve_empty_one r w X Hm HX Hl) as Heq.
    split_and!; [done|done|apply ListAccounts_env| |].
    + intros ss Hss. rewrite Heq.
      by rewrite !(Resolve_hit _ _ _ _ _ ss).
    + intros ss [r1 w1]. rewrite Heq. intros H1.
      destruct (Resolve_ok_cached _ _ _ _ _ _ _ Hm HX H1) as (Hc & Hm1 & _).
      by apply Resolve_hit.
  - intros l Hl Hlen. split.
    + unfold registry.Resolve, bind, gets. cbn [fst snd].
      rewrite Hm. cbn [negb]. rewrite select_account_empty, Hl.
      destruct l as [|a [|b l]]; [simpl in Hlen; lia..|done].
    + intros a Ha. unfold multiple_accounts_message.
      by apply Contains_app_r, Contains_fmt_v.
Qed.

End empty_account.

(** ** The login flow *)

Section login_facts.
Import auth.
Context `{JSON} `{OAuth}.

(** A successful [SaveToken]: the encoded token is in [token.json] of
    the configuration directory; besides that file, only missing
    directories on the way to the configuration directory were made. *)
Lemma SaveToken_inv (token : Token) (st st' : Store) :
  SaveToken token st = (Ok tt, st') ->
  exists d b,
    config_root st = Some d /\ config_root st' = Some d
    /\ json_Marshal token = Ok b
    /\ fs st' !! (d ++ [TokenFileName]) = Some (File b)
    /\ fs_lookup (fs st') d = Some Dir
    /\ is_ok (fst (GetConfigDir st)) = true
    /\ (forall q, q <> d ++ [TokenFileName] -> ~ q `prefix_of` d ->
                  fs st' !! q = fs st !! q).
Proof.
  unfold SaveToken, bind.
  destruct (GetConfigDir st) as [[d|e] s1] eqn:Hg; [|done].
  destruct (GetConfigDir_inv _ _ _ Hg) as (Hr & Hr1 & Hm & Hd).
  rewrite Join_one by apply valid_TokenFileName.
  unfold os.Create. cbn [fs log].
  assert (d ++ [TokenFileName] <> d) as Hne by by apply app_ne_self.
  destruct (decide (fs s1 !! (d ++ [TokenFileName]) = Some Dir)) as [Hdir|Hnd].
  { by rewrite open_write_dir. }
  rewrite open_write_ok by done.
  unfold json_Encode. destruct (json_Marshal token) as [b|e]; [|done].
  unfold os.Write. cbn [fs log set_fs]. rewrite lookup_insert_eq.
  intros [= <-]. exists d, b. cbn [fs set_fs].
  rewrite !fs_lookup_insert_ne by done. rewrite lookup_insert_eq.
  split_and!; [done|by destruct s1|done..|].
  intros q Hq Hp. rewrite !lookup_insert_ne by done.
  apply (mkdir_all_frame _ _ _ _ Hm). by rewrite rev_involutive.
Qed.


(** [SaveSecrets], whatever its outcome, writes at most the shared
    secrets file. *)
Lemma SaveSecrets_frame (srcPath : path) (st : Store) (d : path) :
  config_root st = Some d -> fs_lookup (fs st) d = Some Dir ->
  config_root (snd (SaveSecrets srcPath st)) = Some d
  /\ fs_lookup (fs (snd (SaveSecrets srcPath st))) d = Some Dir
  /\ forall q, q <> d ++ [SecretsFileName] ->
               fs (snd (SaveSecrets srcPath st)) !! q = fs st !! q.
Proof.
  intros Hr Hd. unfold SaveSecrets, bind. rewrite ReadFile_run.
  destruct (fs_lookup (fs st) srcPath) as [[content|]|]; [|done..].
  destruct (GetConfigDir_exists (log (OpReadFile srcPath) st) d)
    as (s1 & -> & Hfs & Hr1); [done..|].
  cbn [fs log] in Hfs.
  rewrite Join_one by apply valid_SecretsFileName.
  unfold os.WriteFile. cbn [fs log].
  assert (d ++ [SecretsFileName] <> d) as Hne by by apply app_ne_self.
  destruct (decide (fs s1 !! (d ++ [SecretsFileName]) = Some Dir)) as [Hdir|Hnd].
  - rewrite open_write_dir by (done || by rewrite Hfs).
    cbn [snd fs log]. rewrite Hfs. by destruct s1.
  - rewrite open_write_ok by (done || by rewrite Hfs).
    cbn [snd fs set_fs log]. rewrite fs_lookup_insert_ne, Hfs by done.
    split_and!; [by destruct s1|done|].
    intros q Hq. by rewrite lookup_insert_ne.
Qed.



(** C9, what the code does.  When the caller's context ends before a
    request has reached the callback route, [Login] returns the context's
    error and the credential store is untouched, so no token is written;
    but the listener is left listening: this return path never calls
    [Shutdown]. *)
Theorem Login_cancelled_leaves_listener (rand32 : result string)
    (clientSecrets : string) (scopes : list string) (err : error)
    (s : LoginState) (config : Config) (stateToken : string) :
  ConfigFromJSON clientSecrets scopes = Ok config ->
  generateStateToken rand32 = Ok stateToken ->
  exists s',
    Login rand32 (ContextDone err) clientSecrets scopes s = (Err err, s')
    /\ store s' = store s
    /\ listener s' = Listening.
Proof.
  intros Hc Ht. unfold Login. rewrite Hc, Ht.
  unfold bind, ListenAndServe, Println, modify, select, fail.
  cbn [store listener stdout set_listener].
  by eexists.
Qed.

Section command_facts.
Variable abs : string -> path.
Variable rand32 : result string.
Variable event : login_event.

Local Abbreviation handleAuthCommand :=
  (main.handleAuthCommand abs rand32 event).




End command_facts.

End login_facts.

(** ** The properties at work in the example world *)

(** Checking by computation that a store is a directory tree, and that
    a directory can be made. *)
Lemma fs_wf_check (t : FS) :
  bool_decide (map_Forall (fun p _ =>
      Forall valid_name p /\ fs_lookup t (parent p) = Some Dir) t) = true ->
  fs_wf t.
Proof. intros Hb%bool_decide_eq_true p n Hp. exact (Hb p n Hp). Qed.

Lemma dir_makeable_check (t : FS) (p : path) :
  forallb (fun n => match t !! take n p with
                    | Some (File _) => false
                    | _ => true
                    end) (seq 0 (S (length p))) = true ->
  dir_makeable t p.
Proof.
  intros Hb q data Hq Hf. rewrite forallb_forall in Hb.
  specialize (Hb (length q)).
  assert (take (length q) p = q) as Ht.
  { destruct Hq as [k ->]. by rewrite take_app_length. }
  rewrite Ht, Hf in Hb. enough (false = true) by done. apply Hb.
  apply in_seq. apply prefix_length in Hq. lia.
Qed.

Lemma Resolve_constructs_once_witness :
  let Resolve := registry.Resolve example.GetClientOptionsForAccount example.New in
  let rw0 := (example.multi, example.world example.fresh_store) in
  exists p rw1,
    Resolve "a@example.com" rw0 = (Ok p, rw1)
    /\ Resolve "a@example.com" rw1 = (Ok p, rw1)
    /\ registry.constructions (snd rw1) = 1.
Proof.
  intros Resolve rw0.
  destruct (Resolve "a@example.com" rw0) as [[p1|e1] rw1] eqn:H1;
    [|by vm_compute in H1].
  destruct (Resolve "a@example.com" rw1) as [[p2|e2] rw2] eqn:H2.
  - destruct (Resolve_constructs_once _ _ "a@example.com" example.multi
      (example.world example.fresh_store) p1 rw1 p2 rw2 eq_refl eq_refl H1 H2)
      as (-> & -> & Hn & _).
    exists p1, rw1. split_and!; [done..|]. by apply Hn.
  - exfalso. injection H1 as <- <-. by vm_compute in H2.
Defined.

Lemma Resolve_failure_not_cached_witness :
  let Resolve := registry.Resolve example.no_credentials example.New in
  let w := example.world example.fresh_store in
  Resolve "a@example.com" (example.multi, w)
  = (Err (Wrapf "auth for account %q: %w" ["a@example.com"] (ExtError 2)),
     (example.multi, w)).
Proof.
  intros Resolve w.
  destruct (Resolve_failure_not_cached example.no_credentials example.New
    "a@example.com" example.multi w eq_refl) as [_ Hmiss].
  destruct (Hmiss ltac:(done) eq_refl) as (Hauth & _ & _).
  exact (Hauth (ExtError 2) (example.fresh_store, tt) eq_refl).
Defined.

Lemma Resolve_empty_account_witness :
  let Resolve := registry.Resolve example.GetClientOptionsForAccount example.New in
  let w := example.world example.one_account_store in
  Resolve "" (example.multi, w)
  = Resolve "a@example.com" (example.multi, registry.after_listing w).
Proof.
  intros Resolve w.
  destruct (Resolve_empty_account example.GetClientOptionsForAccount example.New
    example.multi w eq_refl) as (_ & Hone & _).
  { apply fs_wf_check. by vm_compute. }
  destruct (Hone "a@example.com") as [Heq _]; [by vm_compute|].
  exact Heq.
Defined.

Lemma unsafe_account_name_rejected_witness :
  @auth.LoadTokenForAccount example.json "../etc" example.fresh_store
  = (Err (auth.invalid_account_name "../etc"), example.fresh_store).
Proof.
  destruct (@unsafe_account_name_rejected example.json "../etc" "" ".." "/etc"
    example.fresh_store example.token ["tmp"; "secrets.json"])
    as (_ & _ & Hload & _).
  - by constructor.
  - reflexivity.
  - exact Hload.
Defined.

(** C5 as stated fails for [SaveSecretsForAccount]: on the name
    ["../etc"] and a source file that does not exist it returns the error
    of the read, not the validation error, and it has called the file
    system. *)
Lemma SaveSecretsForAccount_reads_before_validating :
  auth.validateAccountName "../etc" = Some (auth.invalid_account_name "../etc")
  /\ auth.SaveSecretsForAccount "../etc" ["tmp"; "secrets.json"] example.fresh_store
     <> (Err (auth.invalid_account_name "../etc"), example.fresh_store)
  /\ auth.SaveSecretsForAccount "../etc" ["tmp"; "secrets.json"] example.fresh_store
     = (Err (PathError "open" ["tmp"; "secrets.json"] ENOENT),
        log (OpReadFile ["tmp"; "secrets.json"]) example.fresh_store).
Proof. split_and!; [reflexivity|discriminate|reflexivity]. Qed.

Lemma Login_cancelled_leaves_listener_witness :
  exists s',
    @auth.Login example.json example.oauth (Ok "0123456789abcdef0123456789abcdef")
      (auth.ContextDone (ErrorString "context canceled")) "{}" main.login_scopes
      example.login_state
    = (Err (ErrorString "context canceled"), s')
    /\ auth.store s' = example.login_store
    /\ auth.listener s' = auth.Listening.
Proof.
  apply (@Login_cancelled_leaves_listener example.json example.oauth
           (Ok "0123456789abcdef0123456789abcdef") "{}" main.login_scopes
           (ErrorString "context canceled") example.login_state
           "{}" "0123456789abcdef0123456789abcdef"); reflexivity.
Defined.


(** ** More on the credential store *)

Section store_round_trips.
Import auth.
Context `{JSON}.

(** [SaveToken] succeeds when the configuration directory can be made
    and [token.json] is not a directory, and leaves the encoded token
    there. *)
Lemma SaveToken_saves (token : Token) (b : string) (s : Store) (d : path) :
  json_Marshal token = Ok b ->
  config_root s = Some d ->
  dir_makeable (fs s) d ->
  fs s !! (d ++ [TokenFileName]) <> Some Dir ->
  exists s1,
    SaveToken token s = (Ok tt, s1)
    /\ config_root s1 = Some d
    /\ fs_lookup (fs s1) d = Some Dir
    /\ fs s1 !! (d ++ [TokenFileName]) = Some (File b).
Proof.
  intros Henc Hr Hm Hnd.
  destruct (GetConfigDir_ok s d Hr Hm) as [s0 Hg].
  destruct (GetConfigDir_inv _ _ _ Hg) as (_ & Hr0 & Hmk & Hd0).
  assert (d ++ [TokenFileName] <> d) as Hne by by apply app_ne_self.
  assert (fs s0 !! (d ++ [TokenFileName]) <> Some Dir) as Hnd0.
  { rewrite (mkdir_all_frame _ _ _ _ Hmk); [done|].
    rewrite rev_involutive. apply prefix_snoc_ne. }
  unfold SaveToken, bind. rewrite Hg.
  rewrite Join_one by apply valid_TokenFileName.
  unfold os.Create. cbn [fs log]. rewrite open_write_ok by done.
  unfold json_Encode. rewrite Henc. unfold os.Write. cbn [fs log set_fs].
  rewrite lookup_insert_eq.
  eexists. split; [reflexivity|]. cbn [fs set_fs].
  rewrite !fs_lookup_insert_ne by done. rewrite lookup_insert_eq.
  by destruct s0.
Qed.

Lemma LoadToken_loads (token : Token) (b : string) (s : Store) (d : path) :
  json_Unmarshal b = Ok token ->
  config_root s = Some d ->
  fs_lookup (fs s) d = Some Dir ->
  fs s !! (d ++ [TokenFileName]) = Some (File b) ->
  exists s2, LoadToken s = (Ok token, s2).
Proof.
  intros Hdec Hr Hd Hb.
  destruct (GetConfigDir_exists s d Hr Hd) as (s1 & Hg & Hfs & _).
  unfold LoadToken, bind. rewrite Hg.
  rewrite Join_one by apply valid_TokenFileName.
  unfold os.Open. cbn [fs log]. rewrite Hfs, fs_lookup_snoc, Hb.
  unfold json_Decode, bind, os.Read. cbn [fs log].
  rewrite Hfs, fs_lookup_snoc, Hb, Hdec. by eexists.
Qed.

(** X1.  The legacy token: for a token that the JSON encoder writes as
    [b] and the decoder reads back from [b], when the configuration
    directory can be made and [token.json] is not a directory,
    [SaveToken] succeeds whatever the file held before, and a following
    [LoadToken] returns the token. *)
Theorem legacy_token_round_trip (token : Token) (b : string) (s : Store)
    (d : path) :
  json_Marshal token = Ok b ->
  json_Unmarshal b = Ok token ->
  config_root s = Some d ->
  dir_makeable (fs s) d ->
  fs s !! (d ++ [TokenFileName]) <> Some Dir ->
  exists s1 s2,
    SaveToken token s = (Ok tt, s1) /\ LoadToken s1 = (Ok token, s2).
Proof.
  intros Henc Hdec Hr Hm Hnd.
  destruct (SaveToken_saves token b s d) as (s1 & Hs & Hr1 & Hd1 & Hb1);
    [done..|].
  destruct (LoadToken_loads token b s1 d) as [s2 Hl]; [done..|].
  by exists s1, s2.
Qed.

(** Writing a file into an existing directory, then what a read of any
    path sees. *)
Lemma WriteFile_run (q : path) (c data : string) (s : Store) :
  fs_lookup (fs s) q = Some Dir -> fs s !! (q ++ [c]) <> Some Dir ->
  os.WriteFile (q ++ [c]) data s
  = (Ok tt, set_fs (<[q ++ [c] := File data]> (fs s))
                   (log (OpWriteFile (q ++ [c])) s)).
Proof.
  intros Hq Hc. unfold os.WriteFile. cbn [fs log].
  by rewrite open_write_ok.
Qed.

(** X2.  The shared secrets: when the source is a regular file, the
    configuration directory can be made and [client_secrets.json] is not
    a directory, [SaveSecrets] succeeds and a following [LoadSecrets]
    returns the bytes of the source, unchanged. *)
Theorem legacy_secrets_round_trip (srcPath : path) (content : string)
    (s : Store) (d : path) :
  fs_lookup (fs s) srcPath = Some (File content) ->
  config_root s = Some d ->
  dir_makeable (fs s) d ->
  fs s !! (d ++ [SecretsFileName]) <> Some Dir ->
  exists s1,
    SaveSecrets srcPath s = (Ok tt, s1)
    /\ fst (LoadSecrets s1) = Ok content.
Proof.
  intros Hsrc Hr Hm Hnd.
  unfold SaveSecrets, bind. rewrite ReadFile_run, Hsrc.
  destruct (GetConfigDir_ok (log (OpReadFile srcPath) s) d Hr Hm) as [s0 Hg].
  rewrite Hg.
  destruct (GetConfigDir_inv _ _ _ Hg) as (_ & Hr0 & Hmk & Hd0).
  cbn [fs log] in Hmk.
  assert (d ++ [SecretsFileName] <> d) as Hne by by apply app_ne_self.
  rewrite Join_one by apply valid_SecretsFileName.
  rewrite WriteFile_run; [|done|].
  2: { rewrite (mkdir_all_frame _ _ _ _ Hmk); [done|].
       rewrite rev_involutive. apply prefix_snoc_ne. }
  eexists. split; [reflexivity|].
  unfold LoadSecrets, bind.
  match goal with |- context [GetConfigDir ?s1] =>
    destruct (GetConfigDir_exists s1 d) as (s3 & -> & Hfs & _)
  end.
  - by destruct s0.
  - cbn [fs set_fs]. by rewrite fs_lookup_insert_ne.
  - rewrite Join_one by apply valid_SecretsFileName.
    rewrite ReadFile_run, Hfs. cbn [fst fs set_fs].
    by rewrite fs_lookup_snoc, lookup_insert_eq.
Qed.

(** X3.  Secrets of an account: when the source is a regular file, the
    name is valid, the account directory can be made and its
    [client_secrets.json] is not a directory, [SaveSecretsForAccount]
    succeeds and a following [LoadSecretsForAccount] returns the bytes of
    the source, whatever the shared secrets file holds. *)
Theorem account_secrets_round_trip (account : string) (srcPath : path)
    (content : string) (s : Store) (d : path) :
  validateAccountName account = None ->
  fs_lookup (fs s) srcPath = Some (File content) ->
  config_root s = Some d ->
  dir_makeable (fs s) (account_dir d account) ->
  fs s !! (account_dir d account ++ [SecretsFileName]) <> Some Dir ->
  exists s1,
    SaveSecretsForAccount account srcPath s = (Ok tt, s1)
    /\ fst (LoadSecretsForAccount account s1) = Ok content.
Proof.
  intros Hv Hsrc Hr Hm Hnd.
  unfold SaveSecretsForAccount, bind. rewrite ReadFile_run, Hsrc.
  destruct (GetAccountDir_ok account (log (OpReadFile srcPath) s) d Hv Hr Hm)
    as [s0 Hg].
  rewrite Hg.
  destruct (GetAccountDir_inv _ _ _ _ Hv Hg)
    as (d' & Hr' & Hr0 & _ & Hd0 & Ha0 & Hframe & _).
  change (config_root s = Some d') in Hr'.
  assert (d' = d) as -> by congruence.
  cbn [fs log] in Hframe.
  pose proof (config_prefix_account_dir d account) as [k Hk].
  remember (account_dir d account) as a eqn:Ea.
  assert (a ++ [SecretsFileName] <> a) as Hne by by apply app_ne_self.
  assert (a ++ [SecretsFileName] <> d) as Hnd'.
  { rewrite Hk, <- app_assoc. by apply app_ne_self; destruct k. }
  rewrite Join_one by apply valid_SecretsFileName.
  rewrite WriteFile_run; [|done|].
  2: { rewrite Hframe; [done|]. apply prefix_snoc_ne. }
  eexists. split; [reflexivity|].
  unfold LoadSecretsForAccount, bind, try.
  match goal with |- context [GetAccountDir account ?s1] =>
    destruct (GetAccountDir_exists account s1 d Hv) as (s3 & -> & Hfs & _)
  end.
  - by destruct s0.
  - cbn [fs set_fs]. by rewrite fs_lookup_insert_ne.
  - cbn [fs set_fs]. rewrite <- Ea. by rewrite fs_lookup_insert_ne.
  - rewrite Join_one by apply valid_SecretsFileName.
    rewrite ReadFile_run, Hfs, <- Ea. cbn [fst fs set_fs].
    by rewrite fs_lookup_snoc, lookup_insert_eq.
Qed.

End store_round_trips.

(** ** The store stays a directory tree *)

Lemma fs_wf_tree (t : FS) : fs_wf t -> fs_tree t.
Proof. intros Hwf p n Hp. by destruct (Hwf p n Hp). Qed.

Lemma fs_tree_insert_dir (t : FS) (q : path) (c : string) :
  fs_tree t -> fs_lookup t q = Some Dir -> fs_tree (<[q ++ [c] := Dir]> t).
Proof.
  intros Ht Hq p n Hp.
  destruct (decide (p = q ++ [c])) as [->|Hne].
  - rewrite parent_snoc, fs_lookup_insert_ne; [done|].
    by apply app_ne_self.
  - rewrite lookup_insert_ne in Hp by done. apply Ht in Hp.
    destruct (decide (parent p = q ++ [c])) as [->|Hne'].
    + by rewrite fs_lookup_snoc, lookup_insert_eq.
    + by rewrite fs_lookup_insert_ne.
Qed.

Lemma fs_tree_insert_file (t : FS) (q : path) (c data : string) :
  fs_tree t -> fs_lookup t q = Some Dir -> t !! (q ++ [c]) <> Some Dir ->
  fs_tree (<[q ++ [c] := File data]> t).
Proof.
  intros Ht Hq Hnd p n Hp.
  destruct (decide (p = q ++ [c])) as [->|Hne].
  - rewrite parent_snoc, fs_lookup_insert_ne; [done|].
    by apply app_ne_self.
  - rewrite lookup_insert_ne in Hp by done. apply Ht in Hp.
    destruct (decide (parent p = q ++ [c])) as [Heq|Hne'].
    + rewrite Heq, fs_lookup_snoc in Hp. done.
    + by rewrite fs_lookup_insert_ne.
Qed.

Lemma mkdir_all_tree (rp : list string) (t t' : FS) :
  fs_tree t -> os.mkdir_all rp t = Ok t' -> fs_tree t'.
Proof.
  intros Ht. revert t'. induction rp as [|c rp IH]; intros t'.
  - cbn. by intros [= <-].
  - cbn [os.mkdir_all]. change (rev (c :: rp)) with (rev rp ++ [c]).
    rewrite fs_lookup_snoc.
    destruct (t !! (rev rp ++ [c])) as [[data|]|] eqn:Hp; [done| |].
    + by intros [= <-].
    + destruct (os.mkdir_all rp t) as [t1|e] eqn:H1; [|done].
      destruct (mkdir_all_inv _ _ _ H1) as [Hd _].
      unfold os.mkdir. rewrite parent_snoc, Hd, fs_lookup_snoc.
      destruct (t1 !! (rev rp ++ [c])); [done|].
      intros [= <-]. apply fs_tree_insert_dir; [by apply IH|done].
Qed.


(** ** What the listing holds *)

Section listing_extras.
Import auth.

Lemma StronglySorted_filter {A} (R : relation A) (f : A -> bool) (l : list A) :
  StronglySorted R l -> StronglySorted R (List.filter f l).
Proof.
  induction 1 as [|x l Hl IH Hx]; cbn [List.filter]; [constructor|].
  destruct (f x); [|done]. constructor; [done|].
  rewrite Forall_forall in Hx |- *. intros y Hy.
  apply Hx. apply list_elem_of_In in Hy. apply filter_In in Hy as [Hy _].
  by apply list_elem_of_In.
Qed.

Lemma NoDup_List_filter {A} (f : A -> bool) (l : list A) :
  NoDup l -> NoDup (List.filter f l).
Proof.
  intros Hl. apply NoDup_ListNoDup. apply List.NoDup_filter.
  by apply NoDup_ListNoDup.
Qed.

(** The names of the entries that [ListAccounts] keeps, as a filter on
    the sorted names of [accounts/]. *)
Lemma list_accounts_names (t : FS) (d : path) :
  os.Name <$> List.filter (has_token t (accounts_dir d))
                          (os.read_dir t (accounts_dir d))
  = List.filter (fun c => has_token t (accounts_dir d)
                            (os.dir_entry t (accounts_dir d) c))
      (merge_sort String.le (elements (entry_names t (accounts_dir d)))).
Proof.
  unfold os.read_dir.
  induction (merge_sort _ _) as [|c l IH]; [done|].
  cbn [fmap list_fmap List.filter].
  change (list_fmap _ _ (os.dir_entry t (accounts_dir d)) l)
    with (os.dir_entry t (accounts_dir d) <$> l).
  destruct (has_token _ _ _); cbn [fmap list_fmap]; by rewrite <- IH.
Qed.

Lemma elem_of_list_accounts (t : FS) (d : path) (l : list string) (a : string) :
  fs_lookup t (accounts_dir d) = Some Dir ->
  list_accounts t d = Ok l ->
  a ∈ l <->
  t !! (accounts_dir d ++ [a]) = Some Dir
  /\ is_Some (fs_lookup t (filepath_Join (accounts_dir d) [a; TokenFileName])).
Proof.
  intros Hacc. unfold list_accounts. rewrite Hacc. intros [= <-].
  rewrite list_accounts_names, list_elem_of_In, filter_In, <- list_elem_of_In.
  rewrite merge_sort_Permutation, elem_of_elements, elem_of_entry_names.
  unfold has_token, os.dir_entry. cbn [os.IsDir os.Name].
  rewrite andb_true_iff, !bool_decide_eq_true. split.
  - by intros (_ & ? & ?).
  - intros [Hd Ht]. split_and!; [by rewrite Hd|done..].
Qed.

Lemma list_accounts_sorted (t : FS) (d : path) (l : list string) :
  list_accounts t d = Ok l -> StronglySorted String.le l /\ NoDup l.
Proof.
  unfold list_accounts.
  destruct (fs_lookup t _) as [[?|]|]; [done| |].
  - intros [= <-]. rewrite list_accounts_names. split.
    + apply StronglySorted_filter, StronglySorted_merge_sort; apply _.
    + apply NoDup_List_filter. rewrite merge_sort_Permutation.
      apply NoDup_elements.
  - intros [= <-]. split; constructor.
Qed.

(** X4.  In a directory tree whose configuration directory can be made,
    [ListAccounts] returns no error and the empty list when [accounts/]
    does not exist; when it is a directory it returns exactly the names
    of its subdirectories that have an entry [token.json], each once, in
    increasing order of name; when it is a regular file it fails. *)
Theorem ListAccounts_lists (s : Store) (d : path) :
  fs_wf (fs s) ->
  config_root s = Some d ->
  dir_makeable (fs s) d ->
  let accountsDir := accounts_dir d in
  let r := fst (ListAccounts s) in
  (fs s !! accountsDir = None -> r = Ok [])
  /\ (fs s !! accountsDir = Some Dir ->
      exists l, r = Ok l
        /\ (forall a, a ∈ l <->
              fs s !! (accountsDir ++ [a]) = Some Dir
              /\ is_Some (fs s !! (accountsDir ++ [a; TokenFileName])))
        /\ StronglySorted String.le l /\ NoDup l)
  /\ (forall data, fs s !! accountsDir = Some (File data) ->
      r = Err (PathError "readdirent" accountsDir ENOTDIR)).
Proof.
  intros Hwf Hr Hm accountsDir r.
  destruct (GetConfigDir_ok s d Hr Hm) as [s1 Hg].
  assert (r = list_accounts (fs s) d) as ->.
  { unfold r. by rewrite ListAccounts_result, Hg. }
  assert (fs_lookup (fs s) accountsDir = fs s !! accountsDir) as Hl
    by apply fs_lookup_snoc.
  split_and!.
  - intros Hn. unfold list_accounts. fold accountsDir. by rewrite Hl, Hn.
  - intros Hd. rewrite <- Hl in Hd.
    destruct (list_accounts (fs s) d) as [l|e] eqn:El.
    2: { unfold list_accounts in El. fold accountsDir in El.
         by rewrite Hd in El. }
    exists l. split; [done|]. split; [|by apply (list_accounts_sorted (fs s) d)].
    intros a. rewrite (elem_of_list_accounts _ d l a Hd El).
    fold accountsDir. split; intros [Ha Ht]; (split; [done|]).
    + pose proof (wf_entry_valid _ _ _ _ Hwf Ha) as Hv.
      unfold filepath_Join in Ht.
      rewrite filter_cons_True, filter_cons_True, filter_nil in Ht
        by (done || apply valid_TokenFileName).
      by destruct accountsDir.
    + pose proof (wf_entry_valid _ _ _ _ Hwf Ha) as Hv.
      unfold filepath_Join.
      rewrite filter_cons_True, filter_cons_True, filter_nil
        by (done || apply valid_TokenFileName).
      by destruct accountsDir.
  - intros data Hf. unfold list_accounts. fold accountsDir. by rewrite Hl, Hf.
Qed.

Lemma existsb_filter_nil {A} (f : A -> bool) (l : list A) :
  existsb f l = bool_decide (List.filter f l <> []).
Proof.
  induction l as [|x l IH]; [done|]. cbn [existsb List.filter].
  destruct (f x); [done|]. by rewrite IH.
Qed.

Lemma is_multi_account_list (t : FS) (d : path) :
  is_multi_account t d =
    match list_accounts t d with
    | Ok l => Ok (bool_decide (l <> []))
    | Err e => Err e
    end.
Proof.
  unfold is_multi_account, list_accounts.
  destruct (fs_lookup t _) as [[?|]|]; [done| |done].
  rewrite existsb_filter_nil. f_equal.
  apply bool_decide_ext. split.
  - intros Hne Heq. apply Hne. by apply fmap_nil_inv in Heq.
  - intros Hne Heq. apply Hne. by rewrite Heq.
Qed.

(** X5.  On every store, [IsMultiAccount] and [ListAccounts] agree:
    they fail with the same error, and otherwise [IsMultiAccount] is
    [true] exactly when the list of accounts is not empty. *)
Theorem IsMultiAccount_ListAccounts (s : Store) :
  fst (IsMultiAccount s) =
    match fst (ListAccounts s) with
    | Ok l => Ok (bool_decide (l <> []))
    | Err e => Err e
    end.
Proof.
  rewrite IsMultiAccount_result, ListAccounts_result.
  destruct (fst (GetConfigDir s)) as [d|e]; [|done].
  apply is_multi_account_list.
Qed.

End listing_extras.

(** ** Accounts side by side *)

Section account_extras.
Import auth.
Context `{JSON}.

Lemma GetAccountDir_tree (account : string) (s s2 : Store) (a : path) :
  validateAccountName account = None ->
  fs_tree (fs s) -> GetAccountDir account s = (Ok a, s2) -> fs_tree (fs s2).
Proof.
  intros Hv Ht. rewrite GetAccountDir_run by done.
  destruct (GetConfigDir s) as [[d|e] s1] eqn:Hc; [|done].
  apply GetConfigDir_inv in Hc as (_ & _ & Hm1 & _).
  destruct (os.mkdir_all _ (fs s1)) as [t|e] eqn:Hm; [|done].
  intros [= _ <-]. cbn [fs set_fs].
  apply (mkdir_all_tree _ _ _ (mkdir_all_tree _ _ _ Ht Hm1) Hm).
Qed.

Lemma account_dir_valid (d : path) (account : string) :
  valid_name account -> account_dir d account = accounts_dir d ++ [account].
Proof.
  intros Hv. unfold account_dir, accounts_dir, filepath_Join.
  rewrite filter_cons_True by apply valid_AccountsDirName.
  rewrite filter_cons_True by done. by rewrite filter_nil, <- app_assoc.
Qed.

Lemma account_dir_inj (d : path) (a b : string) :
  a <> "" -> b <> "" -> account_dir d a = account_dir d b -> a = b.
Proof.
  intros Ha Hb. unfold account_dir, filepath_Join.
  intros Heq%app_inv_head.
  rewrite !filter_cons_True in Heq by apply valid_AccountsDirName.
  injection Heq as Heq. revert Heq.
  destruct (decide (a = ".")) as [->|Ha'], (decide (b = ".")) as [->|Hb'];
    [done|..].
  - rewrite filter_cons_False by (by intros [_ ?]).
    by rewrite filter_cons_True by done.
  - rewrite filter_cons_True by done.
    by rewrite (filter_cons_False _ ".") by (by intros [_ ?]).
  - rewrite !filter_cons_True by done. by intros [= ->].
Qed.

(** What a successful [SaveTokenForAccount] has done. *)
Lemma SaveTokenForAccount_inv (account : string) (token : Token)
    (s s1 : Store) :
  validateAccountName account = None ->
  SaveTokenForAccount account token s = (Ok tt, s1) ->
  exists d b,
    config_root s = Some d /\ config_root s1 = Some d
    /\ json_Marshal token = Ok b
    /\ fs s1 !! (account_dir d account ++ [TokenFileName]) = Some (File b)
    /\ fs_lookup (fs s1) d = Some Dir
    /\ fs_lookup (fs s1) (account_dir d account) = Some Dir
    /\ (forall q, fs_lookup (fs s) q = Some Dir -> fs_lookup (fs s1) q = Some Dir)
    /\ (forall q n, fs_lookup (fs s) q = Some n ->
                    q <> account_dir d account ++ [TokenFileName] ->
                    fs_lookup (fs s1) q = Some n)
    /\ (fs_tree (fs s) -> fs_tree (fs s1)).
Proof.
  intros Hv. unfold SaveTokenForAccount, bind.
  destruct (GetAccountDir account s) as [[a|e] s0] eqn:Hg; [|done].
  pose proof (fun Ht => GetAccountDir_tree _ _ _ _ Hv Ht Hg) as Htree.
  destruct (GetAccountDir_inv _ _ _ _ Hv Hg)
    as (d & Hr & Hr0 & -> & Hd0 & Ha0 & Hframe & Hkeep).
  pose proof (config_prefix_account_dir d account) as [k Hk].
  remember (account_dir d account) as a eqn:Ea.
  rewrite Join_one by apply valid_TokenFileName.
  assert (a ++ [TokenFileName] <> d) as Hdp.
  { rewrite Hk, <- app_assoc. by apply app_ne_self; destruct k. }
  assert (a ++ [TokenFileName] <> a) as Hap by by apply app_ne_self.
  unfold os.Create. cbn [fs log].
  destruct (decide (fs s0 !! (a ++ [TokenFileName]) = Some Dir)) as [Hdir|Hnd].
  { by rewrite open_write_dir. }
  rewrite open_write_ok by done.
  unfold json_Encode. destruct (json_Marshal token) as [b|e]; [|done].
  unfold os.Write. cbn [fs log set_fs]. rewrite lookup_insert_eq.
  intros [= <-]. exists d, b. cbn [fs set_fs]. rewrite <- Ea.
  rewrite !fs_lookup_insert_ne by done. rewrite lookup_insert_eq.
  split_and!; [done|by destruct s0|done..| | |].
  - intros q Hq. apply Hkeep in Hq.
    rewrite !fs_lookup_insert_ne; [done|..];
      intros <-; rewrite fs_lookup_snoc in Hq; congruence.
  - intros q n Hq Hne. apply Hkeep in Hq.
    by rewrite !fs_lookup_insert_ne.
  - intros Ht. rewrite insert_insert_eq.
    apply fs_tree_insert_file; [by apply Htree|done..].
Qed.

Lemma LoadTokenForAccount_inv (account : string) (token : Token)
    (s s1 : Store) :
  validateAccountName account = None ->
  LoadTokenForAccount account s = (Ok token, s1) ->
  exists d b,
    config_root s = Some d
    /\ fs s !! (account_dir d account ++ [TokenFileName]) = Some (File b)
    /\ json_Unmarshal b = Ok token.
Proof.
  intros Hv. unfold LoadTokenForAccount, bind.
  destruct (GetAccountDir account s) as [[a|e] s0] eqn:Hg; [|done].
  destruct (GetAccountDir_inv _ _ _ _ Hv Hg)
    as (d & Hr & Hr0 & -> & Hd0 & Ha0 & Hframe & Hkeep).
  rewrite Join_one by apply valid_TokenFileName.
  unfold os.Open. cbn [fs log]. rewrite fs_lookup_snoc.
  destruct (fs s0 !! _) as [n|] eqn:Hn; [|done].
  unfold json_Decode, bind, os.Read. cbn [fs log].
  rewrite fs_lookup_snoc, Hn. destruct n as [b|]; [|done].
  destruct (json_Unmarshal b) as [t|e] eqn:Hu; [|done].
  intros [= <- _]. exists d, b. split_and!; [done| |done].
  rewrite <- Hframe; [done|]. apply prefix_snoc_ne.
Qed.

Lemma LoadToken_inv (token : Token) (s s1 : Store) :
  LoadToken s = (Ok token, s1) ->
  exists d b,
    config_root s = Some d
    /\ fs s !! (d ++ [TokenFileName]) = Some (File b)
    /\ json_Unmarshal b = Ok token.
Proof.
  unfold LoadToken, bind.
  destruct (GetConfigDir s) as [[d|e] s0] eqn:Hg; [|done].
  destruct (GetConfigDir_inv _ _ _ Hg) as (Hr & _ & Hm & _).
  rewrite Join_one by apply valid_TokenFileName.
  unfold os.Open. cbn [fs log]. rewrite fs_lookup_snoc.
  destruct (fs s0 !! _) as [n|] eqn:Hn; [|done].
  unfold json_Decode, bind, os.Read. cbn [fs log].
  rewrite fs_lookup_snoc, Hn. destruct n as [b|]; [|done].
  destruct (json_Unmarshal b) as [t|e] eqn:Hu; [|done].
  intros [= <- _]. exists d, b. split_and!; [done| |done].
  rewrite <- (mkdir_all_frame _ _ _ _ Hm); [done|].
  rewrite rev_involutive. apply prefix_snoc_ne.
Qed.

Lemma legacy_token_not_account_token (d : path) (account : string) :
  d ++ [TokenFileName] <> account_dir d account ++ [TokenFileName].
Proof.
  unfold account_dir, filepath_Join.
  rewrite filter_cons_True by apply valid_AccountsDirName.
  rewrite <- app_assoc. intros Heq%app_inv_head. by destruct (filter _ _).
Qed.

(** X7.  Accounts do not disturb one another.  In a directory tree,
    after [SaveTokenForAccount] has succeeded for a valid account, a
    token that [LoadTokenForAccount] returned for a different valid
    account is still returned, and so is a legacy token that [LoadToken]
    returned. *)
Theorem accounts_do_not_interfere (a b : string) (tokenA : Token)
    (s s1 : Store) :
  fs_tree (fs s) ->
  validateAccountName a = None ->
  validateAccountName b = None ->
  a <> b ->
  SaveTokenForAccount a tokenA s = (Ok tt, s1) ->
  (forall tokenB sB,
      LoadTokenForAccount b s = (Ok tokenB, sB) ->
      exists s2, LoadTokenForAccount b s1 = (Ok tokenB, s2))
  /\ (forall token sL,
      LoadToken s = (Ok token, sL) ->
      exists s2, LoadToken s1 = (Ok token, s2)).
Proof.
  intros Ht Hva Hvb Hab Hsave.
  destruct (SaveTokenForAccount_inv _ _ _ _ Hva Hsave)
    as (d & x & Hr & Hr1 & _ & _ & Hd1 & _ & Hdirs & Hkeep & _).
  split.
  - intros tokenB sB (d' & y & Hr' & Hy & Hu)%LoadTokenForAccount_inv; [|done].
    assert (d' = d) as -> by congruence.
    apply (LoadTokenForAccount_loads b tokenB y s1 d); [done..| |].
    + apply Hdirs. apply Ht in Hy. by rewrite parent_snoc in Hy.
    + rewrite <- fs_lookup_snoc. apply Hkeep; [by rewrite fs_lookup_snoc|].
      intros Heq%app_inj_tail. destruct Heq as [Heq _].
      apply account_dir_inj in Heq;
        [congruence|by apply validateAccountName_nonempty..].
  - intros token sL (d' & y & Hr' & Hy & Hu)%LoadToken_inv.
    assert (d' = d) as -> by congruence.
    apply (LoadToken_loads token y s1 d); [done..|].
    rewrite <- fs_lookup_snoc. apply Hkeep; [by rewrite fs_lookup_snoc|].
    apply legacy_token_not_account_token.
Qed.

(** X6.  Saving a token registers the account.  In a directory tree,
    after [SaveTokenForAccount] has succeeded for a valid account other
    than ".", [IsMultiAccount] answers [true], [ListAccounts] lists the
    account, and every account that [ListAccounts] listed before is
    still listed. *)
Theorem SaveTokenForAccount_registers (account : string) (token : Token)
    (s s1 : Store) :
  fs_tree (fs s) ->
  validateAccountName account = None ->
  account <> "." ->
  SaveTokenForAccount account token s = (Ok tt, s1) ->
  fst (IsMultiAccount s1) = Ok true
  /\ exists l,
       fst (ListAccounts s1) = Ok l
       /\ account ∈ l
       /\ forall l0, fst (ListAccounts s) = Ok l0 -> l0 ⊆ l.
Proof.
  intros Ht Hv Hdot Hsave.
  destruct (SaveTokenForAccount_inv _ _ _ _ Hv Hsave)
    as (d & x & Hr & Hr1 & _ & Hx & Hd1 & Ha1 & Hdirs & Hkeep & Ht1).
  specialize (Ht1 Ht).
  assert (valid_name account) as Hvn.
  { split; [by apply validateAccountName_nonempty|done]. }
  rewrite account_dir_valid in Hx, Ha1, Hkeep by done.
  assert (fs_lookup (fs s1) (accounts_dir d) = Some Dir) as Hacc.
  { rewrite fs_lookup_snoc in Ha1. apply Ht1 in Ha1.
    by rewrite parent_snoc in Ha1. }
  assert (filepath_Join (accounts_dir d) [account; TokenFileName]
          = (accounts_dir d ++ [account]) ++ [TokenFileName]) as Hj.
  { unfold filepath_Join. rewrite filter_cons_True by done.
    rewrite filter_cons_True by apply valid_TokenFileName.
    by rewrite filter_nil, <- app_assoc. }
  destruct (GetConfigDir_exists s1 d Hr1 Hd1) as (s2 & Hg1 & _).
  destruct (list_accounts (fs s1) d) as [l|e] eqn:Hl;
    [|by unfold list_accounts in Hl; rewrite Hacc in Hl].
  assert (account ∈ l) as Hin.
  { apply (elem_of_list_accounts (fs s1) d); [done..|].
    rewrite Hj, !fs_lookup_snoc, Hx, <- fs_lookup_snoc. eauto. }
  split.
  - rewrite IsMultiAccount_result, Hg1. cbn [fst].
    rewrite is_multi_account_list, Hl. f_equal.
    apply bool_decide_eq_true_2. intros ->. by apply not_elem_of_nil in Hin.
  - exists l. rewrite ListAccounts_result, Hg1. cbn [fst].
    split_and!; [done..|].
    intros l0. rewrite ListAccounts_result.
    destruct (GetConfigDir s) as [[d'|e] sx] eqn:Hg; [|done]. cbn [fst].
    apply GetConfigDir_inv in Hg as (Hr' & _).
    assert (d' = d) as -> by congruence.
    intros Hl0 a Ha.
    destruct (fs_lookup (fs s) (accounts_dir d)) as [[?|]|] eqn:Hacc0.
    + unfold list_accounts in Hl0. by rewrite Hacc0 in Hl0.
    + apply (elem_of_list_accounts (fs s) d) in Ha as [Hdir [n Hn]]; [|done..].
      apply (elem_of_list_accounts (fs s1) d); [done..|]. split.
      * rewrite <- fs_lookup_snoc. apply Hdirs. by rewrite fs_lookup_snoc.
      * destruct (decide (filepath_Join (accounts_dir d) [a; TokenFileName]
                          = (accounts_dir d ++ [account]) ++ [TokenFileName]))
          as [->|Hne].
        -- rewrite fs_lookup_snoc, Hx. eauto.
        -- exists n. by apply Hkeep.
    + unfold list_accounts in Hl0. rewrite Hacc0 in Hl0.
      injection Hl0 as <-. by apply not_elem_of_nil in Ha.
Qed.

(** X9.  [GetAccountDir] creates the account's directory on demand and
    nothing else: after a successful call the returned path is a
    directory, whatever existed still exists unchanged, anything new is
    a directory on the way to the returned path, and a second call
    returns the same path without changing any file. *)
Theorem GetAccountDir_creates_on_demand (account : string) (s s1 : Store)
    (a : path) :
  validateAccountName account = None ->
  GetAccountDir account s = (Ok a, s1) ->
  fs_lookup (fs s1) a = Some Dir
  /\ (forall q, fs s1 !! q = fs s !! q
                \/ (q `prefix_of` a /\ fs s !! q = None /\ fs s1 !! q = Some Dir))
  /\ exists s2, GetAccountDir account s1 = (Ok a, s2) /\ fs s2 = fs s1.
Proof.
  intros Hv Hg.
  destruct (GetAccountDir_inv _ _ _ _ Hv Hg)
    as (d & Hr & Hr1 & -> & Hd1 & Ha1 & _ & _).
  split_and!; [done| |].
  - revert Hg. rewrite GetAccountDir_run by done.
    destruct (GetConfigDir s) as [[d'|e] s0] eqn:Hc; [|done].
    apply GetConfigDir_inv in Hc as (Hr' & _ & Hm0 & _).
    assert (d' = d) as -> by congruence.
    destruct (os.mkdir_all _ (fs s0)) as [t|e] eqn:Hm; [|done].
    intros [= <-]. cbn [fs set_fs]. intros q.
    apply mkdir_all_inv in Hm0 as [_ H0], Hm as [_ H1].
    rewrite rev_involutive in H0, H1.
    destruct (H1 q) as [E1|(Hp1 & Hn1 & Hs1)], (H0 q) as [E0|(Hp0 & Hn0 & Hs0)].
    + left. congruence.
    + right. split_and!; [|done|congruence].
      etrans; [done|]. apply config_prefix_account_dir.
    + right. split_and!; [done|congruence|done].
    + congruence.
  - destruct (GetAccountDir_exists account s1 d Hv Hr1 Hd1 Ha1)
      as (s2 & Hg2 & Hfs & _).
    by exists s2.
Qed.

End account_extras.

(** ** Account names and [filepath.Join] *)

Section confinement.
Import auth.

Lemma Contains_char_cons (c c' : ascii) (s : string) :
  Contains (String c' s) (String c "") = false ->
  c <> c' /\ Contains s (String c "") = false.
Proof.
  cbn [Contains]. intros [Hp Hc]%orb_false_iff. split; [|done].
  intros ->. revert Hp. cbn. destruct (ascii_dec c' c'); [|done].
  by destruct s.
Qed.

Lemma IsPathSeparator_inv (windows : bool) (c : ascii) :
  filepath.IsPathSeparator windows c = true ->
  c = "/"%char \/ c = "\"%char.
Proof.
  unfold filepath.IsPathSeparator.
  intros [Hc|[Hc _]%andb_true_iff]%orb_true_iff;
    apply Ascii.eqb_eq in Hc; auto.
Qed.

Lemma split_plain (windows : bool) (s : string) :
  Contains s "/" = false -> Contains s "\" = false ->
  filepath.split windows s = [s].
Proof.
  induction s as [|c s IH]; [done|].
  intros [H1 H1']%Contains_char_cons [H2 H2']%Contains_char_cons.
  cbn [filepath.split].
  destruct (filepath.IsPathSeparator windows c) eqn:Hs.
  - apply IsPathSeparator_inv in Hs as [->| ->]; done.
  - by rewrite IH.
Qed.

(** X8.  A validated account name cannot leave the accounts directory.
    For a name that [validateAccountName] accepts, [filepath.Join] of
    the configuration directory, ["accounts"] and the name -- with the
    separators of either platform and [".."] resolved -- is the accounts
    directory itself when the name is ["."] and its entry of that name
    otherwise; it is the path [GetAccountDir] uses.  The name
    ["../" ++ x], which validation rejects, would reach [x] in the
    configuration directory. *)
Theorem validated_account_is_confined (windows : bool) (d : path)
    (account : string) :
  validateAccountName account = None ->
  filepath.Join windows d [AccountsDirName; account] = account_dir d account
  /\ account_dir d account =
       (if decide (account = ".") then accounts_dir d
        else accounts_dir d ++ [account])
  /\ forall x, validateAccountName x = None -> x <> "." ->
       validateAccountName ("../" +:+ x) <> None
       /\ filepath.Join windows d [AccountsDirName; "../" +:+ x] = d ++ [x].
Proof.
  intros Hv.
  assert (forall x, validateAccountName x = None ->
            x <> "" /\ x <> ".." /\ filepath.split windows x = [x]) as Hplain.
  { intros x Hx. unfold validateAccountName in Hx.
    case_decide as He; [done|].
    destruct (Contains x "..") eqn:H1; [done|].
    destruct (Contains x "/") eqn:H2; [done|].
    destruct (Contains x "\") eqn:H3; [done|].
    split_and!; [done| |by apply split_plain].
    intros ->. by rewrite Contains_refl in H1. }
  destruct (Hplain _ Hv) as (Hne & Hdd & Hsp).
  assert (account_dir d account =
          if decide (account = ".") then accounts_dir d
          else accounts_dir d ++ [account]) as Hdir.
  { case_decide as Hdot.
    - subst. unfold account_dir, accounts_dir, filepath_Join.
      rewrite filter_cons_True by apply valid_AccountsDirName.
      by rewrite filter_cons_False by (by intros [_ ?]).
    - by apply account_dir_valid. }
  split_and!; [|done|].
  - rewrite Hdir. unfold filepath.Join. cbn [flat_map].
    rewrite Hsp. cbn [filepath.split app fold_left].
    change (filepath.split windows AccountsDirName) with [AccountsDirName].
    cbn [app fold_left].
    change (filepath.clean_step d AccountsDirName) with (accounts_dir d).
    unfold filepath.clean_step.
    destruct (decide (account = ".")) as [->|Hdot].
    + by rewrite decide_True by by right.
    + rewrite !decide_False by tauto. done.
  - intros x Hx Hdot. destruct (Hplain _ Hx) as (Hxe & Hxd & Hxs). split.
    + rewrite (validateAccountName_forbidden _ "" ".." ("/" +:+ x)); [done| |done].
      by constructor.
    + unfold filepath.Join. cbn [flat_map].
      change (filepath.split windows AccountsDirName) with [AccountsDirName].
      change (filepath.split windows ("../" +:+ x))
        with (".." :: filepath.split windows x).
      rewrite Hxs. cbn [app fold_left].
      change (filepath.clean_step d AccountsDirName) with (d ++ [AccountsDirName]).
      change (filepath.clean_step (d ++ [AccountsDirName]) "..")
        with (removelast (d ++ [AccountsDirName])).
      rewrite removelast_last. unfold filepath.clean_step.
      rewrite decide_False by tauto. by rewrite decide_False by done.
Qed.

End confinement.

(** ** The registry's map *)

Section registry_extras.
Import registry.
Context {Ext ClientOption Svc : Type}.
Variable GetClientOptionsForAccount :
  string -> list string -> M (Store * Ext) (list ClientOption).
Variable New : service -> list ClientOption -> M (Store * Ext) Svc.

Local Abbreviation Resolve := (registry.Resolve GetClientOptionsForAccount New).
Local Abbreviation NewServiceSet := (registry.NewServiceSet New).
Local Abbreviation resolve_all :=
  (registry.resolve_all GetClientOptionsForAccount New).
Local Abbreviation World := (@registry.World Ext Svc).
Local Abbreviation RW := (@registry.RW Ext Svc).

(** What a call of [NewServiceSet] leaves in the heap. *)
Lemma NewServiceSet_heap opts (w w' : World) r :
  NewServiceSet opts w = (r, w') ->
  match r with
  | Ok p =>
      exists l v, p = Ref l /\ heap w !! l = None
                  /\ heap w' = <[l := v]> (heap w)
  | Err e =>
      heap w' = heap w
      /\ exists k err o,
           e = Wrapf (service_name k +:+ ": %w") [] err
           /\ fst (New k opts o) = Err err
  end.
Proof.
  unfold registry.NewServiceSet, new_service, on_outside, zoom, bind, try,
    count_construction, modify, alloc, ret, fail.
  cbn [outside set_outside constructions heap].
  repeat match goal with
  | |- context [New ?k opts ?o] =>
      destruct (New k opts o) as [[?|?] ?] eqn:?
  | |- _ => progress cbn [outside set_outside constructions heap]
  end; intros [= <- <-]; cbn [heap];
    try (split; [done|];
      match goal with
      | H : New ?k opts ?o = (Err ?e, _) |- _ => exists k, e, o; by rewrite H
      end).
  eexists _, _. split_and!; [done| |done].
  apply not_elem_of_dom, is_fresh.
Qed.

(** One call of [Resolve] in multi-account mode, step by step. *)
Lemma Resolve_multi c (r : Registry) (w : World) :
  multiAccount r = true ->
  Resolve c (r, w) =
    match select_account c (r, w) with
    | (Err e, rw1) => (Err e, rw1)
    | (Ok account, (r1, w1)) =>
        match accounts r !! account with
        | Some ss => (Ok ss, (r1, w1))
        | None =>
            match GetClientOptionsForAccount account (scopes r) (outside w1) with
            | (Err err, o) =>
                (Err (Wrapf "auth for account %q: %w" [account] err),
                 (r1, set_outside o w1))
            | (Ok opts, o) =>
                match NewServiceSet opts (set_outside o w1) with
                | (Err err, w') =>
                    (Err (Wrapf "services for account %q: %w" [account] err),
                     (r1, w'))
                | (Ok ss, w') => (Ok ss, (set_account account ss r1, w'))
                end
            end
        end
    end.
Proof.
  intros Hm. unfold registry.Resolve, bind, gets, ret.
  cbn [fst snd]. rewrite Hm. cbn [negb].
  destruct (select_account c (r, w)) as [[account|e] [r1 w1]]; [|done].
  destruct (accounts r !! account); [done|].
  unfold try, on_world, on_outside, zoom, modify, fail. cbn [fst snd].
  destruct (GetClientOptionsForAccount _ _ _) as [[opts|err] o]; [|done].
  by destruct (registry.NewServiceSet _ _ _) as [[ss|err] w'].
Qed.

Lemma cache_sound_Resolve (c0 : nat) (c : string) (rw : RW) :
  cache_sound c0 rw -> cache_sound c0 (snd (Resolve c rw)).
Proof.
  destruct rw as [r w]. intros Hinv.
  destruct (multiAccount r) eqn:Hm; [|by rewrite Resolve_legacy].
  rewrite Resolve_multi by done.
  destruct (select_account c (r, w)) as [x [r1 w1]] eqn:Hsel.
  destruct (select_account_world _ _ _ _ _ _ Hsel) as [Hc Hh].
  apply select_account_registry in Hsel as ->.
  assert (cache_sound c0 (r, w1)) as Hinv1.
  { unfold cache_sound in *. cbn [fst snd] in *. by rewrite Hc, Hh. }
  clear Hinv. destruct x as [account|e]; [|done].
  destruct (accounts r !! account) as [ss|] eqn:Hacc; [done|].
  destruct (GetClientOptionsForAccount _ _ _) as [[opts|err] o]; [|done].
  destruct (registry.NewServiceSet _ _ _) as [[ss|err] w'] eqn:Hn.
  - pose proof (NewServiceSet_counts _ _ _ _ _ Hn) as Hcnt.
    apply NewServiceSet_heap in Hn as (l & v & -> & Hl & Hheap).
    destruct Hinv1 as (Hptr & Hinj & Hsize).
    cbn [snd fst set_outside heap constructions] in *.
    split_and!; cbn [snd fst set_account accounts].
    + intros a p. rewrite Hheap. destruct (decide (a = account)) as [->|Hne].
      * rewrite lookup_insert_eq. intros [= <-]. exists l.
        by rewrite lookup_insert_eq.
      * rewrite lookup_insert_ne by done. intros (l' & -> & Hl')%Hptr.
        exists l'. split; [done|].
        rewrite lookup_insert_ne; [done|]. intros <-.
        rewrite Hl in Hl'. by destruct Hl'.
    + assert (forall a, accounts r !! a = Some (Ref l) -> False) as Hfresh.
      { intros a (l' & [= <-] & Hl')%Hptr. rewrite Hl in Hl'. by destruct Hl'. }
      intros a b p.
      destruct (decide (a = account)) as [->|Ha], (decide (b = account)) as [->|Hb];
        [done|..]; rewrite ?lookup_insert_eq, ?lookup_insert_ne by done.
      * intros [= <-] Hb'. by apply Hfresh in Hb'.
      * intros Ha' [= <-]. by apply Hfresh in Ha'.
      * apply Hinj.
    + rewrite map_size_insert_None by done. lia.
  - pose proof (NewServiceSet_counts _ _ _ _ _ Hn) as Hcnt.
    apply NewServiceSet_heap in Hn as [Hheap _].
    unfold cache_sound in *. cbn [fst snd set_outside heap constructions] in *.
    rewrite Hheap. destruct Hinv1 as (? & ? & ?). split_and!; [done..|lia].
Qed.

Lemma cache_sound_resolve_all (c0 : nat) (calls : list string) (rw : RW) :
  cache_sound c0 rw -> cache_sound c0 (resolve_all calls rw).
Proof.
  revert rw. induction calls as [|c calls IH]; intros rw Hinv; [done|].
  cbn [registry.resolve_all]. by apply IH, cache_sound_Resolve.
Qed.

(** X11.  Whatever calls of [Resolve] a multi-account registry has
    served since it was made, its map is sound: every entry is a non-nil
    pointer to an allocated [ServiceSet], two different accounts never
    share a [ServiceSet], and there are at most as many entries as
    [NewServiceSet] has run.  A call that succeeds then returns such a
    pointer, and it is the one now held for the account the call was
    about. *)
Theorem registry_cache_sound (scopes : list string) (w : World)
    (calls : list string) :
  let rw := resolve_all calls (NewMultiAccountRegistry scopes, w) in
  cache_sound (constructions w) rw
  /\ forall c p rw',
       Resolve c rw = (Ok p, rw') ->
       exists l account,
         p = Ref l /\ is_Some (heap (snd rw') !! l)
         /\ accounts (fst rw') !! account = Some p
         /\ (c <> "" -> account = c).
Proof.
  intros rw.
  assert (cache_sound (constructions w) rw) as Hinv.
  { apply cache_sound_resolve_all.
    split_and!; cbn [fst snd NewMultiAccountRegistry accounts].
    - intros a p. by rewrite lookup_empty.
    - intros a b p. by rewrite lookup_empty.
    - by rewrite map_size_empty. }
  split; [done|]. intros c p rw' Hres.
  pose proof (cache_sound_Resolve (constructions w) c rw Hinv) as Hinv'.
  rewrite Hres in Hinv'. cbn [snd] in Hinv'.
  assert (multiAccount (fst rw) = true) as Hm.
  { unfold rw. by rewrite resolve_all_mode. }
  destruct rw as [r w0]. cbn [fst] in Hm.
  rewrite Resolve_multi in Hres by done.
  assert (exists account, accounts (fst rw') !! account = Some p
                          /\ (c <> "" -> account = c)) as (account & Hacc & Hc).
  { destruct (select_account c (r, w0)) as [x [r1 w1]] eqn:Hsel.
    assert (forall a, x = Ok a -> c <> "" -> a = c) as Hnamed.
    { intros a -> Hne. revert Hsel. unfold select_account.
      rewrite decide_False by done. by intros [= ->]. }
    apply select_account_registry in Hsel as ->.
    destruct x as [account|e]; [|done]. exists account.
    split; [|by apply Hnamed].
    destruct (accounts r !! account) as [ss|] eqn:Ha.
    { by injection Hres as <- <-. }
    destruct (GetClientOptionsForAccount _ _ _) as [[opts|err] o]; [|done].
    destruct (registry.NewServiceSet _ _ _) as [[ss|err] w']; [|done].
    injection Hres as <- <-. cbn [fst set_account accounts].
    by rewrite lookup_insert_eq. }
  destruct Hinv' as (Hptr & _). destruct (Hptr _ _ Hacc) as (l & -> & Hl).
  by exists l, account.
Qed.

End registry_extras.

(** ** The login flow, outcome by outcome *)

Section login_extras.
Import auth.
Context `{JSON} `{OAuth}.

(** A successful [Login], in full: the callback carried the generated
    state token and a code, and the token of the exchange was saved. *)
Lemma Login_ok_callback (rand32 : result string) (event : login_event)
    (clientSecrets : string) (scopes : list string) (s s' : LoginState) :
  Login rand32 event clientSecrets scopes s = (Ok tt, s') ->
  exists config b code token,
    ConfigFromJSON clientSecrets scopes = Ok config
    /\ rand32 = Ok b
    /\ event = Callback (base64_URLEncoding b) code
    /\ code <> ""
    /\ Exchange (withRedirectURL "http://localhost:8085/callback" config)
                code = Ok token
    /\ SaveToken token (store s) = (Ok tt, store s').
Proof.
  unfold Login.
  destruct (ConfigFromJSON clientSecrets scopes) as [config|e]; [|done].
  destruct rand32 as [b|e]; [|done]. cbn [generateStateToken].
  unfold bind, ListenAndServe, Println, modify, select, try, on_store, zoom,
    Shutdown, ret, fail.
  cbn [store listener stdout set_listener set_store].
  destruct event as [state code|err|err]; [|done..].
  unfold callback_handler.
  destruct (decide (state <> _)) as [|Hst%dec_stable]; [done|].
  destruct (decide (code = "")) as [|Hcode]; [done|].
  destruct (Exchange _ code) as [token|e] eqn:Hx; [|done].
  cbn [store listener stdout set_listener set_store].
  destruct (SaveToken token (store s)) as [[[]|e] st'] eqn:Hs;
    cbn [store listener stdout set_listener set_store]; [|done].
  intros [= <-]. exists config, b, code, token. by rewrite Hst.
Qed.

(** X12.  [Login] succeeds only on a callback that carries the state
    token it generated and a code: the token saved is the exchange of
    that code under the configuration parsed from the secrets, with the
    fixed redirect URL.  A callback with any other state ends the login
    with the state-mismatch error, however good its code, and leaves the
    credential store as it was. *)
Theorem Login_checks_state (rand32 : result string) (event : login_event)
    (clientSecrets : string) (scopes : list string) (s : LoginState) :
  (forall s',
      Login rand32 event clientSecrets scopes s = (Ok tt, s') ->
      exists config b code token,
        ConfigFromJSON clientSecrets scopes = Ok config
        /\ rand32 = Ok b
        /\ event = Callback (base64_URLEncoding b) code
        /\ code <> ""
        /\ Exchange (withRedirectURL "http://localhost:8085/callback" config)
                    code = Ok token
        /\ SaveToken token (store s) = (Ok tt, store s'))
  /\ (forall config b state code,
      ConfigFromJSON clientSecrets scopes = Ok config ->
      rand32 = Ok b ->
      event = Callback state code ->
      state <> base64_URLEncoding b ->
      exists s',
        Login rand32 event clientSecrets scopes s
        = (Err (Wrapf "server error: %w" []
                  (ErrorString "state token mismatch")), s')
        /\ store s' = store s).
Proof.
  split.
  - intros s'. apply Login_ok_callback.
  - intros config b state code Hc -> -> Hst. unfold Login. rewrite Hc.
    cbn [generateStateToken].
    unfold bind, ListenAndServe, Println, modify, select, fail.
    cbn [store listener stdout set_listener].
    unfold callback_handler. rewrite decide_True by done.
    by eexists.
Qed.

(** X13.  A failed [Login] does not touch the credential store, unless
    the failure is that of saving the token; when the secrets do not
    parse or no state token can be generated, it changes nothing at
    all; and [Login] shuts the listener down on no failure: when it was
    not started before, it is closed afterwards only if [ListenAndServe]
    itself returned. *)
Theorem Login_failure_effects (rand32 : result string) (event : login_event)
    (clientSecrets : string) (scopes : list string) (s s' : LoginState)
    (e : error) :
  Login rand32 event clientSecrets scopes s = (Err e, s') ->
  ((forall err, e <> Wrapf "failed to save token: %w" [] err) ->
     store s' = store s)
  /\ (is_ok (ConfigFromJSON clientSecrets scopes) && is_ok rand32 = false ->
      s' = s)
  /\ (listener s = NotStarted -> listener s' = Closed ->
      exists err, event = ServeError err).
Proof.
  unfold Login.
  destruct (ConfigFromJSON clientSecrets scopes) as [config|e0].
  2:{ intros [= <- <-]. split_and!; [done..|]. by intros ->. }
  destruct rand32 as [b|e0]; cbn [generateStateToken].
  2:{ intros [= <- <-]. split_and!; [done..|]. by intros ->. }
  unfold bind, ListenAndServe, Println, modify, select, try, on_store, zoom,
    Shutdown, ret, fail.
  cbn [store listener stdout set_listener set_store].
  destruct event as [state code|err|err].
  - destruct (callback_handler _ state code) as [authCode|e0].
    + destruct (Exchange _ authCode) as [token|e0].
      * cbn [store listener stdout set_listener set_store].
        destruct (SaveToken token (store s)) as [[[]|e0] st'];
          cbn [store listener stdout set_listener set_store]; [done|].
        intros [= <- <-]. split_and!; cbn [store listener]; [|done..].
        intros Hne. by destruct (Hne e0).
      * intros [= <- <-]. by split_and!.
    + intros [= <- <-]. by split_and!.
  - intros [= <- <-]. split_and!; cbn [store listener]; [done..|by eauto].
  - intros [= <- <-]. by split_and!.
Qed.

End login_extras.

(** ** Client options *)

Section client_facts.
Import auth.
Context `{JSON} `{OAuth} {Credentials : Type}.
Variable abs : string -> path.
Variable FindDefaultCredentials : list string -> Store -> result Credentials.

Local Abbreviation GetClientOptions :=
  (client.GetClientOptions abs FindDefaultCredentials).

Lemma made_config_dir_at_most_log (o : fs_op) (s : Store) :
  made_config_dir_at_most s (log o s).
Proof. split; [done|]. intros q. by left. Qed.

Lemma made_config_dir_at_most_same (s s' : Store) :
  same_env s s' -> fs s' = fs s -> made_config_dir_at_most s s'.
Proof. intros He Hfs. split; [done|]. intros q. left. by rewrite Hfs. Qed.

Lemma same_env_config_root (s s' : Store) :
  same_env s s' -> config_root s' = config_root s.
Proof. intros (He & Hb & Hh). unfold config_root. by rewrite He, Hb, Hh. Qed.

Lemma made_config_dir_at_most_trans (s1 s2 s3 : Store) :
  made_config_dir_at_most s1 s2 -> made_config_dir_at_most s2 s3 ->
  made_config_dir_at_most s1 s3.
Proof.
  intros [He1 H1] [He2 H2]. split.
  - destruct He1 as (? & ? & ?), He2 as (? & ? & ?).
    split_and!; congruence.
  - intros q. rewrite <- (same_env_config_root _ _ He1).
    destruct (H1 q) as [E1|(N1 & D1 & P1)], (H2 q) as [E2|(N2 & D2 & P2)].
    + left. congruence.
    + right. split_and!; [congruence|done|done].
    + right. split_and!; [done|congruence|].
      by rewrite (same_env_config_root _ _ He1).
    + congruence.
Qed.

Lemma GetConfigDir_effect (s : Store) :
  made_config_dir_at_most s (snd (GetConfigDir s)).
Proof.
  rewrite GetConfigDir_run.
  destruct (config_root s) as [d|] eqn:Hr.
  2: { apply made_config_dir_at_most_same; done. }
  destruct (os.mkdir_all (rev d) (fs s)) as [t|e] eqn:Hm; cbn [snd].
  2: { apply made_config_dir_at_most_log. }
  split; [done|]. intros q. cbn [fs set_fs].
  apply mkdir_all_inv in Hm as [_ Hm]. rewrite rev_involutive in Hm.
  destruct (Hm q) as [?|(? & ? & ?)]; [by left|right]. eauto.
Qed.

Lemma LoadToken_effect (s : Store) :
  made_config_dir_at_most s (snd (LoadToken s)).
Proof.
  pose proof (GetConfigDir_effect s) as Hg.
  unfold LoadToken, bind.
  destruct (GetConfigDir s) as [[d|e] s1]; [|done]. cbn [snd] in Hg.
  eapply made_config_dir_at_most_trans; [exact Hg|].
  apply made_config_dir_at_most_same.
  - unfold os.Open. cbn [fs log].
    destruct (fs_lookup _ _); [|done].
    unfold json_Decode, bind, os.Read. cbn [fs log].
    destruct (fs_lookup _ _) as [[b|]|]; [|done..].
    by destruct (json_Unmarshal b).
  - unfold os.Open. cbn [fs log].
    destruct (fs_lookup _ _); [|done].
    unfold json_Decode, bind, os.Read. cbn [fs log].
    destruct (fs_lookup _ _) as [[b|]|]; [|done..].
    by destruct (json_Unmarshal b).
Qed.

Lemma LoadSecrets_effect (s : Store) :
  made_config_dir_at_most s (snd (LoadSecrets s)).
Proof.
  pose proof (GetConfigDir_effect s) as Hg.
  unfold LoadSecrets, bind.
  destruct (GetConfigDir s) as [[d|e] s1]; [|done]. cbn [snd] in Hg.
  eapply made_config_dir_at_most_trans; [exact Hg|].
  rewrite ReadFile_run. apply made_config_dir_at_most_log.
Qed.

Lemma default_credentials_store (scopes : list string) (s : Store) :
  snd (client.default_credentials FindDefaultCredentials scopes s) = s.
Proof.
  unfold client.default_credentials.
  by destruct (FindDefaultCredentials scopes s).
Qed.

(** X14.  [GetClientOptions] writes no file.  Whatever it returns, it
    leaves the environment and every existing node as they were; the
    only nodes it may add are directories made on the way to the
    configuration directory, and with an explicit credentials file it
    adds none. *)
Theorem GetClientOptions_writes_no_file (credentialsFile : string)
    (scopes : list string) (s : Store) :
  made_config_dir_at_most s (snd (GetClientOptions credentialsFile scopes s))
  /\ (credentialsFile <> "" ->
      fs (snd (GetClientOptions credentialsFile scopes s)) = fs s).
Proof.
  unfold client.GetClientOptions. case_decide as Hf.
  - unfold bind, try, client.Stat. cbn [fs log].
    destruct (fs_lookup (fs s) (abs credentialsFile)) as [n|].
    + split; [apply made_config_dir_at_most_log|done].
    + cbn [IsNotExist].
      destruct (client.below_file _ _);
        (split; [apply made_config_dir_at_most_log|done]).
  - split; [|done]. unfold bind, try.
    pose proof (LoadToken_effect s) as Ht.
    destruct (LoadToken s) as [[token|e] s1]; cbn [snd] in Ht.
    2: { by rewrite default_credentials_store. }
    pose proof (LoadSecrets_effect s1) as Hs.
    destruct (LoadSecrets s1) as [[secrets|e] s2]; cbn [snd] in Hs.
    2: { rewrite default_credentials_store.
         by eapply made_config_dir_at_most_trans. }
    destruct (ConfigFromJSON secrets scopes).
    + by eapply made_config_dir_at_most_trans.
    + rewrite default_credentials_store.
      by eapply made_config_dir_at_most_trans.
Qed.

End client_facts.

(** ** From [auth login] to the server's client options *)

Section login_then_serve.
Import auth.
Context `{JSON} `{OAuth} {Credentials : Type}.
Variable abs : string -> path.
Variable rand32 : result string.
Variable event : login_event.
Variable FindDefaultCredentials : list string -> Store -> result Credentials.

Local Abbreviation handleAuthCommand :=
  (main.handleAuthCommand abs rand32 event).
Local Abbreviation GetClientOptions :=
  (client.GetClientOptions abs FindDefaultCredentials).

(** A run of the command that completes: the secrets file was read,
    [Login] succeeded on its content, and [SaveSecrets] ran last. *)
Lemma handleAuthCommand_return_full (Args : list string) (s s' : LoginState) :
  handleAuthCommand Args s = (main.Return, s') ->
  exists srcPath secrets s1 s2,
    fs_lookup (fs (store s)) srcPath = Some (File secrets)
    /\ store s1 = log (OpReadFile srcPath) (store s)
    /\ Login rand32 event secrets main.login_scopes s1 = (Ok tt, s2)
    /\ store s' = snd (SaveSecrets srcPath (store s2)).
Proof.
  unfold main.handleAuthCommand, main.exit.
  destruct Args as [|a0 [|a1 [|sub rest]]]; [done..|].
  destruct (String.eqb sub "login"); [|done].
  destruct (main.Parse _ _ _) as [[|msg]|values]; [done..|].
  destruct (String.eqb _ ""); [done|].
  unfold on_store at 1. unfold zoom. rewrite ReadFile_run.
  destruct (fs_lookup _ _) as [[secrets|]|] eqn:Hsrc; [|done..].
  destruct (Login _ _ _ _ _) as [[[]|e] s2] eqn:HL; [|done].
  unfold on_store, zoom.
  destruct (SaveSecrets _ (store s2)) as [[[]|e] st2] eqn:Hsec;
    intros [= <-];
    eexists (abs (default "" (values !! "secrets"))), secrets, _, s2;
    (split_and!; [exact Hsrc| |exact HL|]);
    unfold Println, modify; cbn [store snd set_store]; by rewrite ?Hsec.
Qed.

Lemma SaveToken_keeps (token : Token) (s s1 : Store) (d : path) :
  SaveToken token s = (Ok tt, s1) -> config_root s = Some d ->
  forall q n, fs_lookup (fs s) q = Some n -> q <> d ++ [TokenFileName] ->
              fs_lookup (fs s1) q = Some n.
Proof.
  unfold SaveToken, bind.
  destruct (GetConfigDir s) as [[d'|e] s0] eqn:Hg; [|done].
  destruct (GetConfigDir_inv _ _ _ Hg) as (Hr & Hr0 & Hm & Hd).
  rewrite Join_one by apply valid_TokenFileName.
  unfold os.Create. cbn [fs log].
  destruct (decide (fs s0 !! (d' ++ [TokenFileName]) = Some Dir)) as [Hdir|Hnd].
  { by rewrite open_write_dir. }
  rewrite open_write_ok by done.
  unfold json_Encode. destruct (json_Marshal token) as [b|e]; [|done].
  unfold os.Write. cbn [fs log set_fs]. rewrite lookup_insert_eq.
  intros [= <-] Hr' q n Hq Hne. assert (d' = d) as -> by congruence.
  cbn [fs set_fs]. rewrite !fs_lookup_insert_ne by done.
  by apply (mkdir_all_keeps _ _ _ _ _ Hm).
Qed.

Lemma SaveSecrets_saves (srcPath : path) (content : string) (s : Store)
    (d : path) :
  fs_lookup (fs s) srcPath = Some (File content) ->
  config_root s = Some d ->
  fs_lookup (fs s) d = Some Dir ->
  fs s !! (d ++ [SecretsFileName]) <> Some Dir ->
  fs (snd (SaveSecrets srcPath s)) = <[d ++ [SecretsFileName] := File content]> (fs s).
Proof.
  intros Hsrc Hr Hd Hnd.
  unfold SaveSecrets, bind. rewrite ReadFile_run, Hsrc.
  destruct (GetConfigDir_exists (log (OpReadFile srcPath) s) d)
    as (s1 & -> & Hfs & Hr1); [done..|].
  cbn [fs log] in Hfs.
  rewrite Join_one by apply valid_SecretsFileName.
  rewrite WriteFile_run by (by rewrite Hfs).
  cbn [snd fs set_fs]. by rewrite Hfs.
Qed.

Lemma LoadToken_same (token : Token) (b : string) (s : Store) (d : path) :
  json_Unmarshal b = Ok token ->
  config_root s = Some d ->
  fs_lookup (fs s) d = Some Dir ->
  fs s !! (d ++ [TokenFileName]) = Some (File b) ->
  exists s2, LoadToken s = (Ok token, s2)
             /\ fs s2 = fs s /\ config_root s2 = Some d.
Proof.
  intros Hdec Hr Hd Hb.
  destruct (GetConfigDir_exists s d Hr Hd) as (s1 & Hg & Hfs & Hr1).
  unfold LoadToken, bind. rewrite Hg.
  rewrite Join_one by apply valid_TokenFileName.
  unfold os.Open. cbn [fs log]. rewrite Hfs, fs_lookup_snoc, Hb.
  unfold json_Decode, bind, os.Read. cbn [fs log].
  rewrite Hfs, fs_lookup_snoc, Hb, Hdec.
  eexists. split; [reflexivity|]. cbn [fs log]. split; [done|].
  by destruct s1.
Qed.

Lemma LoadSecrets_loads (content : string) (s : Store) (d : path) :
  config_root s = Some d ->
  fs_lookup (fs s) d = Some Dir ->
  fs s !! (d ++ [SecretsFileName]) = Some (File content) ->
  exists s2, LoadSecrets s = (Ok content, s2).
Proof.
  intros Hr Hd Hc.
  destruct (GetConfigDir_exists s d Hr Hd) as (s1 & Hg & Hfs & Hr1).
  unfold LoadSecrets, bind. rewrite Hg.
  rewrite Join_one by apply valid_SecretsFileName.
  rewrite ReadFile_run, Hfs, fs_lookup_snoc, Hc. by eexists.
Qed.

(** X15.  From login to serving.  After a run of [auth login] that
    completes, with a JSON codec that reads back the token it wrote,
    [LoadToken] returns the token of the exchange; and unless the
    secrets file given was [token.json] of the configuration directory
    itself or [client_secrets.json] there is a directory,
    [GetClientOptions] without a credentials file, under the scopes of
    the login, returns the token source of that token under the
    configuration of those secrets -- Application Default Credentials
    are not consulted. *)
Theorem login_then_GetClientOptions (Args : list string) (s s' : LoginState) :
  (forall config code token b,
      Exchange config code = Ok token -> json_Marshal token = Ok b ->
      json_Unmarshal b = Ok token) ->
  handleAuthCommand Args s = (main.Return, s') ->
  exists d srcPath secrets config code token,
    config_root (store s) = Some d
    /\ fs_lookup (fs (store s)) srcPath = Some (File secrets)
    /\ ConfigFromJSON secrets main.login_scopes = Ok config
    /\ Exchange (withRedirectURL "http://localhost:8085/callback" config)
                code = Ok token
    /\ fst (LoadToken (store s')) = Ok token
    /\ (srcPath <> d ++ [TokenFileName] ->
        fs (store s) !! (d ++ [SecretsFileName]) <> Some Dir ->
        fst (GetClientOptions "" main.login_scopes (store s'))
        = Ok [client.WithTokenSource config token]).
Proof.
  intros Hcodec Hrun.
  apply handleAuthCommand_return_full in Hrun
    as (srcPath & secrets & s1 & s2 & Hsrc & Hs1 & HL & Hs').
  apply Login_ok_callback in HL
    as (config & b0 & code & token & Hcfg & _ & _ & _ & Hx & Hsave).
  rewrite Hs1 in Hsave.
  destruct (SaveToken_inv _ _ _ Hsave)
    as (d & b & Hr & Hr2 & Hb & Htok & Hd2 & _ & Hframe).
  pose proof (SaveToken_keeps _ _ _ d Hsave Hr) as Hkeep.
  change (config_root (store s) = Some d) in Hr.
  cbn [fs log] in Hkeep, Hframe.
  pose proof (Hcodec _ _ _ _ Hx Hb) as Hdec.
  destruct (SaveSecrets_frame srcPath (store s2) d Hr2 Hd2) as (Hr' & Hd' & Hfr').
  rewrite <- Hs' in Hr', Hd', Hfr'.
  assert (fs (store s') !! (d ++ [TokenFileName]) = Some (File b)) as Htok'.
  { rewrite Hfr'; [done|]. by intros [=]%app_inv_head. }
  destruct (LoadToken_same token b (store s') d Hdec Hr' Hd' Htok')
    as (s3 & Hload & Hfs3 & Hr3).
  exists d, srcPath, secrets, config, code, token.
  split_and!; [done..|by rewrite Hload|].
  intros Hne Hnd.
  assert (fs (store s2) !! (d ++ [SecretsFileName]) <> Some Dir) as Hnd2.
  { rewrite Hframe; [done|by intros [=]%app_inv_head|apply prefix_snoc_ne]. }
  pose proof (SaveSecrets_saves srcPath secrets (store s2) d
                (Hkeep _ _ Hsrc Hne) Hr2 Hd2 Hnd2) as Hfs'.
  rewrite <- Hs' in Hfs'.
  destruct (LoadSecrets_loads secrets s3 d) as (s4 & Hsec); [done| |  |].
  { by rewrite Hfs3. }
  { by rewrite Hfs3, Hfs', lookup_insert_eq. }
  unfold client.GetClientOptions. rewrite decide_False by (by intros ?).
  unfold bind, try. rewrite Hload, Hsec, Hcfg. done.
Qed.

End login_then_serve.

(** ** Keep *)

Section keep_facts.
Import keep.
Context {Srv ListItem Attachment Permission ListNotesResponse : Type}.
Variable Notes_List :
  option Z -> option string -> option string -> M Srv ListNotesResponse.
Variable Notes_Create :
  @Note ListItem Attachment Permission
  -> M Srv (@Note ListItem Attachment Permission).
Variable Notes_Get : string -> M Srv (@Note ListItem Attachment Permission).
Variable Notes_Delete : string -> M Srv unit.

Local Abbreviation Note := (@Note ListItem Attachment Permission).
Local Abbreviation request := (@request ListItem Attachment Permission).
Local Abbreviation State := (Api Srv request).
Local Abbreviation GetNote := (@keep.GetNote Srv ListItem Attachment Permission Notes_Get).
Local Abbreviation DeleteNote :=
  (@keep.DeleteNote Srv ListItem Attachment Permission Notes_Delete).
Local Abbreviation UpdateNote :=
  (@keep.UpdateNote Srv ListItem Attachment Permission
     Notes_Create Notes_Get Notes_Delete).

Lemma resource_name_spec (name : string) :
  resource_name name =
    if String.prefix "notes/" name then name else "notes/" +:+ name.
Proof.
  unfold resource_name.
  destruct name as [|c1 [|c2 [|c3 [|c4 [|c5 [|c6 rest]]]]]];
    try (destruct (String.prefix "notes/" _) eqn:Hp;
         [apply prefix_inv in Hp as [post Hp]; vm_compute in Hp;
          by simplify_eq
         |reflexivity]).
  change (String.length _ <? 6)%nat with false. cbn [orb].
  assert (substring 0 6 (String c1 (String c2 (String c3 (String c4
            (String c5 (String c6 rest))))))
          = String c1 (String c2 (String c3 (String c4 (String c5 (String c6 ""))))))
    as -> by by destruct rest.
  destruct (String.eqb_spec
    (String c1 (String c2 (String c3 (String c4 (String c5 (String c6 ""))))))
    "notes/") as [Heq|Hne].
  - injection Heq as -> -> -> -> -> ->. cbn [negb].
    change (String "n" (String "o" (String "t" (String "e" (String "s"
              (String "/" rest)))))) with ("notes/" +:+ rest).
    by rewrite (prefix_app "notes/" rest).
  - cbn [negb].
    destruct (String.prefix "notes/" _) eqn:Hp; [|done].
    apply prefix_inv in Hp as [post Hp]. injection Hp as -> -> -> -> -> -> ->.
    done.
Qed.

Lemma resource_name_prefix (name : string) :
  String.prefix "notes/" (resource_name name) = true.
Proof.
  rewrite resource_name_spec.
  destruct (String.prefix "notes/" name) eqn:Hp; [done|].
  apply (prefix_app "notes/" name).
Qed.

Lemma resource_name_idem (name : string) :
  resource_name (resource_name name) = resource_name name.
Proof.
  rewrite (resource_name_spec (resource_name name)).
  by rewrite resource_name_prefix.
Qed.

Lemma resource_name_nonempty (name : string) : resource_name name <> "".
Proof.
  pose proof (resource_name_prefix name) as Hp.
  by destruct (resource_name name).
Qed.

(** X16.  A note is addressed alike by its resource name and by its
    id.  For a non-empty [name], [GetNote] and [DeleteNote] send one
    request, for the name [name] itself when it starts with ["notes/"]
    and for ["notes/" ++ name] otherwise; the name sent always starts
    with ["notes/"], and calling with the name sent is the same call. *)
Theorem note_addressed_by_name_or_id (name : string) (st : State) :
  name <> "" ->
  let n := resource_name name in
  String.prefix "notes/" n = true
  /\ n = (if String.prefix "notes/" name then name else "notes/" +:+ name)
  /\ GetNote n st = GetNote name st
  /\ DeleteNote n st = DeleteNote name st
  /\ sent (snd (GetNote name st)) = sent st ++ [NotesGet n]
  /\ sent (snd (DeleteNote name st)) = sent st ++ [NotesDelete n].
Proof.
  intros Hne n. subst n.
  pose proof (resource_name_nonempty name) as Hn.
  split_and!.
  - apply resource_name_prefix.
  - apply resource_name_spec.
  - unfold keep.GetNote. rewrite !decide_False by done.
    by rewrite resource_name_idem.
  - unfold keep.DeleteNote. rewrite !decide_False by done.
    by rewrite resource_name_idem.
  - unfold keep.GetNote, send. rewrite decide_False by done.
    by destruct (Notes_Get _ _).
  - unfold keep.DeleteNote, send. rewrite decide_False by done.
    by destruct (Notes_Delete _ _).
Qed.

(** X17.  How [UpdateNote] proceeds.  With an empty name nothing is
    sent.  Otherwise the note is fetched; if that fails nothing else is
    sent.  Then the replacement is created, with the title and the body
    of the input where given and those of the old note otherwise, and
    nothing else of the old note; if that fails the old note is not
    deleted.  Only then is the old note deleted, under the name it was
    fetched by; if that fails, the error names the new note, which
    stays. *)
Theorem UpdateNote_protocol (name : string) (input : UpdateNoteInput)
    (st st' : State) (r : result Note) :
  UpdateNote name input st = (r, st') ->
  let n := resource_name name in
  (name = "" /\ st' = st
   /\ r = Err (Wrapf "get note: %w" [] (ErrorString "note name is required")))
  \/ (name <> "" /\ exists e srv1,
        Notes_Get n (server st) = (Err e, srv1)
        /\ st' = mkApi srv1 (sent st ++ [NotesGet n])
        /\ r = Err (Wrapf "get note: %w" [] e))
  \/ (name <> "" /\ exists existing srv1,
        Notes_Get n (server st) = (Ok existing, srv1)
        /\ let m := merged existing input in
           (exists e srv2,
              Notes_Create m srv1 = (Err e, srv2)
              /\ st' = mkApi srv2 (sent st ++ [NotesGet n; NotesCreate m])
              /\ r = Err (Wrapf "create updated note: %w" [] e))
           \/ (exists created srv2 d srv3,
                 Notes_Create m srv1 = (Ok created, srv2)
                 /\ Notes_Delete n srv2 = (d, srv3)
                 /\ st' = mkApi srv3
                            (sent st ++ [NotesGet n; NotesCreate m; NotesDelete n])
                 /\ r = match d with
                        | Ok _ => Ok created
                        | Err e =>
                            Err (Wrapf
                              "delete old note (new note %s was created): %w"
                              [Name created] e)
                        end)).
Proof.
  intros Hrun n. subst n.
  unfold keep.UpdateNote, keep.GetNote, keep.DeleteNote, bind, try in Hrun.
  destruct (decide (name = "")) as [->|Hne].
  { injection Hrun as <- <-. by left. }
  right. unfold send in Hrun. cbn [server sent] in Hrun.
  destruct (Notes_Get _ (server st)) as [[existing|e] srv1] eqn:Hget.
  2: { injection Hrun as <- <-. left. split; [done|]. by exists e, srv1. }
  right. split; [done|]. exists existing, srv1. split; [done|].
  cbn zeta. cbn [server sent] in Hrun.
  destruct (Notes_Create _ srv1) as [[created|e] srv2] eqn:Hcreate.
  2: { injection Hrun as <- <-. left. exists e, srv2.
       by rewrite <- app_assoc. }
  cbn [server sent] in Hrun.
  destruct (Notes_Delete _ srv2) as [d srv3] eqn:Hdel.
  right. exists created, srv2, d, srv3.
  split_and!; [done..| |]; destruct d as [[]|e];
    injection Hrun as <- <-; by rewrite <- ?app_assoc.
Qed.

End keep_facts.

(** ** Tasks *)

Section tasks_facts.
Import tasks.
Context {Srv TaskList TaskRest : Type}.
Variable no_rest : TaskRest.
Variable Tasks_List : string -> bool -> Z -> M Srv (list (@Task TaskRest)).
Variable Tasks_Insert : string -> @Task TaskRest -> M Srv (@Task TaskRest).
Variable Tasks_Get : string -> string -> M Srv (@Task TaskRest).
Variable Tasks_Update :
  string -> string -> @Task TaskRest -> M Srv (@Task TaskRest).

Local Abbreviation Task := (@Task TaskRest).
Local Abbreviation State := (Api Srv (@request TaskRest)).
Local Abbreviation ListTasks := (@tasks.ListTasks Srv TaskRest Tasks_List).
Local Abbreviation InsertTask :=
  (@tasks.InsertTask Srv TaskRest no_rest Tasks_Insert).
Local Abbreviation UpdateTask :=
  (@tasks.UpdateTask Srv TaskRest Tasks_Get Tasks_Update).

Lemma wrap_send {A} (format : string) (r : @request TaskRest)
    (answer : M Srv A) (st : State) :
  wrap format (send r answer) st =
    (match fst (answer (server st)) with
     | Ok a => Ok a
     | Err e => Err (Wrapf format [] e)
     end,
     mkApi (snd (answer (server st))) (sent st ++ [r])).
Proof.
  unfold wrap, bind, try, send.
  by destruct (answer (server st)) as [[a|e] srv].
Qed.

(** X18.  [ListTasks] asks for between 1 and 100 tasks.  Without a task
    list id it sends nothing.  Otherwise it sends one request, for the
    list given, with the number asked for when that is between 1 and
    100, with 20 when it is zero or less and with 100 when it is more;
    the answer is passed on, an error wrapped. *)
Theorem ListTasks_sends (taskListID : string) (opts : ListTasksOptions)
    (st : State) :
  (taskListID = "" ->
     ListTasks taskListID opts st
     = (Err (ErrorString "task_list_id is required"), st))
  /\ (taskListID <> "" ->
      exists n : Z,
        (1 <= n <= 100)%Z
        /\ ((1 <= MaxResults opts <= 100)%Z -> n = MaxResults opts)
        /\ ((MaxResults opts <= 0)%Z -> n = 20%Z)
        /\ ((100 < MaxResults opts)%Z -> n = 100%Z)
        /\ ListTasks taskListID opts st
           = (match fst (Tasks_List taskListID (ShowCompleted opts) n (server st)) with
              | Ok items => Ok items
              | Err e => Err (Wrapf "unable to list tasks: %w" [] e)
              end,
              mkApi (snd (Tasks_List taskListID (ShowCompleted opts) n (server st)))
                    (sent st ++ [TasksList taskListID (ShowCompleted opts) n]))).
Proof.
  unfold tasks.ListTasks. split.
  - intros ->. by rewrite decide_True.
  - intros Hne. rewrite decide_False by done. rewrite wrap_send.
    eexists. split_and!; [..|reflexivity];
      destruct (Z.leb_spec (MaxResults opts) 0);
      repeat match goal with
             | |- context [(100 <? ?x)%Z] => destruct (Z.ltb_spec 100 x)
             end; lia.
Qed.

(** X19.  [InsertTask] checks the task list id, then the title, and
    sends nothing when either is empty.  Otherwise it sends one request
    whose task has the title, the notes and the due date given, empty or
    not, and nothing else set. *)
Theorem InsertTask_sends (taskListID title notes due : string) (st : State) :
  (taskListID = "" ->
     InsertTask taskListID title notes due st
     = (Err (ErrorString "task_list_id is required"), st))
  /\ (taskListID <> "" -> title = "" ->
      InsertTask taskListID title notes due st
      = (Err (ErrorString "title is required"), st))
  /\ (taskListID <> "" -> title <> "" ->
      let task := mkTask "" title notes due "" no_rest in
      InsertTask taskListID title notes due st
      = (match fst (Tasks_Insert taskListID task (server st)) with
         | Ok t => Ok t
         | Err e => Err (Wrapf "unable to insert task: %w" [] e)
         end,
         mkApi (snd (Tasks_Insert taskListID task (server st)))
               (sent st ++ [TasksInsert taskListID task]))).
Proof.
  unfold tasks.InsertTask. split_and!.
  - intros ->. by rewrite decide_True.
  - intros Hl ->. rewrite decide_False by done. by rewrite decide_True.
  - intros Hl Ht. rewrite !decide_False by done. cbn zeta.
    rewrite wrap_send. cbn [Id Title Notes Due Status Rest].
    destruct (decide (notes = "")) as [->|Hn], (decide (due = "")) as [->|Hd];
      repeat case_decide; try congruence; reflexivity.
Qed.

(** X20.  [UpdateTask] reads, changes and writes back.  Without both
    ids it sends nothing.  Otherwise it fetches the task; if that fails,
    nothing is written.  Then it sends one update whose task is the one
    fetched with the title, notes, due date and status of the input
    where given: every field the input leaves out, named here or not,
    goes back as it came. *)
Theorem UpdateTask_protocol (taskListID taskID : string)
    (input : UpdateTaskInput) (st st' : State) (r : result Task) :
  UpdateTask taskListID taskID input st = (r, st') ->
  ((taskListID = "" \/ taskID = "") /\ st' = st
   /\ r = Err (ErrorString "task_list_id and task_id are required"))
  \/ (taskListID <> "" /\ taskID <> "" /\
      ((exists e srv1,
          Tasks_Get taskListID taskID (server st) = (Err e, srv1)
          /\ st' = mkApi srv1 (sent st ++ [TasksGet taskListID taskID])
          /\ r = Err (Wrapf "unable to get task: %w" [] e))
       \/ (exists existing srv1 u srv2,
          Tasks_Get taskListID taskID (server st) = (Ok existing, srv1)
          /\ let body :=
               mkTask (Id existing)
                      (default (Title existing) (in_Title input))
                      (default (Notes existing) (in_Notes input))
                      (default (Due existing) (in_Due input))
                      (default (Status existing) (in_Status input))
                      (Rest existing) in
             Tasks_Update taskListID taskID body srv1 = (u, srv2)
             /\ st' = mkApi srv2
                        (sent st ++ [TasksGet taskListID taskID;
                                     TasksUpdate taskListID taskID body])
             /\ r = match u with
                    | Ok t => Ok t
                    | Err e => Err (Wrapf "unable to update task: %w" [] e)
                    end))).
Proof.
  unfold tasks.UpdateTask. intros Hrun.
  destruct (decide (taskListID = "" \/ taskID = "")) as [Hempty|Hids].
  { injection Hrun as <- <-. by left. }
  right.
  split_and!; [intros ->; apply Hids; by left|intros ->; apply Hids; by right|].
  unfold bind at 1 in Hrun. rewrite wrap_send in Hrun.
  destruct (Tasks_Get taskListID taskID (server st)) as [[existing|e] srv1]
    eqn:Hget; cbn [fst snd] in Hrun.
  2: { injection Hrun as <- <-. left. by exists e, srv1. }
  right. rewrite wrap_send in Hrun. cbn [server sent] in Hrun.
  assert (forall t : Task,
    mkTask (Id t) (Title t) (Notes t) (Due t) (Status t) (Rest t) = t) as Heta
    by by intros [].
  match type of Hrun with
  | context [Tasks_Update _ _ ?b _] =>
      assert (b = mkTask (Id existing)
                    (default (Title existing) (in_Title input))
                    (default (Notes existing) (in_Notes input))
                    (default (Due existing) (in_Due input))
                    (default (Status existing) (in_Status input))
                    (Rest existing)) as Hbody
  end.
  { destruct input as [[?|] [?|] [?|] [?|]], existing; reflexivity. }
  rewrite Hbody in Hrun. clear Hbody. cbn zeta.
  destruct (Tasks_Update _ _ _ srv1) as [u srv2] eqn:Hupd.
  cbn [fst snd] in Hrun. injection Hrun as <- <-.
  exists existing, srv1, u, srv2.
  split_and!; [done..|by rewrite <- app_assoc|by destruct u].
Qed.

End tasks_facts.

(** ** Drive queries *)

Section drive_facts.
Import drive.

Lemma append_nil_r (s : string) : s +:+ "" = s.
Proof.
  induction s as [|c s IH]; [done|].
  change (String c (s +:+ "") = String c s). by rewrite IH.
Qed.

Lemma append_inv_head (p a b : string) : p +:+ a = p +:+ b -> a = b.
Proof.
  induction p as [|c p IH]; [done|].
  change (String c (p +:+ a) = String c (p +:+ b) -> a = b).
  intros [= Heq]. by apply IH.
Qed.

Lemma ReplaceAll_app (a b : string) (old : ascii) (new : string) :
  ReplaceAll (a +:+ b) old new = ReplaceAll a old new +:+ ReplaceAll b old new.
Proof.
  induction a as [|c a IH]; [done|].
  change (String c a +:+ b) with (String c (a +:+ b)).
  cbn [ReplaceAll]. by rewrite IH, append_assoc.
Qed.

(** The two replacements of [findFilesQuery], one after the other. *)
Local Abbreviation escaped s :=
  (ReplaceAll (ReplaceAll s backslash (String backslash (String backslash "")))
              quote (String backslash (String quote ""))).

Lemma escaped_cons (c : ascii) (s : string) :
  escaped (String c s) =
    (if Ascii.eqb c backslash then String backslash (String backslash "")
     else if Ascii.eqb c quote then String backslash (String quote "")
     else String c "") +:+ escaped s.
Proof.
  cbn [ReplaceAll]. rewrite ReplaceAll_app. f_equal.
  destruct (Ascii.eqb_spec c backslash) as [->|Hb]; [done|].
  cbn [ReplaceAll].
  destruct (Ascii.eqb_spec c quote) as [->|Hq]; [done|].
  by rewrite append_nil_r.
Qed.

Lemma read_literal_escaped (term rest : string) :
  read_literal (escaped term +:+ String quote rest) = Some (term, rest).
Proof.
  induction term as [|c term IH]; [done|].
  rewrite escaped_cons.
  destruct (Ascii.eqb_spec c backslash) as [->|Hb].
  { change (read_literal (String backslash (String backslash
              (escaped term +:+ String quote rest))) = Some (String backslash term, rest)).
    cbn [read_literal]. change (Ascii.eqb backslash quote) with false.
    change (Ascii.eqb backslash backslash) with true. cbn iota.
    by rewrite IH. }
  destruct (Ascii.eqb_spec c quote) as [->|Hq].
  { change (read_literal (String backslash (String quote
              (escaped term +:+ String quote rest))) = Some (String quote term, rest)).
    cbn [read_literal]. change (Ascii.eqb backslash quote) with false.
    change (Ascii.eqb backslash backslash) with true. cbn iota.
    by rewrite IH. }
  change (read_literal (String c (escaped term +:+ String quote rest))
          = Some (String c term, rest)).
  cbn [read_literal].
  apply Ascii.eqb_neq in Hb, Hq. rewrite Hb, Hq. by rewrite IH.
Qed.

(** X21.  The search term reaches Drive whole.  The query of
    [findFilesQuery] is ["fullText contains '"] followed by a string
    literal that the query language reads back as exactly the search
    term, whatever quotes and backslashes the term holds, followed by
    [" and trashed = false"]; so two different terms never give the same
    query. *)
Theorem findFilesQuery_literal (searchTerm : string) :
  (exists literal,
      findFilesQuery searchTerm = "fullText contains '" +:+ literal
      /\ read_literal literal = Some (searchTerm, " and trashed = false"))
  /\ forall other, findFilesQuery other = findFilesQuery searchTerm ->
                   other = searchTerm.
Proof.
  assert (forall t, findFilesQuery t =
            "fullText contains '" +:+ (escaped t +:+ String quote " and trashed = false"))
    as Hq by done.
  split.
  - eexists. split; [apply Hq|]. apply read_literal_escaped.
  - intros other. rewrite !Hq. intros Heq%append_inv_head.
    pose proof (read_literal_escaped other " and trashed = false") as Ho.
    rewrite Heq, read_literal_escaped in Ho. by injection Ho.
Qed.

Lemma read_literal_plain (a rest : string) :
  Contains a "'" = false -> Contains a "\" = false ->
  read_literal (a +:+ String quote rest) = Some (a, rest).
Proof.
  induction a as [|c a IH]; [done|].
  intros [Hq Hq']%Contains_char_cons [Hb Hb']%Contains_char_cons.
  change (read_literal (String c (a +:+ String quote rest))
          = Some (String c a, rest)).
  cbn [read_literal].
  destruct (Ascii.eqb_spec c quote) as [->|_]; [done|].
  destruct (Ascii.eqb_spec c backslash) as [->|_]; [done|].
  by rewrite IH.
Qed.

(** X22.  [drive_search] passes its helper arguments on as they are.
    The query for a name filter alone is ["name contains '"], the
    argument and a closing quote; nothing is escaped, so for an argument
    with a quote in it the query language reads the literal only up to
    that quote and takes the rest of the argument as query text. *)
Theorem drive_search_query_unescaped (a b : string) :
  Contains a "'" = false -> Contains a "\" = false ->
  exists literal,
    drive_search_query "" (a +:+ "'" +:+ b) "" ""
    = "name contains '" +:+ literal
    /\ read_literal literal = Some (a, b +:+ "'").
Proof.
  intros Hq Hb. exists ((a +:+ "'" +:+ b) +:+ "'"). split.
  - assert (a +:+ "'" +:+ b <> "") as Hne by by destruct a.
    unfold drive_search_query.
    repeat case_decide; try congruence; tauto.
  - rewrite append_assoc.
    change (("'" +:+ b) +:+ "'") with (String quote (b +:+ "'")).
    by apply read_literal_plain.
Qed.

End drive_facts.

Section drive_calls.
Import drive.
Context {Srv File : Type}.
Variable Files_List : string -> Z -> M Srv (list File).

Local Abbreviation State := (Api Srv request).
Local Abbreviation SearchFiles := (@drive.SearchFiles Srv File Files_List).
Local Abbreviation FindFiles := (@drive.FindFiles Srv File Files_List).

Lemma SearchFiles_run (query : string) (limit : Z) (st : State) :
  let n := if (limit <=? 0)%Z then 10%Z else limit in
  let q := if decide (query = "") then "trashed = false"
           else if negb (Contains query "trashed") then
             "(" +:+ query +:+ ") and trashed = false"
           else query in
  SearchFiles query limit st =
    (match fst (Files_List q n (server st)) with
     | Ok files => Ok files
     | Err e => Err (Wrapf "unable to search files: %w" [] e)
     end,
     mkApi (snd (Files_List q n (server st))) (sent st ++ [FilesList q n])).
Proof.
  intros n q. unfold drive.SearchFiles, bind, try, send. fold n q.
  by destruct (Files_List q n (server st)) as [[files|e] srv].
Qed.

(** X23.  Every search leaves trashed files to the query.  [SearchFiles]
    sends one request, for as many files as the limit says and for 10
    when the limit is zero or less, so for at least one.  Its query is
    [trashed = false] for the empty query, the query given when that
    mentions [trashed], and otherwise the query given, in parentheses,
    with [ and trashed = false] added: it always mentions [trashed].
    [FindFiles] searches with exactly the query of [findFilesQuery] for
    its term, and with [trashed = false] alone for the empty term. *)
Theorem searches_mention_trashed (limit : Z) (st : State) :
  let n := if (limit <=? 0)%Z then 10%Z else limit in
  (forall query,
      let q := if decide (query = "") then "trashed = false"
               else if Contains query "trashed" then query
               else "(" +:+ query +:+ ") and trashed = false" in
      sent (snd (SearchFiles query limit st)) = sent st ++ [FilesList q n]
      /\ Contains q "trashed" = true)
  /\ (1 <= n)%Z
  /\ ((limit <= 0)%Z -> n = 10%Z)
  /\ ((1 <= limit)%Z -> n = limit)
  /\ (forall searchTerm,
      sent (snd (FindFiles searchTerm limit st)) =
        sent st ++ [FilesList (if decide (searchTerm = "") then "trashed = false"
                               else findFilesQuery searchTerm) n]).
Proof.
  intros n. split_and!.
  - intros query q. rewrite SearchFiles_run. cbn zeta. cbn [snd sent].
    fold n. unfold q. split.
    + case_decide; [done|]. by destruct (Contains query "trashed").
    + case_decide; [done|].
      destruct (Contains query "trashed") eqn:Hc; [done|].
      apply Contains_app_r, Contains_app_r. done.
  - unfold n. destruct (Z.leb_spec limit 0); lia.
  - unfold n. destruct (Z.leb_spec limit 0); lia.
  - unfold n. destruct (Z.leb_spec limit 0); lia.
  - intros searchTerm. unfold drive.FindFiles.
    case_decide as He; rewrite SearchFiles_run; cbn zeta; cbn [snd sent].
    + done.
    + assert (Contains (findFilesQuery searchTerm) "trashed" = true) as Hc.
      { unfold findFilesQuery. apply Contains_app_r, Contains_app_r. done. }
      rewrite Hc. cbn [negb]. rewrite decide_False; [done|].
      intros Hq. by rewrite Hq in Hc.
Qed.

End drive_calls.

(** ** How the [auth] command ends *)

Section command_exits.
Import auth.
Context `{JSON} `{OAuth}.
Variable abs : string -> path.
Variable rand32 : result string.
Variable event : login_event.

Local Abbreviation handleAuthCommand :=
  (main.handleAuthCommand abs rand32 event).

Lemma Login_err_store (clientSecrets : string) (scopes : list string)
    (s s' : LoginState) (e : error) :
  Login rand32 event clientSecrets scopes s = (Err e, s') ->
  store s' = store s
  \/ exists err, e = Wrapf "failed to save token: %w" [] err.
Proof.
  unfold Login.
  destruct (ConfigFromJSON clientSecrets scopes) as [config|e0];
    [|intros [= <- <-]; by left].
  destruct (generateStateToken rand32) as [stateToken|e0];
    [|intros [= <- <-]; by left].
  unfold bind, ListenAndServe, Println, modify, select, try, on_store, zoom,
    Shutdown, ret, fail.
  cbn [store listener stdout set_listener set_store].
  destruct event as [state code|err|err]; [|intros [= <- <-]; by left..].
  destruct (callback_handler _ state code) as [authCode|e0];
    [|intros [= <- <-]; by left].
  destruct (Exchange _ authCode) as [token|e0]; [|intros [= <- <-]; by left].
  cbn [store listener stdout set_listener set_store].
  destruct (SaveToken token (store s)) as [[[]|e0] st'];
    cbn [store listener stdout set_listener set_store]; [done|].
  intros [= <- <-]. right. by exists e0.
Qed.

(** A login that fails leaves the store as it was, or as the failed
    [SaveToken] left it. *)
Lemma Login_err_save (clientSecrets : string) (scopes : list string)
    (s s' : LoginState) (e : error) :
  Login rand32 event clientSecrets scopes s = (Err e, s') ->
  store s' = store s
  \/ exists token err,
       e = Wrapf "failed to save token: %w" [] err
       /\ SaveToken token (store s) = (Err err, store s').
Proof.
  unfold Login.
  destruct (ConfigFromJSON clientSecrets scopes) as [config|e0];
    [|intros [= <- <-]; by left].
  destruct (generateStateToken rand32) as [stateToken|e0];
    [|intros [= <- <-]; by left].
  unfold bind, ListenAndServe, Println, modify, select, try, on_store, zoom,
    Shutdown, ret, fail.
  cbn [store listener stdout set_listener set_store].
  destruct event as [state code|err|err]; [|intros [= <- <-]; by left..].
  destruct (callback_handler _ state code) as [authCode|e0];
    [|intros [= <- <-]; by left].
  destruct (Exchange _ authCode) as [token|e0]; [|intros [= <- <-]; by left].
  cbn [store listener stdout set_listener set_store].
  destruct (SaveToken token (store s)) as [[[]|e0] st'] eqn:Hs;
    cbn [store listener stdout set_listener set_store]; [done|].
  intros [= <- <-]. right. by exists token, e0.
Qed.

(** X24.  How [auth] ends when it does not complete.  The exit code is
    0 (help was asked for), 2 (the flags do not parse) or 1 (anything
    else).  With the codes 0 and 2 nothing has happened but a line
    printed.  And whatever the code, no file has been written or
    changed, unless the login of this run got as far as saving the
    token and that failed: then the command is [login], its flags
    parse, the code is 1, and [SaveToken], called on the store as it
    was once the secrets file was read, failed and left the store as it
    is at the exit. *)
Theorem handleAuthCommand_exits (Args : list string) (s s' : LoginState)
    (code : nat) :
  handleAuthCommand Args s = (main.Exit code, s') ->
  (code = 0 \/ code = 1 \/ code = 2)
  /\ (code <> 1 -> store s' = store s /\ listener s' = listener s)
  /\ (fs (store s') = fs (store s)
      \/ exists a0 a1 rest values token err,
           code = 1
           /\ Args = a0 :: a1 :: "login" :: rest
           /\ main.Parse main.login_flags rest ∅ = inr values
           /\ SaveToken token
                (log (OpReadFile (abs (default "" (values !! "secrets"))))
                     (store s))
              = (Err err, store s')).
Proof.
  unfold main.handleAuthCommand, main.exit, Println, modify. cbn [snd].
  destruct Args as [|a0 [|a1 [|sub rest]]];
    try (intros [= <- <-]; split_and!; [tauto|done|by left]).
  destruct (String.eqb sub "login") eqn:Hsub;
    [|intros [= <- <-]; split_and!; [tauto|done|by left]].
  apply String.eqb_eq in Hsub as ->.
  destruct (main.Parse _ _ _) as [[|msg]|values] eqn:HP;
    try (intros [= <- <-]; split_and!; [tauto|done|by left]).
  destruct (String.eqb _ "");
    [intros [= <- <-]; split_and!; [tauto|done|by left]|].
  unfold on_store at 1. unfold zoom. rewrite ReadFile_run.
  destruct (fs_lookup _ _) as [[secrets|]|];
    try (intros [= <- <-]; split_and!; [tauto|done|by left]).
  destruct (Login _ _ _ _ _) as [[[]|e] s2] eqn:HL.
  { unfold on_store, zoom. by destruct (SaveSecrets _ _) as [[[]|?] ?]. }
  intros [= <- <-]. split_and!; [tauto|done|].
  cbn [store set_store].
  destruct (Login_err_save _ _ _ _ _ HL) as [Hst|(token & err & _ & Hsave)];
    cbn [store set_store] in *.
  - left. by rewrite Hst.
  - right. by exists a0, a1, rest, values, token, err.
Qed.

End command_exits.

(** ** Instances with configuration directories of their own *)

Section instances.
Import auth.
Context `{JSON}.

Lemma SaveToken_dirs (token : Token) (s s1 : Store) :
  SaveToken token s = (Ok tt, s1) ->
  forall q, fs_lookup (fs s) q = Some Dir -> fs_lookup (fs s1) q = Some Dir.
Proof.
  unfold SaveToken, bind.
  destruct (GetConfigDir s) as [[d|e] s0] eqn:Hg; [|done].
  destruct (GetConfigDir_inv _ _ _ Hg) as (Hr & Hr0 & Hm & Hd).
  rewrite Join_one by apply valid_TokenFileName.
  unfold os.Create. cbn [fs log].
  destruct (decide (fs s0 !! (d ++ [TokenFileName]) = Some Dir)) as [Hdir|Hnd].
  { by rewrite open_write_dir. }
  rewrite open_write_ok by done.
  unfold json_Encode. destruct (json_Marshal token) as [b|e]; [|done].
  unfold os.Write. cbn [fs log set_fs]. rewrite lookup_insert_eq.
  intros [= <-] q Hq. cbn [fs set_fs].
  apply (mkdir_all_keeps _ _ _ _ _ Hm) in Hq.
  rewrite !fs_lookup_insert_ne; [done|..];
    intros <-; rewrite fs_lookup_snoc in Hq; congruence.
Qed.

(** X25.  Instances do not disturb one another.  In a directory tree,
    after a process with one configuration directory has saved a token,
    a process with a different configuration directory still loads the
    token it loaded before. *)
Theorem instances_do_not_interfere (d1 d2 : path) (token t : Token)
    (s s1 sx : Store) :
  fs_tree (fs s) ->
  d1 <> d2 ->
  SaveToken token (with_config_dir d1 s) = (Ok tt, s1) ->
  LoadToken (with_config_dir d2 s) = (Ok t, sx) ->
  exists s2, LoadToken (with_config_dir d2 s1) = (Ok t, s2).
Proof.
  intros Ht Hne Hsave Hload.
  apply LoadToken_inv in Hload as (d & b & Hr & Hb & Hu).
  injection Hr as <-. cbn [fs with_config_dir] in Hb.
  pose proof (SaveToken_keeps _ _ _ d1 Hsave eq_refl) as Hkeep.
  pose proof (SaveToken_dirs _ _ _ Hsave) as Hdirs.
  cbn [fs with_config_dir] in Hkeep, Hdirs.
  apply (LoadToken_loads t b _ d2); [done..| |]; cbn [fs with_config_dir].
  - apply Hdirs. apply Ht in Hb. by rewrite parent_snoc in Hb.
  - rewrite <- fs_lookup_snoc. apply Hkeep; [by rewrite fs_lookup_snoc|].
    intros [Heq _]%app_inj_tail. by apply Hne.
Qed.

End instances.

(** ** Outgoing mail *)

Section gmail_facts.
Import gmail.
Context {Srv Message Draft : Type}.
Variable EncodeToString : string -> string.
Variable Messages_Send : string -> M Srv Message.
Variable Drafts_Create : string -> M Srv Draft.

Local Abbreviation State := (Api Srv request).
Local Abbreviation SendEmail :=
  (@gmail.SendEmail Srv Message EncodeToString Messages_Send).
Local Abbreviation CreateDraft :=
  (@gmail.CreateDraft Srv Draft EncodeToString Drafts_Create).

Lemma Contains_char_app (a b : string) (c : ascii) :
  Contains a (String c "") = false -> Contains b (String c "") = false ->
  Contains (a +:+ b) (String c "") = false.
Proof.
  intros Ha Hb. induction a as [|x a IH]; [done|].
  apply Contains_char_cons in Ha as [Hx Ha].
  change (Contains (String x (a +:+ b)) (String c "") = false).
  cbn [Contains]. rewrite (IH Ha), orb_false_r.
  cbn. destruct (ascii_dec c x); [done|]. done.
Qed.

(** Reading a line without a carriage return, up to its CR LF. *)
Lemma read_headers_line (cur line rest : string) :
  Contains line (String CR "") = false ->
  read_headers cur (line +:+ CRLF +:+ rest) =
    if String.eqb (cur +:+ line) "" then Some ([], rest)
    else match read_headers "" rest with
         | Some (headers, body) => Some ((cur +:+ line) :: headers, body)
         | None => None
         end.
Proof.
  revert cur. induction line as [|c line IH]; intros cur Hc.
  - rewrite append_nil_r. done.
  - apply Contains_char_cons in Hc as [Hne Hc].
    change (String c line +:+ CRLF +:+ rest)
      with (String c (line +:+ CRLF +:+ rest)).
    cbn [read_headers].
    rewrite (proj2 (Ascii.eqb_neq c CR)) by done.
    rewrite (IH _ Hc), append_assoc. done.
Qed.

(** The message read from its first line on, and a line read. *)
Lemma read_message_first (to subject body : string) :
  Contains to (String CR "") = false ->
  read_headers "" (message to subject body) =
    match read_headers "" ("Subject: " +:+ subject +:+ CRLF +:+ CRLF +:+ body) with
    | Some (headers, b) => Some (("To: " +:+ to) :: headers, b)
    | None => None
    end.
Proof.
  intros Hto. unfold message.
  rewrite <- (append_assoc "To: " to).
  rewrite (read_headers_line "" ("To: " +:+ to)).
  - done.
  - by apply (Contains_char_app "To: " to).
Qed.

Lemma read_headers_next (line rest : string) :
  line <> "" -> Contains line (String CR "") = false ->
  read_headers "" (line +:+ CRLF +:+ rest) =
    match read_headers "" rest with
    | Some (headers, b) => Some (line :: headers, b)
    | None => None
    end.
Proof.
  intros Hne Hc. rewrite read_headers_line by done.
  change ("" +:+ line) with line.
  by destruct (String.eqb_spec line "") as [?|_].
Qed.

(** X26.  What goes out as mail.  Whatever the recipient, the subject
    and the body are, [SendEmail] and [CreateDraft] send one request
    each, with the encoding of the same message, built from them as
    they are: nothing is checked or escaped.  When neither the recipient
    nor the subject holds a carriage return, the message reads as
    exactly the two header lines [To] and [Subject] and, after the empty
    line, the body as given.  When the subject continues after a CR LF,
    what follows is read as a header line of its own. *)
Theorem outgoing_message (to subject body : string) (st : State) :
  let raw := EncodeToString (message to subject body) in
  sent (snd (SendEmail to subject body st)) = sent st ++ [MessagesSend raw]
  /\ sent (snd (CreateDraft to subject body st)) = sent st ++ [DraftsCreate raw]
  /\ (Contains to (String CR "") = false ->
      Contains subject (String CR "") = false ->
      read_headers "" (message to subject body)
      = Some (["To: " +:+ to; "Subject: " +:+ subject], body))
  /\ (Contains to (String CR "") = false ->
      forall first line,
        subject = first +:+ CRLF +:+ line ->
        Contains first (String CR "") = false ->
        line <> "" -> Contains line (String CR "") = false ->
        read_headers "" (message to subject body)
        = Some (["To: " +:+ to; "Subject: " +:+ first; line], body)).
Proof.
  intros raw.
  assert (read_headers "" (CRLF +:+ body) = Some ([], body)) as Hend by done.
  split_and!.
  - unfold gmail.SendEmail, bind, try, send. fold raw.
    by destruct (Messages_Send raw (server st)) as [[m|e] srv].
  - unfold gmail.CreateDraft, bind, try, send. fold raw.
    by destruct (Drafts_Create raw (server st)) as [[d|e] srv].
  - intros Hto Hsubject. rewrite read_message_first by done.
    rewrite <- (append_assoc "Subject: " subject).
    rewrite read_headers_next, Hend; [done|done|].
    by apply (Contains_char_app "Subject: " subject).
  - intros Hto first line -> Hfirst Hne Hc. rewrite read_message_first by done.
    rewrite (append_assoc first), (append_assoc CRLF line),
      <- (append_assoc "Subject: " first).
    rewrite read_headers_next;
      [|done|by apply (Contains_char_app "Subject: " first)].
    rewrite read_headers_next by done. by rewrite Hend.
Qed.

End gmail_facts.

(** ** The store when the directories cannot be made *)

Section store_faults.
Import auth.
Context `{JSON}.








(** C7.  [IsMultiAccount] takes any entry named [token.json] for a
    token.  In a directory tree where the configuration directory can be
    made, let some subdirectory of [accounts/] have an entry
    [token.json], and let no [token.json] in a subdirectory of
    [accounts/] be a valid token file: each is a directory, or a regular
    file that the JSON decoder rejects.  Then [IsMultiAccount] returns
    [true], although [LoadTokenForAccount] fails for every account (the
    name [.] apart, which stands for [accounts/] itself). *)
Theorem IsMultiAccount_accepts_invalid_token (s : Store) (d : path) :
  fs_wf (fs s) ->
  config_root s = Some d ->
  dir_makeable (fs s) d ->
  let accountsDir := accounts_dir d in
  (exists c, fs s !! (accountsDir ++ [c]) = Some Dir
             /\ is_Some (fs s !! (accountsDir ++ [c; TokenFileName]))) ->
  (forall c, ~ valid_token_file (fs s) (accountsDir ++ [c; TokenFileName])) ->
  fst (IsMultiAccount s) = Ok true
  /\ forall account,
       validateAccountName account = None -> account <> "." ->
       is_ok (fst (LoadTokenForAccount account s)) = false.
Proof.
  intros Hwf Hr Hm accountsDir (c & Hc & Ht) Hno. split.
  - apply (IsMultiAccount_stat s d Hwf Hr Hm). split; [|by exists c].
    destruct (Hwf _ _ Hc) as [_ Hp]. rewrite parent_snoc in Hp.
    unfold accountsDir, accounts_dir in *. by rewrite fs_lookup_snoc in Hp.
  - intros account Hv Hdot.
    destruct (LoadTokenForAccount account s) as [[token|e] s1] eqn:Hl; [|done].
    exfalso. apply LoadTokenForAccount_inv in Hl as (d' & b & Hr' & Hb & Hdec);
      [|done].
    assert (d' = d) as -> by congruence.
    rewrite account_dir_valid in Hb.
    + apply (Hno account). exists b, token.
      by rewrite <- app_assoc in Hb.
    + split; [|done]. intros ->. by vm_compute in Hv.
Qed.

End store_faults.

(** ** The further properties at work in the example world *)

Lemma legacy_token_round_trip_witness :
  exists s1 s2,
    @auth.SaveToken example.json example.token example.fresh_store = (Ok tt, s1)
    /\ @auth.LoadToken example.json s1 = (Ok example.token, s2).
Proof.
  apply (@legacy_token_round_trip example.json example.token
           (example.render example.token) example.fresh_store example.cfg).
  - reflexivity.
  - by vm_compute.
  - reflexivity.
  - apply dir_makeable_check. by vm_compute.
  - by vm_compute.
Defined.

Lemma legacy_secrets_round_trip_witness :
  exists s1,
    auth.SaveSecrets ["tmp"; "secrets.json"] example.login_store = (Ok tt, s1)
    /\ fst (auth.LoadSecrets s1) = Ok "{}".
Proof.
  apply (legacy_secrets_round_trip ["tmp"; "secrets.json"] "{}"
           example.login_store example.cfg).
  - by vm_compute.
  - reflexivity.
  - apply dir_makeable_check. by vm_compute.
  - by vm_compute.
Defined.

Lemma account_secrets_round_trip_witness :
  exists s1,
    auth.SaveSecretsForAccount "a@example.com" ["tmp"; "secrets.json"]
      example.login_store = (Ok tt, s1)
    /\ fst (auth.LoadSecretsForAccount "a@example.com" s1) = Ok "{}".
Proof.
  apply (account_secrets_round_trip "a@example.com" ["tmp"; "secrets.json"]
           "{}" example.login_store example.cfg).
  - reflexivity.
  - by vm_compute.
  - reflexivity.
  - apply dir_makeable_check. by vm_compute.
  - by vm_compute.
Defined.

Lemma ListAccounts_lists_witness :
  exists l,
    fst (auth.ListAccounts example.one_account_store) = Ok l
    /\ StronglySorted String.le l /\ NoDup l.
Proof.
  destruct (ListAccounts_lists example.one_account_store example.cfg)
    as (_ & (l & Hl & _ & Hs) & _).
  - apply fs_wf_check. by vm_compute.
  - reflexivity.
  - apply dir_makeable_check. by vm_compute.
  - by vm_compute.
  - exists l. split; [exact Hl|exact Hs].
Defined.

Lemma SaveTokenForAccount_registers_witness :
  exists s1,
    @auth.SaveTokenForAccount example.json "a@example.com" example.token
      example.fresh_store = (Ok tt, s1)
    /\ fst (auth.IsMultiAccount s1) = Ok true.
Proof.
  destruct (@SaveTokenForAccount_saves example.json "a@example.com"
              example.token (example.render example.token)
              example.fresh_store example.cfg)
    as (s1 & Hs & _).
  - reflexivity.
  - reflexivity.
  - reflexivity.
  - apply dir_makeable_check. by vm_compute.
  - by vm_compute.
  - exists s1. split; [exact Hs|].
    apply (@SaveTokenForAccount_registers example.json "a@example.com"
             example.token example.fresh_store s1).
    + apply fs_wf_tree, fs_wf_check. by vm_compute.
    + reflexivity.
    + done.
    + exact Hs.
Defined.

Lemma accounts_do_not_interfere_witness :
  exists s1 s2,
    @auth.SaveTokenForAccount example.json "b@example.com" example.token
      example.one_account_store = (Ok tt, s1)
    /\ @auth.LoadTokenForAccount example.json "a@example.com" s1
       = (Ok example.token, s2).
Proof.
  destruct (@SaveTokenForAccount_saves example.json "b@example.com"
              example.token (example.render example.token)
              example.one_account_store example.cfg)
    as (s1 & Hs & _).
  - reflexivity.
  - reflexivity.
  - reflexivity.
  - apply dir_makeable_check. by vm_compute.
  - by vm_compute.
  - destruct (@LoadTokenForAccount_loads example.json "a@example.com"
                example.token (example.render example.token)
                example.one_account_store example.cfg)
      as (sB & HB).
    + reflexivity.
    + by vm_compute.
    + reflexivity.
    + by vm_compute.
    + by vm_compute.
    + by vm_compute.
    + exists s1.
      destruct (@accounts_do_not_interfere example.json
                  "b@example.com" "a@example.com" example.token
                  example.one_account_store s1) as [Hload _].
      * apply fs_wf_tree, fs_wf_check. by vm_compute.
      * reflexivity.
      * reflexivity.
      * done.
      * exact Hs.
      * destruct (Hload example.token sB HB) as (s2 & H2).
        exists s2. split; [exact Hs|exact H2].
Defined.

Lemma validated_account_is_confined_witness :
  filepath.Join true example.cfg [auth.AccountsDirName; "a@example.com"]
  = example.cfg ++ ["accounts"; "a@example.com"].
Proof.
  apply (validated_account_is_confined true example.cfg "a@example.com").
  reflexivity.
Defined.

Lemma GetAccountDir_creates_on_demand_witness :
  exists s1,
    auth.GetAccountDir "a@example.com" example.fresh_store
    = (Ok (example.cfg ++ ["accounts"; "a@example.com"]), s1)
    /\ fs_lookup (fs s1) (example.cfg ++ ["accounts"; "a@example.com"])
       = Some Dir.
Proof.
  destruct (GetAccountDir_ok "a@example.com" example.fresh_store example.cfg)
    as (s1 & Hg).
  - reflexivity.
  - reflexivity.
  - apply dir_makeable_check. by vm_compute.
  - exists s1. split; [exact Hg|].
    apply (GetAccountDir_creates_on_demand "a@example.com"
             example.fresh_store s1 _ eq_refl Hg).
Defined.

Lemma Login_failure_effects_witness :
  auth.store
    (snd (@auth.Login example.json example.oauth
            (Ok "0123456789abcdef0123456789abcdef")
            (auth.ContextDone (ErrorString "context canceled")) "{}"
            main.login_scopes example.login_state))
  = example.login_store.
Proof.
  apply (proj1 (@Login_failure_effects example.json example.oauth
                  (Ok "0123456789abcdef0123456789abcdef")
                  (auth.ContextDone (ErrorString "context canceled")) "{}"
                  main.login_scopes example.login_state _
                  (ErrorString "context canceled") eq_refl)).
  done.
Defined.

Lemma login_then_GetClientOptions_witness :
  let event := auth.Callback "0123456789abcdef0123456789abcdef" "4/code" in
  let run := @main.handleAuthCommand example.json example.oauth example.abs
               (Ok "0123456789abcdef0123456789abcdef") event
               ["go-google-mcp"; "auth"; "login"; "--secrets"; "/tmp/secrets.json"]
               example.login_state in
  fst run = main.Return
  /\ exists token,
       fst (@auth.LoadToken example.json (auth.store (snd run))) = Ok token.
Proof.
  intros event run.
  assert (fst run = main.Return) as Hret by by vm_compute.
  split; [exact Hret|].
  destruct (@login_then_GetClientOptions example.json example.oauth unit
              example.abs (Ok "0123456789abcdef0123456789abcdef") event
              (fun _ _ => Err (ExtError 3))
              ["go-google-mcp"; "auth"; "login"; "--secrets"; "/tmp/secrets.json"]
              example.login_state (snd run))
    as (d & srcPath & secrets & config & code & token & _ & _ & _ & _ & Hload & _).
  - intros config code token b [= <-] [= <-]. reflexivity.
  - rewrite <- Hret. apply surjective_pairing.
  - exists token. exact Hload.
Defined.

Lemma note_addressed_by_name_or_id_witness :
  sent (snd (keep.GetNote example_api.Notes_Get "abc" example_api.keep_state))
  = [keep.NotesGet "notes/abc"].
Proof.
  apply (note_addressed_by_name_or_id example_api.Notes_Get
           example_api.Notes_Delete "abc" example_api.keep_state).
  done.
Defined.

Lemma UpdateNote_protocol_witness :
  let run := keep.UpdateNote example_api.Notes_Create example_api.Notes_Get
               example_api.Notes_Delete "abc" example_api.retitle
               example_api.keep_state in
  exists m,
    sent (snd run)
    = [keep.NotesGet "notes/abc"; keep.NotesCreate m; keep.NotesDelete "notes/abc"]
    /\ keep.Title m = "Groceries".
Proof.
  intros run.
  destruct (UpdateNote_protocol example_api.Notes_Create example_api.Notes_Get
              example_api.Notes_Delete "abc" example_api.retitle
              example_api.keep_state (snd run) (fst run))
    as [(Hn & _)|[(_ & e & srv1 & Hg & _)
                 |(_ & existing & srv1 & Hg
                   & [(e & srv2 & Hc & _)
                     |(created & srv2 & d & srv3 & Hc & Hd & Hst & Hr)])]].
  - apply surjective_pairing.
  - discriminate Hn.
  - discriminate Hg.
  - discriminate Hc.
  - injection Hg as <- <-. eexists. rewrite Hst. split; reflexivity.
Defined.

Lemma UpdateTask_protocol_witness :
  let run := tasks.UpdateTask example_api.Tasks_Get example_api.Tasks_Update
               "list1" "task1" example_api.complete example_api.tasks_state in
  sent (snd run)
  = [tasks.TasksGet "list1" "task1";
     tasks.TasksUpdate "list1" "task1"
       (tasks.mkTask "task1" "Buy milk" "" "2026-02-01T00:00:00Z" "completed" tt)].
Proof.
  intros run.
  destruct (UpdateTask_protocol example_api.Tasks_Get example_api.Tasks_Update
              "list1" "task1" example_api.complete
              example_api.tasks_state (snd run) (fst run))
    as [([Hl|Ht] & _)
       |(_ & _ & [(e & srv1 & Hg & _)
                 |(existing & srv1 & u & srv2 & Hg & Hu & Hst & Hr)])].
  - apply surjective_pairing.
  - discriminate Hl.
  - discriminate Ht.
  - discriminate Hg.
  - injection Hg as <- <-. by rewrite Hst.
Defined.

Lemma drive_search_query_unescaped_witness :
  exists literal,
    drive.drive_search_query "" "x' or name contains 'y" "" ""
    = "name contains '" +:+ literal
    /\ drive.read_literal literal = Some ("x", " or name contains 'y'").
Proof.
  apply (drive_search_query_unescaped "x" " or name contains 'y"); reflexivity.
Defined.

Lemma handleAuthCommand_exits_witness :
  let run := @main.handleAuthCommand example.json example.oauth example.abs
               (Ok "0123456789abcdef0123456789abcdef")
               (auth.Callback "0123456789abcdef0123456789abcdef" "4/code")
               ["go-google-mcp"; "auth"; "login"; "--account"; "a@example.com"]
               example.login_state in
  fst run = main.Exit 2 /\ auth.store (snd run) = example.login_store.
Proof.
  intros run.
  assert (fst run = main.Exit 2) as Hexit by by vm_compute.
  split; [exact Hexit|].
  destruct (@handleAuthCommand_exits example.json example.oauth example.abs
              (Ok "0123456789abcdef0123456789abcdef")
              (auth.Callback "0123456789abcdef0123456789abcdef" "4/code")
              ["go-google-mcp"; "auth"; "login"; "--account"; "a@example.com"]
              example.login_state (snd run) 2)
    as (_ & Hsame & _).
  - rewrite <- Hexit. apply surjective_pairing.
  - by apply Hsame.
Defined.

Lemma instances_do_not_interfere_witness :
  exists s1 s2,
    @auth.SaveToken example.json example.token
      (with_config_dir example_instances.dir_a example_instances.store)
    = (Ok tt, s1)
    /\ @auth.LoadToken example.json
         (with_config_dir example_instances.dir_b s1)
       = (Ok example.token, s2).
Proof.
  destruct (@SaveToken_saves example.json example.token
              (example.render example.token)
              (with_config_dir example_instances.dir_a example_instances.store)
              example_instances.dir_a)
    as (s1 & Hs & _).
  - reflexivity.
  - reflexivity.
  - apply dir_makeable_check. by vm_compute.
  - by vm_compute.
  - destruct (@LoadToken_loads example.json example.token
                (example.render example.token)
                (with_config_dir example_instances.dir_b example_instances.store)
                example_instances.dir_b)
      as (sx & Hx).
    + by vm_compute.
    + reflexivity.
    + by vm_compute.
    + by vm_compute.
    + destruct (@instances_do_not_interfere example.json
                  example_instances.dir_a example_instances.dir_b
                  example.token example.token example_instances.store s1 sx)
        as (s2 & H2).
      * apply fs_wf_tree, fs_wf_check. by vm_compute.
      * done.
      * exact Hs.
      * exact Hx.
      * exists s1, s2. split; [exact Hs|exact H2].
Defined.

Lemma outgoing_message_witness :
  gmail.read_headers ""
    (gmail.message "a@example.com" "Hello" "How are you?")
  = Some (["To: a@example.com"; "Subject: Hello"], "How are you?").
Proof.
  destruct (@outgoing_message nat string string (fun s => s)
              (fun raw => ret raw) (fun raw => ret raw)
              "a@example.com" "Hello" "How are you?" (mkApi 0 []))
    as (_ & _ & Hread & _).
  apply Hread; reflexivity.
Defined.

Lemma Login_checks_state_witness :
  exists s',
    @auth.Login example.json example.oauth
      (Ok "0123456789abcdef0123456789abcdef")
      (auth.Callback "forged" "4/code") "{}" main.login_scopes
      example.login_state
    = (Err (Wrapf "server error: %w" [] (ErrorString "state token mismatch")), s')
    /\ auth.store s' = example.login_store.
Proof.
  apply (proj2 (@Login_checks_state example.json example.oauth
                  (Ok "0123456789abcdef0123456789abcdef")
                  (auth.Callback "forged" "4/code") "{}" main.login_scopes
                  example.login_state)
           "{}" "0123456789abcdef0123456789abcdef" "forged" "4/code");
    done.
Defined.

Lemma GetClientOptions_writes_no_file_witness :
  fs (snd (@client.GetClientOptions example.json example.oauth unit
             example.abs (fun _ _ => Err (ExtError 3))
             "/tmp/secrets.json" main.login_scopes example.login_store))
  = fs example.login_store.
Proof.
  apply (@GetClientOptions_writes_no_file example.json example.oauth unit
           example.abs (fun _ _ => Err (ExtError 3))
           "/tmp/secrets.json" main.login_scopes example.login_store).
  done.
Defined.

Lemma ListTasks_sends_witness :
  sent (snd (tasks.ListTasks (fun _ _ _ => ret [])
               "list1" {| tasks.ShowCompleted := false; tasks.MaxResults := 500 |}
               example_api.tasks_state))
  = [tasks.TasksList "list1" false 100].
Proof.
  destruct (proj2 (@ListTasks_sends nat unit (fun _ _ _ => ret [])
                     "list1"
                     {| tasks.ShowCompleted := false; tasks.MaxResults := 500 |}
                     example_api.tasks_state))
    as (n & _ & _ & _ & Hn & Hrun); [done|].
  rewrite Hrun, Hn; [reflexivity|]. cbn. lia.
Defined.

Lemma InsertTask_sends_witness :
  sent (snd (tasks.InsertTask tt (fun _ task => ret task)
               "list1" "Buy milk" "" "" example_api.tasks_state))
  = [tasks.TasksInsert "list1" (tasks.mkTask "" "Buy milk" "" "" "" tt)].
Proof.
  destruct (@InsertTask_sends nat unit tt (fun _ task => ret task)
              "list1" "Buy milk" "" "" example_api.tasks_state)
    as (_ & _ & Hrun).
  by rewrite Hrun.
Defined.

Lemma searches_mention_trashed_witness :
  sent (snd (drive.FindFiles (fun _ _ => ret ([] : list string)) "it's" 0
               (mkApi 0 [])))
  = [drive.FilesList "fullText contains 'it\'s' and trashed = false" 10].
Proof.
  destruct (@searches_mention_trashed nat string (fun _ _ => ret [])
              0%Z (mkApi 0 [])) as (_ & _ & _ & _ & Hfind).
  by rewrite Hfind.
Defined.

(** ** The store at work where the directories are not in order *)





Lemma empty_token_not_valid (c : string) :
  ~ @auth.valid_token_file example.json
      (fs example_faults.empty_token_store)
      (auth.accounts_dir example.cfg ++ [c; auth.TokenFileName]).
Proof.
  intros (b & token & Hb & Hdec).
  destruct (decide (c = "a@example.com")) as [->|Hne].
  - vm_compute in Hb. injection Hb as <-. by vm_compute in Hdec.
  - cbn [fs example_faults.empty_token_store] in Hb.
    unfold example_faults.account_fs in Hb.
    rewrite lookup_insert_ne in Hb by (cbn; congruence).
    rewrite !lookup_insert_ne in Hb by done.
    by rewrite lookup_empty in Hb.
Qed.

Lemma IsMultiAccount_accepts_invalid_token_witness :
  fst (auth.IsMultiAccount example_faults.empty_token_store) = Ok true
  /\ is_ok (fst (@auth.LoadTokenForAccount example.json "a@example.com"
                   example_faults.empty_token_store)) = false.
Proof.
  destruct (@IsMultiAccount_accepts_invalid_token example.json
              example_faults.empty_token_store example.cfg) as [Htrue Hload].
  - apply fs_wf_check. by vm_compute.
  - reflexivity.
  - apply dir_makeable_check. by vm_compute.
  - exists "a@example.com". split; [by vm_compute|].
    exists (File ""). by vm_compute.
  - apply empty_token_not_valid.
  - split; [exact Htrue|]. by apply Hload.
Defined.
